(** * Streaming candle pipeline of AlpacaBackend: a shallow embedding

    Sources embedded here:
    - [core/services/websocket/utils.py]        [floor_to_bucket]
    - [core/services/websocket/persistence.py]  [CandleRepository.save_candles],
                                                [CandleRepository.fetch_minute_ids]
    - [core/services/websocket/aggregator.py]   [TimeframeAggregator]
    - [core/services/websocket/backfill.py]     [BackfillGuard]
    - [core/services/backfill_coordinator.py]   [request_backfill]

    Conventions.
    - A timezone-aware UTC [datetime] is an integer count of microseconds since
      the Unix epoch; a [timedelta] is an integer count of microseconds.
    - Prices and volumes (Django [FloatField]s) are integers: the merge logic
      only uses [max], [min] and [+] on them.
    - A Python value that may be [None] is an [option]; a dict entry that may be
      absent as well is an [option (option _)] ([None] = key absent).
    - Python dicts are association lists with first-match lookup [dget] and
      in-place assignment [dset] (insertion order is kept, as in Python). *)

From Stdlib Require Import String ZArith List Bool Lia Permutation.
Import ListNotations.
Open Scope Z_scope.

(* ------------------------------------------------------------------------- *)
(** ** Python dicts as association lists *)

Section Dict.
Context {K V : Type} (eqk : K -> K -> bool).

Fixpoint dget (m : list (K * V)) (k : K) : option V :=
  match m with
  | [] => None
  | (k', v) :: r => if eqk k k' then Some v else dget r k
  end.

(** [m[k] = v]: overwrite in place, or append a new entry. *)
Fixpoint dset (m : list (K * V)) (k : K) (v : V) : list (K * V) :=
  match m with
  | [] => [(k, v)]
  | (k', v') :: r => if eqk k k' then (k', v) :: r else (k', v') :: dset r k v
  end.

(** [m.pop(k, None)] *)
Fixpoint dpop (m : list (K * V)) (k : K) : list (K * V) :=
  match m with
  | [] => []
  | (k', v') :: r => if eqk k k' then r else (k', v') :: dpop r k
  end.

Definition dmem (m : list (K * V)) (k : K) : bool :=
  match dget m k with Some _ => true | None => false end.
End Dict.

(* ------------------------------------------------------------------------- *)
(** ** Time *)

Definition datetime := Z.
Definition timedelta := Z.

Definition usec_per_sec : Z := 1000000.
Definition usec_per_min : Z := 60 * usec_per_sec.

Definition minutes (m : Z) : timedelta := m * usec_per_min.
Definition hours (h : Z) : timedelta := h * 60 * usec_per_min.
Definition days (d : Z) : timedelta := d * 24 * 60 * usec_per_min.

(** Days from 1970-01-01 to the proleptic Gregorian date [y-m-d]. *)
Definition days_from_civil (y m d : Z) : Z :=
  let y' := if m <=? 2 then y - 1 else y in
  let era := y' / 400 in
  let yoe := y' - era * 400 in
  let mp := (m + 9) mod 12 in
  let doy := (153 * mp + 2) / 5 + d - 1 in
  let doe := yoe * 365 + yoe / 4 - yoe / 100 + doy in
  era * 146097 + doe - 719468.

(** [datetime(y, mo, d, h, mi, s, tzinfo=pytz.UTC)] *)
Definition utc (y mo d h mi s : Z) : datetime :=
  (((days_from_civil y mo d * 24 + h) * 60 + mi) * 60 + s) * usec_per_sec.

(** [floor_to_bucket(ts, delta)] (utils.py).  [ts] is already UTC-aware
    (a naive one is made aware in UTC first, which is the identity here). *)
Definition floor_to_bucket (ts : datetime) (delta : timedelta) : datetime :=
  (* minutes = int(delta.total_seconds() // 60) *)
  let minutes := delta / usec_per_min in
  if minutes <=? 0 then
    (* ts.replace(second=0, microsecond=0) *)
    ts - ts mod usec_per_min
  else
    (* total_min = int(ts.timestamp() // 60) *)
    let total_min := ts / usec_per_min in
    let bucket_min := (total_min / minutes) * minutes in
    (* datetime.fromtimestamp(bucket_min * 60, tz=pytz.UTC) *)
    bucket_min * usec_per_min.

(** Reference definition following the spec's wording (not from the source):
    the bucket start aligned to a market-open [anchor] instant, 09:30 in the
    trading timezone, used to compare [floor_to_bucket] against. *)
Definition anchored_floor (anchor : datetime) (delta : timedelta) (ts : datetime)
  : datetime :=
  anchor + ((ts - anchor) / delta) * delta.


(* ------------------------------------------------------------------------- *)
(** ** Timeframes ([main/const.py]) *)

Inductive Timeframe := TF_1T | TF_5T | TF_15T | TF_30T | TF_1H | TF_4H | TF_1D.

Definition tf_eqb (a b : Timeframe) : bool :=
  match a, b with
  | TF_1T, TF_1T | TF_5T, TF_5T | TF_15T, TF_15T | TF_30T, TF_30T
  | TF_1H, TF_1H | TF_4H, TF_4H | TF_1D, TF_1D => true
  | _, _ => false
  end.

Definition TF_CFG : list (Timeframe * timedelta) :=
  [(TF_1T, minutes 1); (TF_5T, minutes 5); (TF_15T, minutes 15);
   (TF_30T, minutes 30); (TF_1H, hours 1); (TF_4H, hours 4); (TF_1D, days 1)].

(** [(asset_id, timestamp)], the key of the update and accumulator dicts. *)
Definition key := (Z * datetime)%type.

Definition key_eqb (k k' : key) : bool := (fst k =? fst k') && (snd k =? snd k').

(** [x in xs] for a list of ints (or datetimes). *)
Definition in_Z (x : Z) (xs : list Z) : bool := existsb (Z.eqb x) xs.

(* ------------------------------------------------------------------------- *)
(** ** The [Candle] table ([core/models.py]) *)

(** The stored columns of one [Candle] row besides its unique key
    [(asset, timeframe, timestamp)]. *)
Record Candle := mkCandle {
  cid : Z;
  open : option Z;
  high : option Z;
  low : option Z;
  close : option Z;
  volume : option Z;
  minute_candle_ids : option (list Z)
}.

(** Key of a row: [unique_together = ["asset", "timeframe", "timestamp"]]. *)
Definition tkey := (Z * Timeframe * datetime)%type.

Definition tkey_eqb (k k' : tkey) : bool :=
  match k, k' with
  | (a, tf, ts), (a', tf', ts') => (a =? a') && tf_eqb tf tf' && (ts =? ts')
  end.

(** The table, a dict from the unique key to the row, and the next primary
    key the database hands out. *)
Record Store := mkStore {
  rows : list (tkey * Candle);
  next_id : Z
}.

(** A candle dict as passed to [save_candles] and kept in the accumulators:
    each of its keys may be absent ([None]) or hold a value or [None]. *)
Record CandleData := mkData {
  d_open : option (option Z);
  d_high : option (option Z);
  d_low : option (option Z);
  d_close : option (option Z);
  d_volume : option (option Z);
  d_minute_candle_ids : option (option (list Z))
}.

(** [data.get(k)] *)
Definition get {A} (f : option (option A)) : option A :=
  match f with Some v => v | None => None end.

(** [data.get(k, dflt)] *)
Definition get_or {A} (f : option (option A)) (dflt : option A) : option A :=
  match f with Some v => v | None => dflt end.

(** [v or 0] for a number that may be [None]. *)
Definition or0 (v : option Z) : Z := match v with Some x => x | None => 0 end.

(** Truthiness of a dict: [if data:] *)
Definition data_truthy (d : CandleData) : bool :=
  match d with
  | mkData None None None None None None => false
  | _ => true
  end.

(** Union of minute ids ([list(set(...))]; the order of the Python set is
    abstracted as: old ids first, then new ones in order). *)
Fixpoint union_ids (acc new : list Z) : list Z :=
  match new with
  | [] => acc
  | m :: r => if in_Z m acc then union_ids acc r else union_ids (acc ++ [m]) r
  end.

(** The merge branch of [save_candles] for an existing row [c]. *)
Definition merge_row (snapshot : bool) (c : Candle) (data : CandleData) : Candle :=
  let open' :=
    match open c, get (d_open data) with
    | None, Some o => Some o
    | o, _ => o
    end in
  let high' :=
    match high c, get (d_high data) with
    | Some h, Some h' => Some (Z.max h h')
    | Some h, None => Some h
    | None, h' => h'
    end in
  let low' :=
    match low c, get (d_low data) with
    | Some l, Some l' => Some (Z.min l l')
    | Some l, None => Some l
    | None, l' => l'
    end in
  let close' := get_or (d_close data) (close c) in
  let incoming_vol := or0 (get (d_volume data)) in
  let volume' := if snapshot then Some incoming_vol
                 else Some (or0 (volume c) + incoming_vol) in
  let mids' :=
    match get (d_minute_candle_ids data) with
    | None | Some [] => minute_candle_ids c
    | Some mids =>
        let existing := match minute_candle_ids c with Some l => l | None => [] end in
        Some (union_ids existing mids)
    end in
  mkCandle (cid c) open' high' low' close' volume' mids'.

(** The create branch of [save_candles]; [i] is the primary key the database
    assigns on insert. *)
Definition new_row (i : Z) (data : CandleData) : Candle :=
  mkCandle i (get (d_open data)) (get (d_high data)) (get (d_low data))
    (get (d_close data)) (Some (or0 (get (d_volume data))))
    (get (d_minute_candle_ids data)).

(** The loop over [updates.items()]: rows to create and rows to update. *)
Fixpoint plan_updates (snapshot : bool) (existing : list (key * Candle))
    (ups : list (key * CandleData)) : list (key * CandleData) * list (key * Candle) :=
  match ups with
  | [] => ([], [])
  | (k, data) :: r =>
      let '(to_create, to_update) := plan_updates snapshot existing r in
      match dget key_eqb existing k with
      | Some c => (to_create, (k, merge_row snapshot c data) :: to_update)
      | None => ((k, data) :: to_create, to_update)
      end
  end.

(** [Candle.objects.bulk_create(to_create, ignore_conflicts=True)]: one
    [INSERT .. ON CONFLICT DO NOTHING]; PostgreSQL draws the id of every row
    from the sequence, also of a row that conflicts and is skipped. *)
Fixpoint bulk_create (tf : Timeframe) (to_create : list (key * CandleData)) (st : Store)
  : Store :=
  match to_create with
  | [] => st
  | ((aid, ts), data) :: r =>
      let tk := (aid, tf, ts) in
      if dmem tkey_eqb (rows st) tk then bulk_create tf r (mkStore (rows st) (next_id st + 1))
      else bulk_create tf r
             (mkStore (dset tkey_eqb (rows st) tk (new_row (next_id st) data))
                      (next_id st + 1))
  end.

(** [Candle.objects.bulk_update(to_update, [...])]: each row is written back
    under its own key. *)
Fixpoint bulk_update (tf : Timeframe) (to_update : list (key * Candle)) (st : Store)
  : Store :=
  match to_update with
  | [] => st
  | ((aid, ts), c) :: r =>
      bulk_update tf r (mkStore (dset tkey_eqb (rows st) (aid, tf, ts) c) (next_id st))
  end.

(** The rows of [Candle.objects.filter(asset_id__in=.., timestamp__in=..,
    timeframe=..)], keyed by [(asset_id, timestamp)]. *)
Definition query_rows (tf : Timeframe) (asset_ids minutes : list Z) (st : Store)
  : list (key * Candle) :=
  map (fun '((a, _, ts), c) => ((a, ts), c))
    (filter (fun '((a, tf', ts), _) =>
               in_Z a asset_ids && in_Z ts minutes && tf_eqb tf' tf) (rows st)).

(** The columns [open], [high], [low], [close] and [volume] are NOT NULL
    ([models.FloatField()]); a row with [None] in one of them violates the
    constraint. *)
Definition not_null_ok (c : Candle) : bool :=
  match open c, high c, low c, close c, volume c with
  | Some _, Some _, Some _, Some _, Some _ => true
  | _, _, _, _, _ => false
  end.

(** The query of [existing] and the loop over [updates.items()] of
    [save_candles]: [(to_create, to_update)]. *)
Definition save_plan (timeframe : Timeframe) (updates : list (key * CandleData))
    (snapshot : bool) (st : Store) : list (key * CandleData) * list (key * Candle) :=
  let keys := map fst updates in
  let existing := query_rows timeframe (map fst keys) (map snd keys) st in
  plan_updates snapshot existing updates.

(** The transaction of [save_candles] commits when no row it inserts or
    updates violates NOT NULL; otherwise the database raises, the
    [transaction.atomic()] block rolls back and [except Exception] logs. *)
Definition plan_commits (to_create : list (key * CandleData)) (to_update : list (key * Candle))
  : bool :=
  forallb (fun kd => not_null_ok (new_row 0 (snd kd))) to_create &&
  forallb (fun kc => not_null_ok (snd kc)) to_update.

(** The ids a failed transaction has drawn from the sequence (sequences are
    not rolled back): the [INSERT] draws one per row up to the first row
    that violates NOT NULL, all of them when it is the [UPDATE] that fails. *)
Fixpoint ids_drawn (to_create : list (key * CandleData)) : Z :=
  match to_create with
  | [] => 0
  | (_, d) :: r => if not_null_ok (new_row 0 d) then 1 + ids_drawn r else 1
  end.

(** [CandleRepository.save_candles(timeframe, updates, write_mode=..)];
    [snapshot] is [write_mode == "snapshot"].  A failing transaction is
    caught and leaves the table as it was. *)
Definition save_candles (timeframe : Timeframe) (updates : list (key * CandleData))
    (snapshot : bool) (st : Store) : Store :=
  match updates with
  | [] => st
  | _ =>
      let '(to_create, to_update) := save_plan timeframe updates snapshot st in
      if plan_commits to_create to_update
      then bulk_update timeframe to_update (bulk_create timeframe to_create st)
      else mkStore (rows st) (next_id st + ids_drawn to_create)
  end.

(** Whether the transaction of a [save_candles] call commits. *)
Definition save_candles_commits (timeframe : Timeframe) (updates : list (key * CandleData))
    (snapshot : bool) (st : Store) : bool :=
  match updates with
  | [] => true
  | _ =>
      let '(to_create, to_update) := save_plan timeframe updates snapshot st in
      plan_commits to_create to_update
  end.

(** [CandleRepository.fetch_minute_ids(recent_minute_keys)] *)
Definition fetch_minute_ids (recent_minute_keys : list key) (st : Store)
  : list (key * Z) :=
  match recent_minute_keys with
  | [] => []
  | _ =>
      let asset_ids := map fst recent_minute_keys in
      let minutes := map snd recent_minute_keys in
      let existing := query_rows TF_1T asset_ids minutes st in
      fold_left (fun out '(k, c) => dset key_eqb out k (cid c)) existing []
  end.

(* ------------------------------------------------------------------------- *)
(** ** [TimeframeAggregator] ([core/services/websocket/aggregator.py]) *)

(** An entry of [m1_map]: its five keys are always present (client.py builds
    it with all of them), a value may be [None] (bars read [b.get("o")]). *)
Record M1Bar := mkM1 {
  m_open : option Z;
  m_high : option Z;
  m_low : option Z;
  m_close : option Z;
  m_volume : option Z
}.

(** Python [max(a, b)] and [min(a, b)] on numbers or [None]; an ordering
    comparison with [None] raises [TypeError], the outer [None]. *)
Definition py_max (a b : option Z) : option (option Z) :=
  match a, b with Some x, Some y => Some (Some (Z.max x y)) | _, _ => None end.

Definition py_min (a b : option Z) : option (option Z) :=
  match a, b with Some x, Some y => Some (Some (Z.min x y)) | _, _ => None end.

(** [acc[key] = {"open": data["open"], ...}] *)
Definition new_acc_entry (data : M1Bar) : CandleData :=
  mkData (Some (m_open data)) (Some (m_high data)) (Some (m_low data))
    (Some (m_close data)) (Some (m_volume data)) None.

(** The [else] branch of [rollup_from_minutes]: merge [data] into the
    accumulator entry [c]; [None] when [max]/[min] raise. *)
Definition merge_acc_entry (c : CandleData) (data : M1Bar) : option CandleData :=
  let open' := match get (d_open c) with
               | None => Some (m_open data)
               | Some _ => d_open c
               end in
  match py_max (get_or (d_high c) (m_high data)) (m_high data) with
  | None => None
  | Some h =>
      match py_min (get_or (d_low c) (m_low data)) (m_low data) with
      | None => None
      | Some l =>
          Some (mkData open' (Some h) (Some l) (Some (m_close data))
                  (Some (Some (or0 (get (d_volume c)) + or0 (m_volume data))))
                  (d_minute_candle_ids c))
      end
  end.

Record Aggregator := mkAgg {
  tf_cfg : list (Timeframe * timedelta);
  _tf_acc : list (Timeframe * list (key * CandleData));
  _last_open_flush : list (Timeframe * Z);
  (** the throttle interval, held in microseconds like every clock value *)
  _open_flush_secs : Z
}.

(** The default aggregator: [const.TF_CFG], empty accumulators for every
    timeframe but 1T, throttle [0.25] s. *)
Definition default_aggregator : Aggregator :=
  mkAgg TF_CFG
    (map (fun '(tf, _) => (tf, [])) (filter (fun '(tf, _) => negb (tf_eqb tf TF_1T)) TF_CFG))
    (map (fun '(tf, _) => (tf, 0)) (filter (fun '(tf, _) => negb (tf_eqb tf TF_1T)) TF_CFG))
    250000.

Definition with_tf_acc (agg : Aggregator) (a : list (Timeframe * list (key * CandleData)))
  : Aggregator :=
  mkAgg (tf_cfg agg) a (_last_open_flush agg) (_open_flush_secs agg).

Definition with_last_open_flush (agg : Aggregator) (l : list (Timeframe * Z)) : Aggregator :=
  mkAgg (tf_cfg agg) (_tf_acc agg) l (_open_flush_secs agg).

(** [touched[tf].add(key)] on a [defaultdict(set)] *)
Definition touch (touched : list (Timeframe * list key)) (tf : Timeframe) (k : key)
  : list (Timeframe * list key) :=
  let ks := match dget tf_eqb touched tf with Some ks => ks | None => [] end in
  dset tf_eqb touched tf (if existsb (key_eqb k) ks then ks else ks ++ [k]).

(** The inner loop [for tf, delta in self.tf_cfg.items()] for one minute bar;
    [None] is a raised exception ([KeyError] on [_tf_acc], [TypeError]). *)
Fixpoint rollup_tfs (cfg : list (Timeframe * timedelta)) (aid : Z) (m1_ts : datetime)
    (data : M1Bar) (accs : list (Timeframe * list (key * CandleData)))
    (touched : list (Timeframe * list key))
  : option (list (Timeframe * list (key * CandleData)) * list (Timeframe * list key)) :=
  match cfg with
  | [] => Some (accs, touched)
  | (tf, delta) :: r =>
      if tf_eqb tf TF_1T then rollup_tfs r aid m1_ts data accs touched
      else
        let bucket := floor_to_bucket m1_ts delta in
        match dget tf_eqb accs tf with
        | None => None
        | Some acc =>
            let k := (aid, bucket) in
            match dget key_eqb acc k with
            | None =>
                rollup_tfs r aid m1_ts data
                  (dset tf_eqb accs tf (dset key_eqb acc k (new_acc_entry data)))
                  (touch touched tf k)
            | Some c =>
                match merge_acc_entry c data with
                | None => None
                | Some c' =>
                    rollup_tfs r aid m1_ts data
                      (dset tf_eqb accs tf (dset key_eqb acc k c'))
                      (touch touched tf k)
                end
            end
        end
  end.

Fixpoint rollup_items (cfg : list (Timeframe * timedelta)) (m1_items : list (key * M1Bar))
    (accs : list (Timeframe * list (key * CandleData)))
    (touched : list (Timeframe * list key))
  : option (list (Timeframe * list (key * CandleData)) * list (Timeframe * list key)) :=
  match m1_items with
  | [] => Some (accs, touched)
  | ((aid, m1_ts), data) :: r =>
      match rollup_tfs cfg aid m1_ts data accs touched with
      | None => None
      | Some (accs', touched') => rollup_items cfg r accs' touched'
      end
  end.

(** [TimeframeAggregator.rollup_from_minutes(m1_map)] *)
Definition rollup_from_minutes (agg : Aggregator) (m1_map : list (key * M1Bar))
  : option (Aggregator * list (Timeframe * list key)) :=
  match rollup_items (tf_cfg agg) m1_map (_tf_acc agg) [] with
  | None => None
  | Some (accs, touched) => Some (with_tf_acc agg accs, touched)
  end.

(** A call [self.repo.save_candles(tf, updates, write_mode=...)]. *)
Record SaveCall := mkSave {
  s_tf : Timeframe;
  s_updates : list (key * CandleData);
  s_snapshot : bool
}.

(** Running the recorded calls against the table. *)
Definition run_saves (calls : list SaveCall) (st : Store) : Store :=
  fold_left (fun st c => save_candles (s_tf c) (s_updates c) (s_snapshot c) st) calls st.

Section Guarded.
(** [self.backfill.is_historical_complete(aid, tf, bucket_ts)] as answered
    during one call of the aggregator. *)
Variable is_historical_complete : Z -> Timeframe -> datetime -> bool.

(** The loop [for key in keys] of [persist_open] building [to_persist]. *)
Fixpoint collect_open (tf : Timeframe) (delta : timedelta) (latest_m1 : datetime)
    (acc : list (key * CandleData)) (keys : list key)
    (to_persist : list (key * CandleData)) : list (key * CandleData) :=
  match keys with
  | [] => to_persist
  | (aid, bucket_ts) :: r =>
      let end_ts := bucket_ts + delta in
      if latest_m1 <? end_ts then
        if is_historical_complete aid tf bucket_ts then
          match dget key_eqb acc (aid, bucket_ts) with
          | Some data =>
              if data_truthy data
              then collect_open tf delta latest_m1 acc r
                     (dset key_eqb to_persist (aid, bucket_ts) data)
              else collect_open tf delta latest_m1 acc r to_persist
          | None => collect_open tf delta latest_m1 acc r to_persist
          end
        else collect_open tf delta latest_m1 acc r to_persist
      else collect_open tf delta latest_m1 acc r to_persist
  end.

(** The loop [for tf, keys in touched_by_tf.items()] of [persist_open] at
    clock [now]; [None] is the [KeyError] of [self.tf_cfg[tf]]. *)
Fixpoint persist_open_tfs (agg : Aggregator) (touched : list (Timeframe * list key))
    (latest_m1 now : datetime) : option (Aggregator * list SaveCall) :=
  match touched with
  | [] => Some (agg, [])
  | (tf, keys) :: r =>
      if tf_eqb tf TF_1T || match keys with [] => true | _ => false end
      then persist_open_tfs agg r latest_m1 now
      else
        let last := match dget tf_eqb (_last_open_flush agg) tf with
                    | Some l => l | None => 0 end in
        if now - last <? _open_flush_secs agg
        then persist_open_tfs agg r latest_m1 now
        else
          match dget tf_eqb (tf_cfg agg) tf with
          | None => None
          | Some delta =>
              let acc := match dget tf_eqb (_tf_acc agg) tf with
                         | Some a => a | None => [] end in
              match collect_open tf delta latest_m1 acc keys [] with
              | [] => persist_open_tfs agg r latest_m1 now
              | to_persist =>
                  let agg' := with_last_open_flush agg
                                (dset tf_eqb (_last_open_flush agg) tf now) in
                  match persist_open_tfs agg' r latest_m1 now with
                  | None => None
                  | Some (agg'', calls) =>
                      Some (agg'', mkSave tf to_persist true :: calls)
                  end
              end
          end
  end.

(** [TimeframeAggregator.persist_open(touched_by_tf, latest_m1)] *)
Definition persist_open (agg : Aggregator) (touched_by_tf : list (Timeframe * list key))
    (latest_m1 now : datetime) : option (Aggregator * list SaveCall) :=
  persist_open_tfs agg touched_by_tf latest_m1 now.

(** The loop [for (aid, bucket_ts), _data in list(acc.items())] of
    [flush_closed] for one timeframe. *)
Fixpoint flush_keys (tf : Timeframe) (delta : timedelta) (latest_m1 : datetime)
    (items : list (key * CandleData)) (acc : list (key * CandleData))
  : list (key * CandleData) * list SaveCall :=
  match items with
  | [] => (acc, [])
  | ((aid, bucket_ts), _) :: r =>
      let k := (aid, bucket_ts) in
      let end_ts := bucket_ts + delta in
      if end_ts <=? latest_m1 then
        if is_historical_complete aid tf bucket_ts then
          let closed_data := dget key_eqb acc k in
          let '(acc', calls) := flush_keys tf delta latest_m1 r (dpop key_eqb acc k) in
          match closed_data with
          | Some d => if data_truthy d then (acc', mkSave tf [(k, d)] true :: calls)
                      else (acc', calls)
          | None => (acc', calls)
          end
        else flush_keys tf delta latest_m1 r (dpop key_eqb acc k)
      else flush_keys tf delta latest_m1 r acc
  end.

Fixpoint flush_tfs (cfg : list (Timeframe * timedelta)) (latest_m1 : datetime)
    (accs : list (Timeframe * list (key * CandleData)))
  : option (list (Timeframe * list (key * CandleData)) * list SaveCall) :=
  match cfg with
  | [] => Some (accs, [])
  | (tf, delta) :: r =>
      if tf_eqb tf TF_1T then flush_tfs r latest_m1 accs
      else
        match dget tf_eqb accs tf with
        | None => None
        | Some [] => flush_tfs r latest_m1 accs
        | Some acc =>
            let '(acc', calls) := flush_keys tf delta latest_m1 acc acc in
            match flush_tfs r latest_m1 (dset tf_eqb accs tf acc') with
            | None => None
            | Some (accs', calls') => Some (accs', calls ++ calls')
            end
        end
  end.

(** [TimeframeAggregator.flush_closed(latest_m1)] *)
Definition flush_closed (agg : Aggregator) (latest_m1 : datetime)
  : option (Aggregator * list SaveCall) :=
  match flush_tfs (tf_cfg agg) latest_m1 (_tf_acc agg) with
  | None => None
  | Some (accs, calls) => Some (with_tf_acc agg accs, calls)
  end.
End Guarded.

(* ------------------------------------------------------------------------- *)
(** ** Cache, backfill coordinator and [BackfillGuard] *)

(** Outcome of a call that may raise. *)
Inductive result (A : Type) : Type :=
| Ok (a : A)
| Raise.
Arguments Ok {A} a.
Arguments Raise {A}.

(** The keys of [cache_keys.backfill(asset_id)]: [queued()], [running()],
    [completed()]. *)
Inductive CacheKey :=
| Queued (asset_id : Z)
| Running (asset_id : Z)
| Completed (asset_id : Z).

Definition ck_eqb (a b : CacheKey) : bool :=
  match a, b with
  | Queued x, Queued y | Running x, Running y | Completed x, Completed y => x =? y
  | _, _ => false
  end.

(** Django's cache: each key holds a value and its expiry instant; an entry
    is live while [now < expiry].  [cache_up = false] means every call on the
    backend raises. *)
Record Cache := mkCache {
  entries : list (CacheKey * (Z * datetime));
  cache_up : bool
}.

(** [cache.get(key)] at instant [now] *)
Definition cache_get (c : Cache) (k : CacheKey) (now : datetime) : result (option Z) :=
  if cache_up c then
    Ok (match dget ck_eqb (entries c) k with
        | Some (v, exp) => if now <? exp then Some v else None
        | None => None
        end)
  else Raise.

(** [cache.add(key, value, timeout=timeout)] at instant [now] ([timeout] in
    seconds): stores only when no live entry exists, and says whether it did. *)
Definition cache_add (c : Cache) (k : CacheKey) (v timeout : Z) (now : datetime)
  : result (bool * Cache) :=
  if cache_up c then
    match cache_get c k now with
    | Ok (Some _) => Ok (false, c)
    | _ => Ok (true, mkCache (dset ck_eqb (entries c) k (v, now + timeout * usec_per_sec))
                             (cache_up c))
    end
  else Raise.

(** Python truthiness of a cached value ([None] or [0] is false). *)
Definition truthy (v : option Z) : bool :=
  match v with Some x => negb (x =? 0) | None => false end.

(** The cache and the task queue of [fetch_historical_data.delay]. *)
Record Broker := mkBroker {
  cache : Cache;
  jobs : list Z
}.

Definition TTL_SECONDS : Z := 60 * 10.

(** [request_backfill(asset_id, queued_ttl_seconds=...)] at instant [now]. *)
Definition request_backfill (asset_id queued_ttl_seconds : Z) (now : datetime) (b : Broker)
  : result (bool * Broker) :=
  match cache_add (cache b) (Queued asset_id) 1 queued_ttl_seconds now with
  | Raise => Raise
  | Ok (false, _) => Ok (false, b)
  | Ok (true, c') => Ok (true, mkBroker c' (jobs b ++ [asset_id]))
  end.

(** Timestamps of the rows of [Candle.objects.filter(asset_id=.., timeframe=..)]. *)
Definition candle_timestamps (st : Store) (asset_id : Z) (tf : Timeframe) : list datetime :=
  map (fun '((_, _, ts), _) => ts)
    (filter (fun '((a, tf', _), _) => (a =? asset_id) && tf_eqb tf' tf) (rows st)).

(** [.order_by("-timestamp").first()] and [.order_by("timestamp").first()] *)
Definition latest_ts (l : list datetime) : option datetime :=
  match l with [] => None | t :: r => Some (fold_left Z.max r t) end.

Definition earliest_ts (l : list datetime) : option datetime :=
  match l with [] => None | t :: r => Some (fold_left Z.min r t) end.

(** [BackfillGuard.is_historical_complete(asset_id, timeframe, bucket_ts)]
    against the cache, the table, and the clock [now]; [db_up = false] means
    the database raises on every query. *)
Definition is_historical_complete (c : Cache) (db_up : bool) (st : Store) (now : datetime)
    (asset_id : Z) (timeframe : Timeframe) (bucket_ts : datetime) : result bool :=
  let heuristic :=
    if negb db_up then Raise
    else
      match latest_ts (candle_timestamps st asset_id TF_1T) with
      | None => Ok false
      | Some _ =>
          let coverage_threshold := now - days 4 in
          match earliest_ts (candle_timestamps st asset_id TF_1T) with
          | None => Ok false
          | Some e =>
              if coverage_threshold <? e then Ok false
              else
                let historical_threshold := (now - now mod days 1) - days 1 in
                Ok (existsb (fun ts => ts <? historical_threshold)
                      (candle_timestamps st asset_id timeframe))
          end
      end in
  let completed :=
    match cache_get c (Completed asset_id) now with
    | Ok v => if truthy v then Ok true else heuristic
    | Raise => heuristic
    end in
  match cache_get c (Running asset_id) now with
  | Ok v => if truthy v then Ok false else completed
  | Raise => completed
  end.

(** How [is_historical_complete] reads a flag: [if cache.get(key):] with a
    raising read swallowed by [except Exception: pass]. *)
Definition flag_read (c : Cache) (k : CacheKey) (now : datetime) : bool :=
  match cache_get c k now with Ok v => truthy v | Raise => false end.

Record BackfillGuard := mkGuard {
  cooldown_secs : Z;
  gap_threshold_secs : Z;
  _last_request : list (Z * Z)
}.

Definition default_guard : BackfillGuard := mkGuard 900 300 [].

(** [BackfillGuard._maybe_schedule(asset_id, now_s)]; [wla_ids] lists the ids
    of the active [WatchListAsset] rows of active watchlists for an asset.
    Returns the guard and broker afterwards and the return value, or [Raise]
    (the [finally] has recorded the cooldown by then). *)
Definition _maybe_schedule (g : BackfillGuard) (wla_ids : Z -> list Z) (db_up : bool)
    (asset_id : Z) (now_s : Z) (b : Broker) : BackfillGuard * Broker * result bool :=
  let last_req := match dget Z.eqb (_last_request g) asset_id with
                  | Some t => t | None => 0 end in
  if cooldown_secs g * usec_per_sec <=? now_s - last_req then
    if negb db_up then (g, b, Raise)
    else
      match wla_ids asset_id with
      | [] => (g, b, Ok false)
      | _ =>
          let g' := mkGuard (cooldown_secs g) (gap_threshold_secs g)
                      (dset Z.eqb (_last_request g) asset_id now_s) in
          match request_backfill asset_id TTL_SECONDS now_s b with
          | Ok (_, b') => (g', b', Ok true)
          | Raise => (g', b, Raise)
          end
      end
  else (g, b, Ok false).

(** [scheduled.add(asset_id)] on a set *)
Definition set_add (s : list Z) (x : Z) : list Z := if in_Z x s then s else s ++ [x].

Definition add_if_true (r : result bool) (s : list Z) (x : Z) : list Z :=
  match r with Ok true => set_add s x | _ => s end.

(** The loop of [maybe_schedule_for_assets]; [now_s] is [time.time()],
    [now_dt] is [timezone.now()]; an exception skips the asset. *)
Fixpoint schedule_loop (wla_ids : Z -> list Z) (db_up : bool) (st : Store)
    (now_s now_dt : Z) (asset_ids : list Z) (g : BackfillGuard) (b : Broker)
    (scheduled : list Z) : BackfillGuard * Broker * list Z :=
  match asset_ids with
  | [] => (g, b, scheduled)
  | asset_id :: r =>
      if negb db_up then schedule_loop wla_ids db_up st now_s now_dt r g b scheduled
      else
        match latest_ts (candle_timestamps st asset_id TF_1T) with
        | None =>
            let '(g', b', res) := _maybe_schedule g wla_ids db_up asset_id now_s b in
            schedule_loop wla_ids db_up st now_s now_dt r g' b' (add_if_true res scheduled asset_id)
        | Some latest =>
            let age := now_dt - latest in
            if gap_threshold_secs g * usec_per_sec <? age then
              let '(g', b', res) := _maybe_schedule g wla_ids db_up asset_id now_s b in
              schedule_loop wla_ids db_up st now_s now_dt r g' b' (add_if_true res scheduled asset_id)
            else schedule_loop wla_ids db_up st now_s now_dt r g b scheduled
        end
  end.

(** [BackfillGuard.maybe_schedule_for_assets(asset_ids)] *)
Definition maybe_schedule_for_assets (g : BackfillGuard) (wla_ids : Z -> list Z)
    (db_up : bool) (st : Store) (now_s now_dt : Z) (asset_ids : list Z) (b : Broker)
  : BackfillGuard * Broker * list Z :=
  schedule_loop wla_ids db_up st now_s now_dt asset_ids g b [].

(* ------------------------------------------------------------------------- *)
(** ** Remaining code of the aggregator and its callers in [client.py] *)

(** [TimeframeAggregator.reset_for_asset(asset_id)]: for each timeframe,
    [keys_to_remove = [k for k in acc if k[0] == asset_id]], then
    [acc.pop(key, None)] for each of them. *)
Definition reset_acc (asset_id : Z) (acc : list (key * CandleData)) : list (key * CandleData) :=
  let keys_to_remove := map fst (filter (fun kv => fst (fst kv) =? asset_id) acc) in
  fold_left (fun acc k => dpop key_eqb acc k) keys_to_remove acc.

Definition reset_for_asset (agg : Aggregator) (asset_id : Z) : Aggregator :=
  with_tf_acc agg (map (fun tfa => (fst tfa, reset_acc asset_id (snd tfa))) (_tf_acc agg)).

(** [WebsocketClient._on_assets_added(symbols)]: [asset_cache] is the
    symbol-to-id cache of the subscription manager; the ids of the symbols
    it holds ([[asset_cache[s] for s in symbols if s in asset_cache]]) go to
    [maybe_schedule_for_assets], and the accumulators of each scheduled
    asset are reset.  ([maybe_schedule_for_assets] catches every exception
    itself, and [reset_for_asset] raises none.) *)
Definition _on_assets_added (asset_cache : list (string * Z)) (symbols : list string)
    (g : BackfillGuard) (wla_ids : Z -> list Z) (db_up : bool) (st : Store)
    (now_s now_dt : Z) (b : Broker) (agg : Aggregator)
  : BackfillGuard * Broker * list Z * Aggregator :=
  let asset_ids := flat_map (fun s => match dget String.eqb asset_cache s with
                                      | Some a => [a] | None => [] end) symbols in
  let '(g', b', scheduled) :=
    maybe_schedule_for_assets g wla_ids db_up st now_s now_dt asset_ids b in
  (g', b', scheduled, fold_left reset_for_asset scheduled agg).

(** [parse_tick_timestamp(ts_str)] (utils.py) after the ISO string has been
    read as the instant it denotes: [ts.replace(second=0, microsecond=0)]. *)
Definition parse_tick_timestamp (ts : datetime) : datetime := ts - ts mod usec_per_min.

(** A trade message of the batch ([m.get("T") == "t"]): [t_S] is
    [t.get("S")], [t_p] is [t.get("p")], [t_t] is [t.get("t")] read as an
    instant ([None] when missing or null), and [t_s] is the [s] key:
    [None] when absent, [Some v] when present ([v = None] for a JSON null). *)
Record TradeMsg := mkTrade {
  t_S : option string;
  t_p : option Z;
  t_s : option (option Z);
  t_t : option datetime
}.

(** The bounds [-float("inf")] and [float("inf")] of the [m1_map] default
    entry next to the prices. *)
Inductive ext := NegInf | PosInf | Fin (x : Z).

(** [max(c["high"], price)] and [min(c["low"], price)] for a number [price]. *)
Definition ext_max (a : ext) (p : Z) : ext :=
  match a with NegInf => Fin p | PosInf => PosInf | Fin x => Fin (Z.max x p) end.

Definition ext_min (a : ext) (p : Z) : ext :=
  match a with NegInf => NegInf | PosInf => Fin p | Fin x => Fin (Z.min x p) end.

(** An entry of the trade [m1_map] of [_process_batch]. *)
Record TradeBar := mkTB {
  tb_open : option Z;
  tb_high : ext;
  tb_low : ext;
  tb_close : option Z;
  tb_volume : Z
}.

(** The [defaultdict] factory: [{"open": None, "high": -inf, "low": inf,
    "close": None, "volume": 0}]. *)
Definition trade_default : TradeBar := mkTB None NegInf PosInf None 0.

(** The updates of [c = m1_map[key]] by one trade; [None] is the
    [TypeError] of [c["volume"] += vol] for a null volume. *)
Definition apply_trade (c : TradeBar) (price : Z) (vol : option Z) : option TradeBar :=
  let '(o, cl) := match tb_open c with
                  | None => (Some price, Some price)
                  | Some o => (Some o, tb_close c)
                  end in
  let h := ext_max (tb_high c) price in
  let l := ext_min (tb_low c) price in
  match vol with
  | None => None
  | Some v => Some (mkTB o h l (Some price) (tb_volume c + v))
  end.

(** [asset_class in {"us_equity", "us_option"}] for [id_to_class.get(aid)]. *)
Definition rth_class (asset_class : option string) : bool :=
  match asset_class with
  | Some c => String.eqb c "us_equity"%string || String.eqb c "us_option"%string
  | None => false
  end.

Section Trades.
(** [is_regular_trading_hours(ts)] (utils.py), a function of the instant. *)
Variable is_regular_trading_hours : datetime -> bool.

(** The loop [for t in trades] of [WebsocketClient._process_batch] with the
    batch snapshots [sym_to_id] and [id_to_class]: builds [m1_map] and
    [latest_ts]; [None] is a raised [TypeError]. *)
Fixpoint aggregate_trades (sym_to_id : list (string * Z)) (id_to_class : list (Z * string))
    (trades : list TradeMsg) (m1_map : list (key * TradeBar)) (latest_ts : option datetime)
  : option (list (key * TradeBar) * option datetime) :=
  match trades with
  | [] => Some (m1_map, latest_ts)
  | t :: r =>
      let aid := match t_S t with Some sym => dget String.eqb sym_to_id sym | None => None end in
      match aid with
      | None => aggregate_trades sym_to_id id_to_class r m1_map latest_ts
      | Some aid =>
          let vol := match t_s t with Some v => v | None => Some 0 end in
          match t_p t, t_t t with
          | Some price, Some ts_str =>
              let ts := parse_tick_timestamp ts_str in
              if rth_class (dget Z.eqb id_to_class aid) && negb (is_regular_trading_hours ts)
              then aggregate_trades sym_to_id id_to_class r m1_map latest_ts
              else
                let k := (aid, ts) in
                let c := match dget key_eqb m1_map k with Some c => c | None => trade_default end in
                match apply_trade c price vol with
                | None => None
                | Some c' =>
                    aggregate_trades sym_to_id id_to_class r (dset key_eqb m1_map k c')
                      (Some (match latest_ts with Some l => Z.max l ts | None => ts end))
                end
          | _, _ => aggregate_trades sym_to_id id_to_class r m1_map latest_ts
          end
      end
  end.
(** A bar message of the batch: [b.get("S")], [b.get("t")] (read as the
    instant it denotes), [b.get("o")] .. [b.get("c")], and [b.get("v", ..)]
    with [None] for a missing key. *)
Record BarMsg := mkBar {
  b_S : option string;
  b_t : option datetime;
  b_o : option Z;
  b_h : option Z;
  b_l : option Z;
  b_c : option Z;
  b_v : option (option Z)
}.

(** The loop [for b in bars] of [WebsocketClient._process_batch]: builds
    [bar_candles], each accepted bar written under its minute key. *)
Fixpoint collect_bars (sym_to_id : list (string * Z)) (id_to_class : list (Z * string))
    (bars : list BarMsg) (bar_candles : list (key * CandleData)) : list (key * CandleData) :=
  match bars with
  | [] => bar_candles
  | b :: r =>
      let aid := match b_S b with Some sym => dget String.eqb sym_to_id sym | None => None end in
      match aid with
      | None => collect_bars sym_to_id id_to_class r bar_candles
      | Some aid =>
          match b_t b with
          | None => collect_bars sym_to_id id_to_class r bar_candles
          | Some ts_str =>
              let ts := parse_tick_timestamp ts_str in
              if rth_class (dget Z.eqb id_to_class aid) && negb (is_regular_trading_hours ts)
              then collect_bars sym_to_id id_to_class r bar_candles
              else
                let data := mkData (Some (b_o b)) (Some (b_h b)) (Some (b_l b)) (Some (b_c b))
                              (Some (match b_v b with Some v => v | None => Some 0 end)) None in
                collect_bars sym_to_id id_to_class r (dset key_eqb bar_candles (aid, ts) data)
          end
      end
  end.
End Trades.


(* ------------------------------------------------------------------------- *)
(** ** Attaching minute ids to the accumulators ([_process_batch]) *)

(** [{}], an accumulator entry with no key set. *)
Definition empty_entry : CandleData := mkData None None None None None None.

(** The entry [d] with its ["minute_candle_ids"] slot set to [v]. *)
Definition with_minute_ids (d : CandleData) (v : option (option (list Z))) : CandleData :=
  mkData (d_open d) (d_high d) (d_low d) (d_close d) (d_volume d) v.

(** One pass of the inner loops for the minute key [(aid, m1_ts)]:
    [acc.setdefault(key, {})], [acc[key].setdefault("minute_candle_ids", [])]
    and the [append]; [None] is the [TypeError] of [mid not in None]. *)
Definition attach_minute_id (minute_ids_by_key : list (key * Z)) (delta : timedelta)
    (acc : list (key * CandleData)) (mk : key) : option (list (key * CandleData)) :=
  let '(aid, m1_ts) := mk in
  let bucket := floor_to_bucket m1_ts delta in
  let k := (aid, bucket) in
  let entry := match dget key_eqb acc k with Some e => e | None => empty_entry end in
  let '(entry1, ids_list) :=
    match d_minute_candle_ids entry with
    | Some v => (entry, v)
    | None => (with_minute_ids entry (Some (Some [])), Some [])
    end in
  match dget key_eqb minute_ids_by_key (aid, m1_ts) with
  | Some mid =>
      match ids_list with
      | None => None
      | Some l =>
          if in_Z mid l then Some (dset key_eqb acc k entry1)
          else Some (dset key_eqb acc k (with_minute_ids entry1 (Some (Some (l ++ [mid])))))
      end
  | None => Some (dset key_eqb acc k entry1)
  end.

(** The loops [for (aid, m1_ts), _ in m1_map.items()] and [for (aid, m1_ts),
    _ in bar_candles.items()] over one accumulator: [mks] is
    [list(m1_map) + list(bar_candles)]. *)
Fixpoint attach_keys (minute_ids_by_key : list (key * Z)) (delta : timedelta)
    (acc : list (key * CandleData)) (mks : list key) : option (list (key * CandleData)) :=
  match mks with
  | [] => Some acc
  | mk :: r =>
      match attach_minute_id minute_ids_by_key delta acc mk with
      | None => None
      | Some acc' => attach_keys minute_ids_by_key delta acc' r
      end
  end.

(** [for tf, delta in _const.TF_CFG.items()] (with [cfg] the config):
    [self.aggregator._tf_acc[tf]] raises [KeyError] when missing. *)
Fixpoint attach_minute_ids (cfg : list (Timeframe * timedelta)) (minute_ids_by_key : list (key * Z))
    (mks : list key) (accs : list (Timeframe * list (key * CandleData)))
  : option (list (Timeframe * list (key * CandleData))) :=
  match cfg with
  | [] => Some accs
  | (tf, delta) :: r =>
      if tf_eqb tf TF_1T then attach_minute_ids r minute_ids_by_key mks accs
      else
        match dget tf_eqb accs tf with
        | None => None
        | Some acc =>
            match attach_keys minute_ids_by_key delta acc mks with
            | None => None
            | Some acc' => attach_minute_ids r minute_ids_by_key mks (dset tf_eqb accs tf acc')
            end
        end
  end.


(* ------------------------------------------------------------------------- *)
(** ** subscriptions.py: [SubscriptionManager] *)

(** Membership in a Python set of symbols, kept as a list. *)
Definition smem (s : list string) (x : string) : bool := existsb (String.eqb x) s.

(** [a - b] on sets of symbols. *)
Definition set_diff (a b : list string) : list string := filter (fun x => negb (smem b x)) a.

(** A row of [Asset.objects.values("symbol", "id", "asset_class")]. *)
Record AssetRow := mkAsset {
  a_symbol : string;
  a_id : Z;
  a_class : string
}.

(** The runtime state of a [SubscriptionManager]. *)
Record SubscriptionManager := mkSubs {
  subscribed_symbols : list string;
  asset_cache : list (string * Z);
  asset_class_cache : list (Z * string)
}.

(** What the manager's callbacks are handed, in order: [send(action,
    symbols)] and [on_assets_added(symbols)]. *)
Inductive SubEvent :=
| Send (action : string) (symbols : list string)
| AssetsAdded (symbols : list string).

(** [SubscriptionManager.update_asset_cache(symbols)] over the [Asset]
    table [assets_db]. *)
Definition update_asset_cache (assets_db : list AssetRow) (symbols : list string)
    (m : SubscriptionManager) : SubscriptionManager * list SubEvent :=
  let assets := filter (fun a => smem symbols (a_symbol a)) assets_db in
  let new_mappings := fold_left (fun d a => dset String.eqb d (a_symbol a) (a_id a)) assets [] in
  let asset_cache' := fold_left (fun d kv => dset String.eqb d (fst kv) (snd kv))
                        new_mappings (asset_cache m) in
  let asset_class_cache' := fold_left (fun d a => dset Z.eqb d (a_id a) (a_class a))
                              assets (asset_class_cache m) in
  (mkSubs (subscribed_symbols m) asset_cache' asset_class_cache',
   match new_mappings with [] => [] | _ :: _ => [AssetsAdded (map fst new_mappings)] end).

(** [SubscriptionManager.reconcile()], with [current] the result of
    [get_watchlist_symbols()]. *)
Definition reconcile (assets_db : list AssetRow) (current : list string)
    (m : SubscriptionManager) : SubscriptionManager * list SubEvent :=
  let new := set_diff current (subscribed_symbols m) in
  let gone := set_diff (subscribed_symbols m) current in
  let '(m1, ev1) :=
    match new with
    | [] => (m, [])
    | _ :: _ =>
        let '(m', ev) := update_asset_cache assets_db new m in
        (mkSubs (subscribed_symbols m' ++ new) (asset_cache m') (asset_class_cache m'),
         ev ++ [Send "subscribe" new])
    end in
  let '(m2, ev2) :=
    match gone with
    | [] => (m1, [])
    | _ :: _ =>
        (mkSubs (set_diff (subscribed_symbols m1) gone) (asset_cache m1) (asset_class_cache m1),
         [Send "unsubscribe" gone])
    end in
  (m2, ev1 ++ ev2).

(** The grouping loop of [WebsocketClient._send_subscription]: [(stocks,
    crypto)]; [if aid:] drops a missing id and the id 0. *)
Fixpoint group_symbols (asset_cache : list (string * Z)) (asset_class_cache : list (Z * string))
    (symbols : list string) (stocks crypto : list string) : list string * list string :=
  match symbols with
  | [] => (stocks, crypto)
  | sym :: r =>
      match dget String.eqb asset_cache sym with
      | Some aid =>
          if negb (aid =? 0) then
            match dget Z.eqb asset_class_cache aid with
            | Some asset_class =>
                if String.eqb asset_class "crypto"
                then group_symbols asset_cache asset_class_cache r stocks (crypto ++ [sym])
                else group_symbols asset_cache asset_class_cache r (stocks ++ [sym]) crypto
            | None => group_symbols asset_cache asset_class_cache r (stocks ++ [sym]) crypto
            end
          else group_symbols asset_cache asset_class_cache r stocks crypto
      | None => group_symbols asset_cache asset_class_cache r stocks crypto
      end
  end.

(** A JSON payload sent on a socket. *)
Inductive WsSend :=
| StocksSend (action : string) (trades : list string)
| CryptoSend (action : string) (trades bars : list string).

(** [WebsocketClient._send_subscription(action, symbols)] followed by
    [_send_subscription_stocks] and [_send_subscription_crypto];
    [authenticated], [ready_stocks] and [ready_crypto] are the client's flags
    and socket checks.  A failing [send] is caught and logged, so the
    payload is the one attempted. *)
Definition _send_subscription (authenticated ready_stocks ready_crypto : bool)
    (m : SubscriptionManager) (action : string) (symbols : list string) : list WsSend :=
  match symbols with
  | [] => []
  | _ :: _ =>
      let '(stocks_symbols, crypto_symbols) :=
        group_symbols (asset_cache m) (asset_class_cache m) symbols [] [] in
      (if authenticated && ready_stocks && negb (match stocks_symbols with [] => true | _ => false end)
       then [StocksSend action stocks_symbols] else []) ++
      (if authenticated && ready_crypto && negb (match crypto_symbols with [] => true | _ => false end)
       then [CryptoSend action crypto_symbols crypto_symbols] else [])
  end.

(** ** The message handlers [on_message_stocks] and [on_message_crypto] *)

(** The ["msg"] field of a message: absent (read as [""]), a string, or some
    other JSON value (on which [.lower()] raises). *)
Inductive MsgText := NoText | Text (s : string) | OtherText.

(** An element of a decoded payload: a JSON object with its ["T"] field
    ([None] when absent or not a string) and its ["msg"] field, or another
    JSON value (on which [msg.get] raises). *)
Inductive WsItem := WsObj (T : option string) (text : MsgText) | WsOther.

(** [json.loads(raw)]: a list, a single value, or a [JSONDecodeError]. *)
Inductive Payload := PList (l : list WsItem) | POne (m : WsItem) | PBad.

(** What a message causes: [self.stop()], [self.authenticated = True]
    followed by [self._update_subscriptions()] (which catches its own
    errors), or [self.message_buffer.put(msg)]. *)
Inductive WsEvent := WsStop | WsAuthenticated | WsPut (m : WsItem).

(** [msg.get("T")] of a JSON object. *)
Definition get_T (m : WsItem) : option string :=
  match m with WsObj T _ => T | WsOther => None end.

(** [m.get("T") == t] *)
Definition T_is (t : string) (m : WsItem) : bool :=
  match get_T m with Some s => String.eqb s t | None => false end.

(** Python's [needle in hay] on strings. *)
Fixpoint str_contains (needle hay : string) : bool :=
  String.prefix needle hay ||
  match hay with EmptyString => false | String _ r => str_contains needle r end.

(** The tests [typ == "t"] of [on_message_stocks] and [typ in ("t", "b")]
    of [on_message_crypto]. *)
Definition stocks_buffered (typ : option string) : bool :=
  match typ with Some s => String.eqb s "t" | None => false end.

Definition crypto_buffered (typ : option string) : bool :=
  match typ with Some s => String.eqb s "t" || String.eqb s "b" | None => false end.

Section Handlers.
(** [str.lower] *)
Variable lower : string -> string.

(** [msg.get("msg", "").lower()]; [None] when it raises. *)
Definition lowered (t : MsgText) : option string :=
  match t with
  | NoText => Some (lower "")
  | Text s => Some (lower s)
  | OtherText => None
  end.

(** The body of [for msg in msgs] of the handlers; [None] when it raises. *)
Definition on_message_item (buffered : option string -> bool) (m : WsItem)
  : option (list WsEvent) :=
  match m with
  | WsOther => None
  | WsObj typ text =>
      if T_is "error" m then
        match lowered text with
        | Some s => Some (if str_contains "authentication" s then [WsStop] else [])
        | None => None
        end
      else if T_is "success" m then
        match lowered text with
        | Some s => Some (if str_contains "authenticated" s then [WsAuthenticated] else [])
        | None => None
        end
      else if T_is "subscription" m then Some []
      else if buffered typ then Some [WsPut m]
      else Some []
  end.

(** The loop [for msg in msgs]: an exception leaves it, and is caught and
    logged by the handler. *)
Fixpoint on_message_loop (buffered : option string -> bool) (msgs : list WsItem)
  : list WsEvent :=
  match msgs with
  | [] => []
  | m :: r =>
      match on_message_item buffered m with
      | Some ev => ev ++ on_message_loop buffered r
      | None => []
      end
  end.

(** A handler on the decoded payload; [if not isinstance(msgs, list): msgs =
    [msgs]]; a [JSONDecodeError] is logged. *)
Definition on_message (buffered : option string -> bool) (p : Payload) : list WsEvent :=
  match p with
  | PList l => on_message_loop buffered l
  | POne m => on_message_loop buffered [m]
  | PBad => []
  end.

Definition on_message_stocks (p : Payload) : list WsEvent := on_message stocks_buffered p.

Definition on_message_crypto (p : Payload) : list WsEvent := on_message crypto_buffered p.

End Handlers.

(** The first lines of [_process_batch]: [(trades, bars)]. *)
Definition batch_split (messages : list WsItem) : list WsItem * list WsItem :=
  (filter (T_is "t") messages, filter (T_is "b") messages).

(* ------------------------------------------------------------------------- *)
(** ** Specification predicates *)

(** [r] is the largest number among the non-[None] entries of [l], and
    [None] when [l] holds no number. *)
Definition is_max_present (l : list (option Z)) (r : option Z) : Prop :=
  (forall x, In (Some x) l -> exists m, r = Some m /\ x <= m) /\
  (forall m, r = Some m -> In (Some m) l).

(** [r] is the smallest number among the non-[None] entries of [l]. *)
Definition is_min_present (l : list (option Z)) (r : option Z) : Prop :=
  (forall x, In (Some x) l -> exists m, r = Some m /\ m <= x) /\
  (forall m, r = Some m -> In (Some m) l).

(** Merging a sequence of 1-minute bars into an accumulator entry, one merge
    after the other ([None] once a merge raises). *)
Definition merge_acc_all (c : CandleData) (ds : list M1Bar) : option CandleData :=
  fold_left (fun oc d => match oc with Some c => merge_acc_entry c d | None => None end)
    ds (Some c).

(** Running a sequence of [save_candles] calls [(snapshot, updates)] on one
    timeframe. *)
Definition save_all (tf : Timeframe) (writes : list (bool * list (key * CandleData)))
    (st : Store) : Store :=
  fold_left (fun st w => save_candles tf (snd w) (fst w) st) writes st.

(** The high and low a write brings for key [k] ([None] when the write does
    not carry the key, or carries no value). *)
Definition write_high (k : key) (w : bool * list (key * CandleData)) : option Z :=
  match dget key_eqb (snd w) k with Some d => get (d_high d) | None => None end.

Definition write_low (k : key) (w : bool * list (key * CandleData)) : option Z :=
  match dget key_eqb (snd w) k with Some d => get (d_low d) | None => None end.

(** The writes of a sequence of [save_candles] calls whose transaction
    commits, each judged on the table it meets; a call that rolls back
    merges nothing. *)
Fixpoint committed_writes (tf : Timeframe) (writes : list (bool * list (key * CandleData)))
    (st : Store) : list (bool * list (key * CandleData)) :=
  match writes with
  | [] => []
  | w :: r =>
      (if save_candles_commits tf (snd w) (fst w) st then [w] else []) ++
      committed_writes tf r (save_candles tf (snd w) (fst w) st)
  end.

(** The volume a write brings for key [k] ([None] or absent counts 0), and
    whether it carries the key at all. *)
Definition write_volume (k : key) (w : bool * list (key * CandleData)) : Z :=
  match dget key_eqb (snd w) k with Some d => or0 (get (d_volume d)) | None => 0 end.

Definition write_carries (k : key) (w : bool * list (key * CandleData)) : bool :=
  match dget key_eqb (snd w) k with Some _ => true | None => false end.

(** A candle dict holding numbers for open, high, low and close. *)
Definition data_complete (d : CandleData) : bool :=
  match get (d_open d), get (d_high d), get (d_low d), get (d_close d) with
  | Some _, Some _, Some _, Some _ => true
  | _, _, _, _ => false
  end.

(** When [maybe_schedule_for_assets] should request a backfill for asset [a]
    (guard [g] as it was on entry): its 1-minute data is missing or stale,
    the per-asset cooldown has elapsed, and it has an active watchlist
    entry. *)
Definition needs_backfill (g : BackfillGuard) (wla_ids : Z -> list Z) (st : Store)
    (now_s now_dt : Z) (a : Z) : bool :=
  match latest_ts (candle_timestamps st a TF_1T) with
  | None => true
  | Some latest => gap_threshold_secs g * usec_per_sec <? now_dt - latest
  end &&
  (cooldown_secs g * usec_per_sec <=?
     now_s - match dget Z.eqb (_last_request g) a with Some t => t | None => 0 end) &&
  match wla_ids a with [] => false | _ => true end.

(** The trades of a batch that the loop of [_process_batch] folds into
    [m1_map]: known symbol, price and timestamp present, and not an
    after-hours tick of a [us_equity]/[us_option] asset; each with its key
    [(aid, minute)], its price and its volume [t.get("s", 0)] ([None] for a
    JSON null). *)
Definition accepted_trade (is_rth : datetime -> bool) (sym_to_id : list (string * Z))
    (id_to_class : list (Z * string)) (t : TradeMsg) : option (key * Z * option Z) :=
  match (match t_S t with Some sym => dget String.eqb sym_to_id sym | None => None end) with
  | None => None
  | Some aid =>
      match t_p t, t_t t with
      | Some price, Some ts_str =>
          let ts := parse_tick_timestamp ts_str in
          if rth_class (dget Z.eqb id_to_class aid) && negb (is_rth ts) then None
          else Some ((aid, ts), price, match t_s t with Some v => v | None => Some 0 end)
      | _, _ => None
      end
  end.

Definition accepted_trades (is_rth : datetime -> bool) (sym_to_id : list (string * Z))
    (id_to_class : list (Z * string)) (trades : list TradeMsg) : list (key * Z * option Z) :=
  flat_map (fun t => match accepted_trade is_rth sym_to_id id_to_class t with
                     | Some x => [x] | None => [] end) trades.

(** The prices and volumes, in arrival order, of the accepted trades of key [k]. *)
Definition key_trades (k : key) (items : list (key * Z * option Z)) : list (Z * option Z) :=
  flat_map (fun x => if key_eqb (fst (fst x)) k then [(snd (fst x), snd x)] else []) items.

(** The OHLCV bar of a non-empty sequence of trades: first price, largest,
    smallest, last price, total volume. *)
Definition trade_summary (ps : list (Z * option Z)) : option TradeBar :=
  match ps with
  | [] => None
  | (p0, _) :: r =>
      Some (mkTB (Some p0) (Fin (fold_left Z.max (map fst r) p0))
              (Fin (fold_left Z.min (map fst r) p0)) (Some (last (map fst ps) p0))
              (fold_left (fun s pv => s + or0 (snd pv)) ps 0))
  end.

(** The volume held by the accumulator of [tf] for key [k] ([0] when there is
    no entry; a [None] volume counts as [0]). *)
Definition acc_volume (accs : list (Timeframe * list (key * CandleData))) (tf : Timeframe)
    (k : key) : Z :=
  match dget tf_eqb accs tf with
  | Some acc => match dget key_eqb acc k with Some d => or0 (get (d_volume d)) | None => 0 end
  | None => 0
  end.

(** The total volume of the minute bars of [m1_map] that fall into the
    bucket [k] of a [delta]-long timeframe. *)
Definition bucket_volume (delta : timedelta) (m1_map : list (key * M1Bar)) (k : key) : Z :=
  fold_right (fun kd s =>
                (if key_eqb (fst (fst kd), floor_to_bucket (snd (fst kd)) delta) k
                 then or0 (m_volume (snd kd)) else 0) + s) 0 m1_map.

(** [touched.get(tf, set())] *)
Definition touched_of (touched : list (Timeframe * list key)) (tf : Timeframe) : list key :=
  match dget tf_eqb touched tf with Some ks => ks | None => [] end.

(** Every key touched for a timeframe has an entry in its accumulator. *)
Definition touched_present (accs : list (Timeframe * list (key * CandleData)))
    (t : list (Timeframe * list key)) : Prop :=
  forall tf k, In k (touched_of t tf) ->
  exists acc, dget tf_eqb accs tf = Some acc /\ dget key_eqb acc k <> None.


(** The asset id the cache keeps for [sym] after a query of [assets_db]:
    that of the last row with this symbol. *)
Definition last_id (assets_db : list AssetRow) (sym : string) : option Z :=
  fold_left (fun o a => if String.eqb (a_symbol a) sym then Some (a_id a) else o) assets_db None.

(** The asset class of the last row of [assets_db] with id [i] whose symbol is
    one of [symbols]. *)
Definition last_class (assets_db : list AssetRow) (symbols : list string) (i : Z)
  : option string :=
  fold_left (fun o a => if smem symbols (a_symbol a) && (a_id a =? i) then Some (a_class a) else o)
    assets_db None.

(** Where [_send_subscription] routes [sym]: [Some true] the crypto socket,
    [Some false] the stocks socket, [None] nowhere. *)
Definition route_of (asset_cache : list (string * Z)) (asset_class_cache : list (Z * string))
    (sym : string) : option bool :=
  match dget String.eqb asset_cache sym with
  | Some aid =>
      if aid =? 0 then None
      else Some (match dget Z.eqb asset_class_cache aid with
                 | Some c => String.eqb c "crypto"
                 | None => false
                 end)
  | None => None
  end.

(** One [send] call for a non-empty set of symbols. *)
Definition sends_of (action : string) (syms : list string) : list SubEvent :=
  match syms with [] => [] | _ :: _ => [Send action syms] end.

(** The minute key and the row a bar message contributes, if it is accepted. *)
Definition accepted_bar (is_rth : datetime -> bool) (sym_to_id : list (string * Z))
    (id_to_class : list (Z * string)) (b : BarMsg) : option (key * CandleData) :=
  match (match b_S b with Some sym => dget String.eqb sym_to_id sym | None => None end) with
  | None => None
  | Some aid =>
      match b_t b with
      | None => None
      | Some ts_str =>
          let ts := parse_tick_timestamp ts_str in
          if rth_class (dget Z.eqb id_to_class aid) && negb (is_rth ts) then None
          else Some ((aid, ts), mkData (Some (b_o b)) (Some (b_h b)) (Some (b_l b)) (Some (b_c b))
                                  (Some (match b_v b with Some v => v | None => Some 0 end)) None)
      end
  end.

(** The value of the last entry of [l] with key [k]. *)
Definition last_for {V : Type} (k : key) (l : list (key * V)) : option V :=
  fold_left (fun o kv => if key_eqb (fst kv) k then Some (snd kv) else o) l None.


(** The ["minute_candle_ids"] slot of an accumulator entry is unset or a list
    without repetitions. *)
Definition mids_ok (e : CandleData) : Prop :=
  match d_minute_candle_ids e with
  | None => True
  | Some None => False
  | Some (Some l) => NoDup l
  end.

Definition acc_mids_ok (acc : list (key * CandleData)) : Prop :=
  forall k e, dget key_eqb acc k = Some e -> mids_ok e.

Definition accs_mids_ok (accs : list (Timeframe * list (key * CandleData))) : Prop :=
  forall tf acc, dget tf_eqb accs tf = Some acc -> acc_mids_ok acc.

(** Two entries agree on open, high, low, close and volume. *)
Definition same_ohlcv (e e' : CandleData) : Prop :=
  d_open e' = d_open e /\ d_high e' = d_high e /\ d_low e' = d_low e /\
  d_close e' = d_close e /\ d_volume e' = d_volume e.

(** [e'] has a minute-id list that contains the one of [e], if any. *)
Definition mids_grow (e e' : CandleData) : Prop :=
  forall l0, d_minute_candle_ids e = Some (Some l0) ->
  exists l, d_minute_candle_ids e' = Some (Some l) /\ incl l0 l.

(** The bucket key of the minute key [mk] for a [delta]-long timeframe. *)
Definition bucket_key (delta : timedelta) (mk : key) : key :=
  (fst mk, floor_to_bucket (snd mk) delta).

(** The messages a handler puts into the buffer. *)
Definition puts (evs : list WsEvent) : list WsItem :=
  flat_map (fun e => match e with WsPut m => [m] | _ => [] end) evs.

(** The elements of a decoded payload. *)
Definition payload_items (p : Payload) : list WsItem :=
  match p with PList l => l | POne m => [m] | PBad => [] end.

(** An element on which the loop body raises: not a JSON object, or an
    ["error"] or ["success"] message whose ["msg"] is not a string. *)
Definition item_raises (m : WsItem) : bool :=
  match m with
  | WsOther => true
  | WsObj _ OtherText => T_is "error" m || T_is "success" m
  | WsObj _ _ => false
  end.

(** The elements before the first one that raises. *)
Fixpoint handled_prefix (l : list WsItem) : list WsItem :=
  match l with
  | [] => []
  | m :: r => if item_raises m then [] else m :: handled_prefix r
  end.

(** The ["msg"] text of an element, [""] when absent. *)
Definition text_of (m : WsItem) : string :=
  match m with WsObj _ (Text s) => s | _ => EmptyString end.

(* ========================================================================= *)
(** * Properties *)

(** ** Dict lemmas *)

Section DictFacts.
Context {K V : Type} (eqk : K -> K -> bool).
Hypothesis eqk_spec : forall a b, eqk a b = true <-> a = b.

Lemma eqk_refl (k : K) : eqk k k = true.
Proof. apply eqk_spec; reflexivity. Qed.

Lemma eqk_false (a b : K) : a <> b -> eqk a b = false.
Proof.
  intros Hne. destruct (eqk a b) eqn:E; [|reflexivity].
  exfalso; apply Hne, eqk_spec, E.
Qed.

Lemma dget_dset_eq (m : list (K * V)) (k : K) (v : V) :
  dget eqk (dset eqk m k v) k = Some v.
Proof.
  induction m as [|[k' v'] r IH]; simpl.
  - rewrite eqk_refl; reflexivity.
  - destruct (eqk k k') eqn:E; simpl; rewrite E; [reflexivity | exact IH].
Qed.

Lemma dget_dset_neq (m : list (K * V)) (k k' : K) (v : V) :
  k <> k' -> dget eqk (dset eqk m k v) k' = dget eqk m k'.
Proof.
  intros Hne. induction m as [|[k0 v0] r IH]; simpl.
  - rewrite (eqk_false k' k) by congruence; reflexivity.
  - destruct (eqk k k0) eqn:E; simpl.
    + apply eqk_spec in E; subst k0.
      rewrite (eqk_false k' k) by congruence; reflexivity.
    + destruct (eqk k' k0); [reflexivity | exact IH].
Qed.

Lemma dget_dpop_eq (m : list (K * V)) (k : K) :
  NoDup (map fst m) -> dget eqk (dpop eqk m k) k = None.
Proof.
  induction m as [|[k0 v0] r IH]; simpl; intros Hnd; [reflexivity|].
  inversion Hnd as [|? ? Hnotin Hnd']; subst.
  destruct (eqk k k0) eqn:E; simpl.
  - apply eqk_spec in E; subst k0.
    clear IH Hnd Hnd'. induction r as [|[k1 v1] r IHr]; simpl; [reflexivity|].
    simpl in Hnotin. rewrite (eqk_false k k1) by (intro; subst; tauto). apply IHr; tauto.
  - rewrite E. apply IH, Hnd'.
Qed.

Lemma dget_dpop_neq (m : list (K * V)) (k k' : K) :
  k <> k' -> dget eqk (dpop eqk m k) k' = dget eqk m k'.
Proof.
  intros Hne. induction m as [|[k0 v0] r IH]; simpl; [reflexivity|].
  destruct (eqk k k0) eqn:E; simpl.
  - apply eqk_spec in E; subst k0. rewrite (eqk_false k' k) by congruence. reflexivity.
  - destruct (eqk k' k0); [reflexivity | exact IH].
Qed.

Lemma dget_In (m : list (K * V)) (k : K) (v : V) :
  dget eqk m k = Some v -> In (k, v) m.
Proof.
  induction m as [|[k0 v0] r IH]; simpl; [discriminate|].
  destruct (eqk k k0) eqn:E.
  - intros H; inversion H; subst. apply eqk_spec in E; subst. left; reflexivity.
  - intros H; right; exact (IH H).
Qed.

Lemma dget_None_notin (m : list (K * V)) (k : K) :
  dget eqk m k = None <-> ~ In k (map fst m).
Proof.
  induction m as [|[k0 v0] r IH]; simpl; [tauto|].
  destruct (eqk k k0) eqn:E.
  - apply eqk_spec in E; subst. split; [discriminate | tauto].
  - rewrite IH. split; [|tauto]. intros H [H0|H0]; [|tauto].
    subst; rewrite eqk_refl in E; discriminate.
Qed.
End DictFacts.

Lemma key_eqb_spec (a b : key) : key_eqb a b = true <-> a = b.
Proof.
  destruct a as [a1 a2], b as [b1 b2]; unfold key_eqb; simpl.
  rewrite andb_true_iff, !Z.eqb_eq. split; [intros [-> ->]; reflexivity | intros H; inversion H; auto].
Qed.

Lemma tf_eqb_spec (a b : Timeframe) : tf_eqb a b = true <-> a = b.
Proof. destruct a, b; simpl; split; congruence. Qed.

Lemma tkey_eqb_spec (a b : tkey) : tkey_eqb a b = true <-> a = b.
Proof.
  destruct a as [[a1 a2] a3], b as [[b1 b2] b3]; simpl.
  rewrite !andb_true_iff, !Z.eqb_eq, tf_eqb_spec.
  split; [intros [[-> ->] ->]; reflexivity | intros H; inversion H; auto].
Qed.

Lemma ck_eqb_spec (a b : CacheKey) : ck_eqb a b = true <-> a = b.
Proof. destruct a, b; simpl; rewrite ?Z.eqb_eq; split; congruence. Qed.

Lemma Z_eqb_spec' (a b : Z) : Z.eqb a b = true <-> a = b.
Proof. apply Z.eqb_eq. Qed.

Lemma in_Z_In (x : Z) (l : list Z) : in_Z x l = true <-> In x l.
Proof.
  unfold in_Z. rewrite existsb_exists. split.
  - intros [y [Hy E]]. apply Z.eqb_eq in E; subst; exact Hy.
  - intros H; exists x; split; [exact H | apply Z.eqb_refl].
Qed.

(* ------------------------------------------------------------------------- *)
(** ** C8: bucket flooring *)

(** C8 (counterexample).  The spec asks [floorToBucket] to align every
    sub-day bucket to the 09:30 market open; on 2023-10-30 09:30 New York time
    is 13:30 UTC (the spec's own figure is 14:30 UTC).  For the 1-hour
    duration, the input of the repository's own test, the code returns
    14:00 UTC, which is aligned to neither anchor. *)
Lemma floor_to_bucket_not_market_anchored :
  floor_to_bucket (utc 2023 10 30 14 45 30) (hours 1) = utc 2023 10 30 14 0 0 /\
  floor_to_bucket (utc 2023 10 30 14 45 30) (hours 1)
    <> anchored_floor (utc 2023 10 30 13 30 0) (hours 1) (utc 2023 10 30 14 45 30) /\
  floor_to_bucket (utc 2023 10 30 14 45 30) (hours 1)
    <> anchored_floor (utc 2023 10 30 14 30 0) (hours 1) (utc 2023 10 30 14 45 30).
Proof. vm_compute. split; [reflexivity | split; discriminate]. Qed.

(** C8 (amended).  [floor_to_bucket] is a pure function of its two arguments.
    For a duration of [m >= 1] whole minutes it returns the epoch-aligned UTC
    bucket start: a multiple of the duration counted from the Unix epoch, at
    most [ts] and within one duration of it (no market-open anchor, for any
    duration); for a duration under one minute it truncates [ts] to the
    minute; and [floorToBucket(2023-10-30T14:32:45Z, 5 min) = 14:30:00Z]. *)
Theorem floor_to_bucket_epoch_aligned (ts : datetime) (m : Z) (Hm : 0 < m) :
  (floor_to_bucket ts (minutes m) mod minutes m = 0 /\
   floor_to_bucket ts (minutes m) <= ts < floor_to_bucket ts (minutes m) + minutes m) /\
  (forall d, d < usec_per_min -> floor_to_bucket ts d = ts - ts mod usec_per_min) /\
  floor_to_bucket (utc 2023 10 30 14 32 45) (minutes 5) = utc 2023 10 30 14 30 0.
Proof.
  assert (HU : 0 < usec_per_min) by (unfold usec_per_min, usec_per_sec; lia).
  split; [|split].
  - unfold floor_to_bucket, minutes.
    rewrite Z.div_mul by lia.
    destruct (m <=? 0) eqn:E; [apply Z.leb_le in E; lia|].
    set (T := ts / usec_per_min).
    split.
    + replace (T / m * m * usec_per_min) with (T / m * (m * usec_per_min)) by ring.
      apply Z.mod_mul; lia.
    + pose proof (Z.div_mod ts usec_per_min ltac:(lia)) as D1.
      pose proof (Z.mod_pos_bound ts usec_per_min HU) as B1.
      pose proof (Z.div_mod T m ltac:(lia)) as D2.
      pose proof (Z.mod_pos_bound T m Hm) as B2.
      fold T in D1. nia.
  - intros d Hd. unfold floor_to_bucket.
    assert (d / usec_per_min <= 0).
    { assert (d / usec_per_min < 1) by (apply Z.div_lt_upper_bound; lia). lia. }
    destruct (d / usec_per_min <=? 0) eqn:E; [reflexivity | apply Z.leb_gt in E; lia].
  - vm_compute. reflexivity.
Qed.

(** Witness: the theorem at [ts = 2023-10-30T14:45:30Z], one hour. *)
Lemma floor_to_bucket_epoch_aligned_witness :
  0 < 60 /\ floor_to_bucket (utc 2023 10 30 14 45 30) (minutes 60) mod minutes 60 = 0.
Proof.
  split; [lia|].
  exact (proj1 (proj1 (floor_to_bucket_epoch_aligned (utc 2023 10 30 14 45 30) 60 ltac:(lia)))).
Defined.

(* ------------------------------------------------------------------------- *)
(** ** C4: idempotent backfill requests *)

(** C4.  If the "queued" flag of [asset_id] is not live at [t1] and the
    second call comes at [t2] while the flag set by the first is still live,
    the first call sets the flag, enqueues the job and returns [true], the
    second returns [false] and enqueues nothing: exactly one job in all. *)
Theorem request_backfill_idempotent (asset_id : Z) (t1 t2 : datetime) (b : Broker)
    (Hup : cache_up (cache b) = true)
    (Hfree : cache_get (cache b) (Queued asset_id) t1 = Ok None)
    (Hlive : t2 < t1 + TTL_SECONDS * usec_per_sec) :
  exists b1 b2,
    request_backfill asset_id TTL_SECONDS t1 b = Ok (true, b1) /\
    request_backfill asset_id TTL_SECONDS t2 b1 = Ok (false, b2) /\
    cache_get (cache b1) (Queued asset_id) t2 = Ok (Some 1) /\
    jobs b2 = jobs b ++ [asset_id].
Proof.
  set (c1 := mkCache (dset ck_eqb (entries (cache b)) (Queued asset_id)
                        (1, t1 + TTL_SECONDS * usec_per_sec)) true).
  assert (Hget : cache_get c1 (Queued asset_id) t2 = Ok (Some 1)).
  { unfold cache_get, c1; cbn [entries cache_up].
    rewrite (dget_dset_eq ck_eqb ck_eqb_spec).
    apply Z.ltb_lt in Hlive. rewrite Hlive. reflexivity. }
  exists (mkBroker c1 (jobs b ++ [asset_id])), (mkBroker c1 (jobs b ++ [asset_id])).
  unfold request_backfill at 1, cache_add. rewrite Hup, Hfree.
  split; [reflexivity|]. split; [|split; [exact Hget | reflexivity]].
  unfold request_backfill, cache_add; cbn [cache]. replace (cache_up c1) with true by reflexivity.
  rewrite Hget. reflexivity.
Qed.

(** Witness: an empty cache, asset 7, the two calls one second apart. *)
Lemma request_backfill_idempotent_witness :
  exists b1 b2,
    request_backfill 7 TTL_SECONDS 0 (mkBroker (mkCache [] true) []) = Ok (true, b1) /\
    request_backfill 7 TTL_SECONDS usec_per_sec b1 = Ok (false, b2) /\
    cache_get (cache b1) (Queued 7) usec_per_sec = Ok (Some 1) /\
    jobs b2 = [] ++ [7].
Proof.
  apply (request_backfill_idempotent 7 0 usec_per_sec (mkBroker (mkCache [] true) []));
    reflexivity.
Defined.

(* ------------------------------------------------------------------------- *)
(** ** C3: the three tiers of [is_historical_complete] *)

Lemma fold_left_min_le (r : list Z) (t x : Z) :
  fold_left Z.min r t <= x <-> existsb (fun y => y <=? x) (t :: r) = true.
Proof.
  revert t; induction r as [|y r IH]; intros t; simpl.
  - rewrite orb_false_r, Z.leb_le. tauto.
  - rewrite IH. simpl. rewrite !orb_true_iff, !Z.leb_le.
    pose proof (Z.min_spec t y).
    destruct (existsb (fun y0 => y0 <=? x) r); [tauto|].
    split; [intros [H1|H1]; [lia|discriminate]
           |intros [H1|[H1|H1]]; [left; lia|left; lia|discriminate]].
Qed.

Lemma earliest_ts_le (l : list Z) (x : Z) :
  match earliest_ts l with
  | None => l = []
  | Some e => (e <=? x) = existsb (fun y => y <=? x) l
  end.
Proof.
  destruct l as [|t r]; simpl; [reflexivity|].
  destruct (fold_left Z.min r t <=? x) eqn:E.
  - apply Z.leb_le, fold_left_min_le in E. simpl in E. rewrite E. reflexivity.
  - apply Z.leb_gt in E. symmetry. apply not_true_is_false. intros H.
    change ((t <=? x) || existsb (fun y => y <=? x) r) with
      (existsb (fun y => y <=? x) (t :: r)) in H.
    apply fold_left_min_le in H. lia.
Qed.

(** C3 (counterexample).  With both flags unset (an empty, working cache) and
    the database raising, [is_historical_complete] raises: the storage error
    of the heuristic reaches the caller instead of yielding [False]. *)
Lemma is_historical_complete_db_error_raises :
  is_historical_complete (mkCache [] true) false (mkStore [] 1) 0 1 TF_5T 0 = Raise.
Proof. reflexivity. Qed.

(** C3 (amended).  The tiers are checked in order: a set "running" flag gives
    [False], even with "completed" set; otherwise a set "completed" flag gives
    [True]; otherwise the heuristic decides: [True] iff some 1T row of the asset
    is at least 4 days old and some row of the timeframe is older than
    yesterday's UTC midnight.  A cache read that raises counts as an unset
    flag; a database error in the heuristic is raised to the caller. *)
Theorem is_historical_complete_tiers (c : Cache) (db_up : bool) (st : Store)
    (now : datetime) (asset_id : Z) (timeframe : Timeframe) (bucket_ts : datetime) :
  (flag_read c (Running asset_id) now = true ->
   is_historical_complete c db_up st now asset_id timeframe bucket_ts = Ok false) /\
  (flag_read c (Running asset_id) now = false ->
   flag_read c (Completed asset_id) now = true ->
   is_historical_complete c db_up st now asset_id timeframe bucket_ts = Ok true) /\
  (flag_read c (Running asset_id) now = false ->
   flag_read c (Completed asset_id) now = false ->
   is_historical_complete c db_up st now asset_id timeframe bucket_ts =
     if db_up then
       Ok (existsb (fun ts => ts <=? now - days 4) (candle_timestamps st asset_id TF_1T) &&
           existsb (fun ts => ts <? (now - now mod days 1) - days 1)
             (candle_timestamps st asset_id timeframe))
     else Raise).
Proof.
  unfold flag_read, is_historical_complete.
  destruct (cache_get c (Running asset_id) now) as [vr|];
  destruct (cache_get c (Completed asset_id) now) as [vc|];
  repeat split; intros;
  repeat match goal with
         | H : truthy ?v = _ |- _ => rewrite H
         | H : false = true |- _ => discriminate H
         end; try reflexivity.
  all: destruct db_up; [|reflexivity]; simpl.
  all: pose proof (earliest_ts_le (candle_timestamps st asset_id TF_1T) (now - days 4)) as He.
  all: destruct (candle_timestamps st asset_id TF_1T) as [|t r] eqn:Hl; [reflexivity|].
  all: simpl in He |- *; rewrite <- He.
  all: destruct (now - days 4 <? fold_left Z.min r t) eqn:E.
  all: try (apply Z.ltb_lt in E; replace (fold_left Z.min r t <=? now - days 4) with false
             by (symmetry; apply Z.leb_gt; lia); reflexivity).
  all: apply Z.ltb_ge in E; replace (fold_left Z.min r t <=? now - days 4) with true
             by (symmetry; apply Z.leb_le; lia); reflexivity.
Qed.

(** Witness: every tier at asset 1, with the "running" flag set, then only
    "completed", then neither and a working database. *)
Lemma is_historical_complete_tiers_witness :
  is_historical_complete (mkCache [(Running 1, (1, 10)); (Completed 1, (1, 10))] true)
    true (mkStore [] 1) 0 1 TF_5T 0 = Ok false /\
  is_historical_complete (mkCache [(Completed 1, (1, 10))] true)
    true (mkStore [] 1) 0 1 TF_5T 0 = Ok true /\
  is_historical_complete (mkCache [] true) true (mkStore [] 1) 0 1 TF_5T 0 = Ok false.
Proof.
  split; [|split].
  - apply (proj1 (is_historical_complete_tiers
             (mkCache [(Running 1, (1, 10)); (Completed 1, (1, 10))] true)
             true (mkStore [] 1) 0 1 TF_5T 0)); reflexivity.
  - apply (proj1 (proj2 (is_historical_complete_tiers
             (mkCache [(Completed 1, (1, 10))] true) true (mkStore [] 1) 0 1 TF_5T 0)));
      reflexivity.
  - rewrite (proj2 (proj2 (is_historical_complete_tiers
             (mkCache [] true) true (mkStore [] 1) 0 1 TF_5T 0))) by reflexivity.
    reflexivity.
Defined.

(* ------------------------------------------------------------------------- *)
(** ** [save_candles]: the row of one key after one call *)

Lemma query_rows_get (tf : Timeframe) (asset_ids minutes : list Z) (st : Store)
    (aid : Z) (ts : datetime) :
  dget key_eqb (query_rows tf asset_ids minutes st) (aid, ts) =
  if in_Z aid asset_ids && in_Z ts minutes
  then dget tkey_eqb (rows st) (aid, tf, ts) else None.
Proof.
  unfold query_rows. destruct st as [rs n]; cbn [rows].
  induction rs as [|[[[a tf'] t] c] r IH].
  - destruct (in_Z aid asset_ids && in_Z ts minutes); reflexivity.
  - cbn [filter]. cbn [dget].
    destruct (tkey_eqb (aid, tf, ts) (a, tf', t)) eqn:T.
    + apply tkey_eqb_spec in T. inversion T; subst a tf' t.
      rewrite (proj2 (tf_eqb_spec tf tf) eq_refl), andb_true_r.
      destruct (in_Z aid asset_ids && in_Z ts minutes) eqn:Q.
      * cbn [map dget]. unfold key_eqb; cbn [fst snd]. rewrite !Z.eqb_refl. reflexivity.
      * rewrite IH; reflexivity.
    + destruct (in_Z a asset_ids && in_Z t minutes && tf_eqb tf' tf) eqn:P.
      * cbn [map dget].
        destruct (key_eqb (aid, ts) (a, t)) eqn:K.
        -- exfalso. apply key_eqb_spec in K. inversion K; subst a t.
           apply andb_true_iff in P as [_ P]. apply tf_eqb_spec in P; subst tf'.
           rewrite (proj2 (tkey_eqb_spec _ _) eq_refl) in T. discriminate.
        -- rewrite IH. unfold key_eqb in *; cbn [fst snd] in *. rewrite K. reflexivity.
      * rewrite IH. reflexivity.
Qed.

Lemma plan_updates_keys (snapshot : bool) (existing : list (key * Candle))
    (ups : list (key * CandleData)) (k : key) :
  (In k (map fst (fst (plan_updates snapshot existing ups))) -> In k (map fst ups)) /\
  (In k (map fst (snd (plan_updates snapshot existing ups))) -> In k (map fst ups)).
Proof.
  induction ups as [|[k0 d0] r IH]; simpl; [tauto|].
  destruct (plan_updates snapshot existing r) as [tc tu]; simpl in *.
  destruct (dget key_eqb existing k0); simpl; intuition.
Qed.

Lemma plan_updates_get (snapshot : bool) (existing : list (key * Candle))
    (ups : list (key * CandleData)) (k : key) :
  NoDup (map fst ups) ->
  NoDup (map fst (snd (plan_updates snapshot existing ups))) /\
  dget key_eqb (fst (plan_updates snapshot existing ups)) k =
    match dget key_eqb ups k with
    | Some d => match dget key_eqb existing k with Some _ => None | None => Some d end
    | None => None
    end /\
  dget key_eqb (snd (plan_updates snapshot existing ups)) k =
    match dget key_eqb ups k with
    | Some d => match dget key_eqb existing k with
                | Some c => Some (merge_row snapshot c d) | None => None end
    | None => None
    end.
Proof.
  induction ups as [|[k0 d0] r IH]; simpl; intros Hnd; [repeat split; constructor|].
  inversion Hnd as [|? ? Hnotin Hnd']; subst.
  pose proof (plan_updates_keys snapshot existing r k0) as [Kc Ku].
  specialize (IH Hnd') as [IHnd [IHc IHu]].
  destruct (plan_updates snapshot existing r) as [tc tu]; simpl in *.
  destruct (key_eqb k k0) eqn:E.
  - apply key_eqb_spec in E; subst k0.
    assert (Hr : dget key_eqb r k = None) by (apply (dget_None_notin key_eqb key_eqb_spec); exact Hnotin).
    rewrite Hr in IHc, IHu.
    destruct (dget key_eqb existing k) eqn:Ex; simpl.
    + rewrite (proj2 (key_eqb_spec k k) eq_refl). repeat split; try assumption.
      constructor; [tauto | exact IHnd].
    + rewrite (proj2 (key_eqb_spec k k) eq_refl). repeat split; assumption.
  - destruct (dget key_eqb existing k0) eqn:Ex; simpl; rewrite E; repeat split; try assumption.
    constructor; [tauto | exact IHnd].
Qed.

Lemma bulk_create_get (tf : Timeframe) (tc : list (key * CandleData)) (st : Store)
    (aid : Z) (ts : datetime) :
  match dget tkey_eqb (rows st) (aid, tf, ts) with
  | Some c => dget tkey_eqb (rows (bulk_create tf tc st)) (aid, tf, ts) = Some c
  | None =>
      match dget key_eqb tc (aid, ts) with
      | None => dget tkey_eqb (rows (bulk_create tf tc st)) (aid, tf, ts) = None
      | Some d => exists i,
          dget tkey_eqb (rows (bulk_create tf tc st)) (aid, tf, ts) = Some (new_row i d)
      end
  end.
Proof.
  revert st; induction tc as [|[[a t] d0] r IH]; intros st; cbn [bulk_create dget].
  - destruct (dget tkey_eqb (rows st) (aid, tf, ts)); reflexivity.
  - unfold dmem. destruct (dget tkey_eqb (rows st) (a, tf, t)) eqn:Hat.
    + specialize (IH (mkStore (rows st) (next_id st + 1))). cbn [rows] in IH.
      destruct (dget tkey_eqb (rows st) (aid, tf, ts)) eqn:H0; [exact IH|].
      destruct (key_eqb (aid, ts) (a, t)) eqn:K; [|exact IH].
      apply key_eqb_spec in K; inversion K; subst. rewrite H0 in Hat; discriminate.
    + set (st' := mkStore (dset tkey_eqb (rows st) (a, tf, t) (new_row (next_id st) d0))
                          (next_id st + 1)).
      specialize (IH st').
      destruct (key_eqb (aid, ts) (a, t)) eqn:K.
      * apply key_eqb_spec in K; inversion K; subst a t. rewrite Hat.
        assert (E : dget tkey_eqb (rows st') (aid, tf, ts) = Some (new_row (next_id st) d0))
          by (apply (dget_dset_eq tkey_eqb tkey_eqb_spec)).
        rewrite E in IH. exists (next_id st). exact IH.
      * assert (Hne : (a, tf, t) <> (aid, tf, ts)).
        { intros E; inversion E; subst. rewrite (proj2 (key_eqb_spec _ _) eq_refl) in K.
          discriminate. }
        assert (E : dget tkey_eqb (rows st') (aid, tf, ts) = dget tkey_eqb (rows st) (aid, tf, ts))
          by (apply (dget_dset_neq tkey_eqb tkey_eqb_spec); exact Hne).
        rewrite E in IH. exact IH.
Qed.

Lemma bulk_update_get (tf : Timeframe) (tu : list (key * Candle)) (st : Store)
    (aid : Z) (ts : datetime) :
  NoDup (map fst tu) ->
  dget tkey_eqb (rows (bulk_update tf tu st)) (aid, tf, ts) =
  match dget key_eqb tu (aid, ts) with
  | Some c => Some c
  | None => dget tkey_eqb (rows st) (aid, tf, ts)
  end.
Proof.
  revert st; induction tu as [|[[a t] c0] r IH]; intros st Hnd; cbn [bulk_update dget];
    [reflexivity|].
  inversion Hnd as [|? ? Hnotin Hnd']; subst.
  rewrite (IH _ Hnd'); cbn [rows].
  destruct (key_eqb (aid, ts) (a, t)) eqn:K.
  - apply key_eqb_spec in K; inversion K; subst a t.
    rewrite (proj2 (dget_None_notin key_eqb key_eqb_spec r (aid, ts)) Hnotin).
    apply (dget_dset_eq tkey_eqb tkey_eqb_spec).
  - destruct (dget key_eqb r (aid, ts)); [reflexivity|].
    apply (dget_dset_neq tkey_eqb tkey_eqb_spec).
    intros E; inversion E; subst. rewrite (proj2 (key_eqb_spec _ _) eq_refl) in K.
    discriminate.
Qed.

(** A call whose transaction fails leaves every row as it was. *)
Lemma save_candles_rollback (tf : Timeframe) (ups : list (key * CandleData)) (snapshot : bool)
    (st : Store) :
  save_candles_commits tf ups snapshot st = false -> rows (save_candles tf ups snapshot st) = rows st.
Proof.
  unfold save_candles_commits, save_candles. destruct ups as [|u r]; [discriminate|].
  destruct (save_plan tf (u :: r) snapshot st) as [tc tu]. intros ->. reflexivity.
Qed.

(** One call of [save_candles] on the row [(aid, tf, ts)]: untouched when the
    batch has no entry for [(aid, ts)], merged when the row exists, created
    (with the primary key the database assigns) when it does not. *)
Lemma save_candles_get (tf : Timeframe) (ups : list (key * CandleData)) (snapshot : bool)
    (st : Store) (aid : Z) (ts : datetime) :
  NoDup (map fst ups) ->
  save_candles_commits tf ups snapshot st = true ->
  match dget key_eqb ups (aid, ts) with
  | None => dget tkey_eqb (rows (save_candles tf ups snapshot st)) (aid, tf, ts) =
            dget tkey_eqb (rows st) (aid, tf, ts)
  | Some d =>
      match dget tkey_eqb (rows st) (aid, tf, ts) with
      | Some c => dget tkey_eqb (rows (save_candles tf ups snapshot st)) (aid, tf, ts) =
                  Some (merge_row snapshot c d)
      | None => exists i,
          dget tkey_eqb (rows (save_candles tf ups snapshot st)) (aid, tf, ts) =
          Some (new_row i d)
      end
  end.
Proof.
  intros Hnd Hok. destruct ups as [|u r]; [reflexivity|].
  unfold save_candles, save_candles_commits, save_plan in *.
  set (existing := query_rows tf (map fst (map fst (u :: r))) (map snd (map fst (u :: r))) st) in *.
  pose proof (plan_updates_get snapshot existing (u :: r) (aid, ts) Hnd) as [Hndu [Hc Hu]].
  destruct (plan_updates snapshot existing (u :: r)) as [tc tu]; cbn [fst snd] in *.
  rewrite Hok.
  rewrite (bulk_update_get tf tu _ aid ts Hndu), Hu.
  pose proof (bulk_create_get tf tc st aid ts) as Hbc.
  assert (Hex : forall d, dget key_eqb (u :: r) (aid, ts) = Some d ->
            dget key_eqb existing (aid, ts) = dget tkey_eqb (rows st) (aid, tf, ts)).
  { intros d Hd. apply (dget_In key_eqb key_eqb_spec) in Hd.
    unfold existing. rewrite query_rows_get.
    replace (in_Z aid (map fst (map fst (u :: r)))) with true.
    2: { symmetry; apply in_Z_In. apply (in_map fst (map fst (u :: r)) (aid, ts)).
         apply (in_map fst (u :: r) ((aid, ts), d)); exact Hd. }
    replace (in_Z ts (map snd (map fst (u :: r)))) with true.
    2: { symmetry; apply in_Z_In. apply (in_map snd (map fst (u :: r)) (aid, ts)).
         apply (in_map fst (u :: r) ((aid, ts), d)); exact Hd. }
    reflexivity. }
  destruct (dget key_eqb (u :: r) (aid, ts)) as [d|] eqn:Hd.
  - rewrite (Hex d eq_refl) in *.
    destruct (dget tkey_eqb (rows st) (aid, tf, ts)) as [c|]; [reflexivity|].
    rewrite Hc in Hbc. exact Hbc.
  - rewrite Hc in Hbc.
    destruct (dget tkey_eqb (rows st) (aid, tf, ts)); exact Hbc.
Qed.

(* ------------------------------------------------------------------------- *)
(** ** C5: volume semantics of [save_candles] *)

Lemma save_all_app (tf : Timeframe) (w1 w2 : list (bool * list (key * CandleData)))
    (st : Store) :
  save_all tf (w1 ++ w2) st = save_all tf w2 (save_all tf w1 st).
Proof. unfold save_all. apply fold_left_app. Qed.

Lemma plan_updates_In (snapshot : bool) (existing : list (key * Candle))
    (ups : list (key * CandleData)) :
  (forall kd, In kd (fst (plan_updates snapshot existing ups)) -> In kd ups) /\
  (forall kc, In kc (snd (plan_updates snapshot existing ups)) ->
     exists c d, In (fst kc, d) ups /\ snd kc = merge_row snapshot c d).
Proof.
  induction ups as [|[k0 d0] r [IHc IHu]]; simpl; [split; intros _ []|].
  destruct (plan_updates snapshot existing r) as [tc tu]; simpl in *.
  destruct (dget key_eqb existing k0) as [c|]; simpl; split.
  - intros kd Hkd. right. apply IHc. exact Hkd.
  - intros kc [<-|Hkc].
    + exists c, d0. simpl. split; [left; reflexivity | reflexivity].
    + destruct (IHu kc Hkc) as (c1 & d1 & H1 & H2). exists c1, d1. split; [right; exact H1 | exact H2].
  - intros kd [<-|Hkd]; [left; reflexivity | right; apply IHc; exact Hkd].
  - intros kc Hkc. destruct (IHu kc Hkc) as (c1 & d1 & H1 & H2).
    exists c1, d1. split; [right; exact H1 | exact H2].
Qed.

Lemma data_complete_new_row (i : Z) (d : CandleData) :
  data_complete d = true -> not_null_ok (new_row i d) = true.
Proof.
  unfold data_complete, not_null_ok, new_row. cbn [open high low close volume].
  destruct (get (d_open d)), (get (d_high d)), (get (d_low d)), (get (d_close d));
    try discriminate; reflexivity.
Qed.

Lemma data_complete_merge_row (snapshot : bool) (c : Candle) (d : CandleData) :
  data_complete d = true -> not_null_ok (merge_row snapshot c d) = true.
Proof.
  unfold data_complete, not_null_ok, merge_row, get_or. cbn [open high low close volume].
  destruct (d_close d) as [cl|]; [|destruct (get (d_open d)), (get (d_high d)), (get (d_low d));
                                    discriminate].
  cbn [get]. destruct (get (d_open d)) as [o|], (get (d_high d)) as [h|],
    (get (d_low d)) as [l|], cl as [x|]; try discriminate.
  intros _. destruct (open c), (high c), (low c), snapshot; reflexivity.
Qed.

(** A call whose dicts all hold numbers for open, high, low and close
    commits, whatever the table holds. *)
Lemma complete_commits (tf : Timeframe) (ups : list (key * CandleData)) (snapshot : bool)
    (st : Store) :
  Forall (fun kd => data_complete (snd kd) = true) ups ->
  save_candles_commits tf ups snapshot st = true.
Proof.
  intros Hall. destruct ups as [|u r]; [reflexivity|].
  unfold save_candles_commits, save_plan.
  pose proof (plan_updates_In snapshot
                (query_rows tf (map fst (map fst (u :: r))) (map snd (map fst (u :: r))) st)
                (u :: r)) as [Hc Hu].
  destruct (plan_updates snapshot _ (u :: r)) as [tc tu]; cbn [fst snd] in *.
  rewrite Forall_forall in Hall. unfold plan_commits. apply andb_true_intro. split.
  - apply forallb_forall. intros kd Hkd. apply data_complete_new_row, Hall, Hc, Hkd.
  - apply forallb_forall. intros kc Hkc. destruct (Hu kc Hkc) as (c & d & Hin & ->).
    apply data_complete_merge_row. exact (Hall _ Hin).
Qed.

Lemma committed_writes_complete (tf : Timeframe) (writes : list (bool * list (key * CandleData))) :
  Forall (fun w => Forall (fun kd => data_complete (snd kd) = true) (snd w)) writes ->
  forall st, committed_writes tf writes st = writes.
Proof.
  induction writes as [|w r IH]; intros Hall st; [reflexivity|].
  inversion Hall as [|? ? Hw Hr]; subst. cbn [committed_writes].
  rewrite (complete_commits tf (snd w) (fst w) st Hw), (IH Hr). reflexivity.
Qed.

Lemma save_all_cons (tf : Timeframe) (w : bool * list (key * CandleData))
    (r : list (bool * list (key * CandleData))) (st : Store) :
  save_all tf (w :: r) st = save_all tf r (save_candles tf (snd w) (fst w) st).
Proof. reflexivity. Qed.

Lemma delta_writes_from_row (tf : Timeframe) (aid : Z) (ts : datetime)
    (writes : list (bool * list (key * CandleData))) :
  forall (st : Store) (c : Candle) (v : Z),
  dget tkey_eqb (rows st) (aid, tf, ts) = Some c ->
  volume c = Some v ->
  Forall (fun w => fst w = false /\ NoDup (map fst (snd w))) writes ->
  exists c', dget tkey_eqb (rows (save_all tf writes st)) (aid, tf, ts) = Some c' /\
    volume c' = Some (v + fold_right Z.add 0
                            (map (write_volume (aid, ts)) (committed_writes tf writes st))).
Proof.
  induction writes as [|w r IH]; intros st c v Hc Hv Hnd.
  - exists c; split; [exact Hc | rewrite Hv; simpl; f_equal; lia].
  - inversion Hnd as [|? ? [Hs0 Hnd1] Hndr]; subst.
    rewrite save_all_cons. cbn [committed_writes].
    destruct (save_candles_commits tf (snd w) (fst w) st) eqn:Hok.
    + pose proof (save_candles_get tf (snd w) (fst w) st aid ts Hnd1 Hok) as Hs.
      rewrite Hc in Hs. cbn [app map fold_right]. unfold write_volume at 1.
      destruct (dget key_eqb (snd w) (aid, ts)) as [d|].
      * destruct (IH _ _ (v + or0 (get (d_volume d))) Hs) as [c' [H1 H2]];
          [rewrite Hs0; simpl; rewrite Hv; reflexivity | exact Hndr |].
        exists c'; split; [exact H1 | rewrite H2; f_equal; lia].
      * destruct (IH _ _ v Hs Hv Hndr) as [c' [H1 H2]].
        exists c'; split; [exact H1 | rewrite H2; f_equal; lia].
    + assert (E : dget tkey_eqb (rows (save_candles tf (snd w) (fst w) st)) (aid, tf, ts) = Some c)
        by (rewrite (save_candles_rollback _ _ _ _ Hok); exact Hc).
      exact (IH _ _ _ E Hv Hndr).
Qed.

Lemma delta_writes_from_none (tf : Timeframe) (aid : Z) (ts : datetime)
    (writes : list (bool * list (key * CandleData))) :
  forall (st : Store),
  dget tkey_eqb (rows st) (aid, tf, ts) = None ->
  Forall (fun w => fst w = false /\ NoDup (map fst (snd w))) writes ->
  option_map volume (dget tkey_eqb (rows (save_all tf writes st)) (aid, tf, ts)) =
  if existsb (write_carries (aid, ts)) (committed_writes tf writes st)
  then Some (Some (fold_right Z.add 0 (map (write_volume (aid, ts)) (committed_writes tf writes st))))
  else None.
Proof.
  induction writes as [|w r IH]; intros st Hn Hnd; [simpl; rewrite Hn; reflexivity|].
  inversion Hnd as [|? ? [Hs0 Hnd1] Hndr]; subst.
  rewrite save_all_cons. cbn [committed_writes].
  destruct (save_candles_commits tf (snd w) (fst w) st) eqn:Hok.
  - pose proof (save_candles_get tf (snd w) (fst w) st aid ts Hnd1 Hok) as Hs.
    rewrite Hn in Hs. cbn [app existsb map fold_right].
    unfold write_carries at 1, write_volume at 1.
    destruct (dget key_eqb (snd w) (aid, ts)) as [d|].
    + destruct Hs as [i Hs].
      destruct (delta_writes_from_row tf aid ts r _ _ (or0 (get (d_volume d))) Hs eq_refl Hndr)
        as [c' [H1 H2]].
      rewrite H1. simpl. rewrite H2. reflexivity.
    + rewrite (IH _ Hs Hndr). cbn [orb]. reflexivity.
  - apply IH; [rewrite (save_candles_rollback _ _ _ _ Hok); exact Hn | exact Hndr].
Qed.

(** C5 (counterexample).  A row of asset 1 at [ts = 60 s] is created by a
    delta write of volume 5; a second delta write of volume 7 sets
    ["close": None], its [UPDATE] violates NOT NULL and rolls back, so the
    stored volume stays 5 instead of [5 + 7]. *)
Lemma save_candles_volume_rolled_back :
  option_map volume
    (dget tkey_eqb (rows (save_all TF_1T
       [(false, [((1, 60), mkData (Some (Some 1)) (Some (Some 2)) (Some (Some 1)) (Some (Some 2))
                                  (Some (Some 5)) None)]);
        (false, [((1, 60), mkData (Some (Some 1)) (Some (Some 2)) (Some (Some 1)) (Some None)
                                  (Some (Some 7)) None)])]
       (mkStore [] 1))) (1, TF_1T, 60)) = Some (Some 5) /\
  Some (Some 5) <> Some (Some (5 + 7)).
Proof.
  split; [vm_compute; reflexivity | discriminate].
Qed.

(** C5 (amended).  Delta writes: starting with no row for
    [(aid, tf, ts)], after a sequence of delta-mode [save_candles] calls the
    row exists exactly when some call that commits carries the key, and its
    volume is then the sum of the volumes the committing calls bring for the
    key ([None] or absent counts 0); a call that rolls back adds nothing.
    Snapshot write: a committing snapshot call carrying the key sets the
    stored volume to that write's volume, whatever was stored before.
    A call whose dicts all hold numbers for open, high, low and close always
    commits. *)
Theorem save_candles_volume_semantics (tf : Timeframe) (aid : Z) (ts : datetime) :
  (forall (writes : list (bool * list (key * CandleData))) (st : Store),
     dget tkey_eqb (rows st) (aid, tf, ts) = None ->
     Forall (fun w => fst w = false /\ NoDup (map fst (snd w))) writes ->
     option_map volume (dget tkey_eqb (rows (save_all tf writes st)) (aid, tf, ts)) =
     if existsb (write_carries (aid, ts)) (committed_writes tf writes st)
     then Some (Some (fold_right Z.add 0
                        (map (write_volume (aid, ts)) (committed_writes tf writes st))))
     else None) /\
  (forall (ups : list (key * CandleData)) (st : Store) (d : CandleData),
     NoDup (map fst ups) ->
     dget key_eqb ups (aid, ts) = Some d ->
     save_candles_commits tf ups true st = true ->
     option_map volume (dget tkey_eqb (rows (save_candles tf ups true st)) (aid, tf, ts)) =
     Some (Some (or0 (get (d_volume d))))) /\
  (forall (ups : list (key * CandleData)) (snapshot : bool) (st : Store),
     Forall (fun kd => data_complete (snd kd) = true) ups ->
     save_candles_commits tf ups snapshot st = true).
Proof.
  split; [|split].
  - apply delta_writes_from_none.
  - intros ups st d Hnd Hd Hok.
    pose proof (save_candles_get tf ups true st aid ts Hnd Hok) as Hs. rewrite Hd in Hs.
    destruct (dget tkey_eqb (rows st) (aid, tf, ts)) as [c|].
    + rewrite Hs. reflexivity.
    + destruct Hs as [i Hs]. rewrite Hs. reflexivity.
  - intros ups snapshot st. apply complete_commits.
Qed.

(** Witness: three delta writes of volumes 5, 7 and [None] for asset 1 at
    [ts = 60 s], all with complete prices, and a snapshot write of 4 over an
    existing row. *)
Lemma save_candles_volume_semantics_witness :
  option_map volume
    (dget tkey_eqb (rows (save_all TF_1T
       [(false, [((1, 60), mkData (Some (Some 1)) (Some (Some 2)) (Some (Some 1)) (Some (Some 2))
                                  (Some (Some 5)) None)]);
        (false, [((1, 60), mkData (Some (Some 1)) (Some (Some 3)) (Some (Some 1)) (Some (Some 3))
                                  (Some (Some 7)) None);
                 ((2, 60), mkData (Some (Some 4)) (Some (Some 4)) (Some (Some 4)) (Some (Some 4))
                                  (Some (Some 9)) None)]);
        (false, [((1, 60), mkData (Some (Some 1)) (Some (Some 2)) (Some (Some 1)) (Some (Some 2))
                                  (Some None) None)])]
       (mkStore [] 1))) (1, TF_1T, 60)) = Some (Some (5 + (7 + (0 + 0)))) /\
  option_map volume
    (dget tkey_eqb (rows (save_candles TF_1T
       [((1, 60), mkData (Some (Some 3)) (Some (Some 3)) (Some (Some 3)) (Some (Some 3))
                         (Some (Some 4)) None)] true
       (mkStore [((1, TF_1T, 60), mkCandle 1 (Some 2) (Some 2) (Some 2) (Some 2) (Some 12) None)] 2)))
       (1, TF_1T, 60)) = Some (Some 4).
Proof.
  split.
  - rewrite (proj1 (save_candles_volume_semantics TF_1T 1 60)).
    + vm_compute. reflexivity.
    + reflexivity.
    + repeat constructor; simpl; intuition discriminate.
  - apply (proj1 (proj2 (save_candles_volume_semantics TF_1T 1 60)) _ _
             (mkData (Some (Some 3)) (Some (Some 3)) (Some (Some 3)) (Some (Some 3))
                     (Some (Some 4)) None)).
    + repeat constructor; simpl; intuition.
    + reflexivity.
    + vm_compute. reflexivity.
Defined.



(* ------------------------------------------------------------------------- *)
(** ** C6: high and low are the extremes of the merged values *)

Lemma is_max_present_single (r : option Z) : is_max_present [r] r.
Proof.
  split.
  - intros x [Hx|[]]. subst r. exists x; split; [reflexivity | lia].
  - intros m Hm. subst r. left; reflexivity.
Qed.

Lemma is_min_present_single (r : option Z) : is_min_present [r] r.
Proof.
  split.
  - intros x [Hx|[]]. subst r. exists x; split; [reflexivity | lia].
  - intros m Hm. subst r. left; reflexivity.
Qed.

Lemma is_max_present_snoc (pre : list (option Z)) (r y : option Z) :
  is_max_present pre r ->
  is_max_present (pre ++ [y])
    (match r, y with
     | Some h, Some h' => Some (Z.max h h')
     | Some h, None => Some h
     | None, h' => h'
     end).
Proof.
  intros [Hub Hatt]; split.
  - intros x Hin. apply in_app_or in Hin as [Hin|[Hin|[]]].
    + destruct (Hub x Hin) as [m [Hm Hle]]; subst r.
      destruct y as [h'|]; eexists; split; [reflexivity | lia | reflexivity | lia].
    + subst y. destruct r as [h|]; eexists; split; [reflexivity | lia | reflexivity | lia].
  - intros m Hm. destruct r as [h|], y as [h'|]; inversion Hm; subst.
    + destruct (Z.max_spec h h') as [[_ E]|[_ E]]; rewrite E.
      * apply in_or_app; right; left; reflexivity.
      * apply in_or_app; left; apply Hatt; reflexivity.
    + apply in_or_app; left; apply Hatt; reflexivity.
    + apply in_or_app; right; left; reflexivity.
Qed.

Lemma is_min_present_snoc (pre : list (option Z)) (r y : option Z) :
  is_min_present pre r ->
  is_min_present (pre ++ [y])
    (match r, y with
     | Some l, Some l' => Some (Z.min l l')
     | Some l, None => Some l
     | None, l' => l'
     end).
Proof.
  intros [Hlb Hatt]; split.
  - intros x Hin. apply in_app_or in Hin as [Hin|[Hin|[]]].
    + destruct (Hlb x Hin) as [m [Hm Hle]]; subst r.
      destruct y as [l'|]; eexists; split; [reflexivity | lia | reflexivity | lia].
    + subst y. destruct r as [l|]; eexists; split; [reflexivity | lia | reflexivity | lia].
  - intros m Hm. destruct r as [l|], y as [l'|]; inversion Hm; subst.
    + destruct (Z.min_spec l l') as [[_ E]|[_ E]]; rewrite E.
      * apply in_or_app; left; apply Hatt; reflexivity.
      * apply in_or_app; right; left; reflexivity.
    + apply in_or_app; left; apply Hatt; reflexivity.
    + apply in_or_app; right; left; reflexivity.
Qed.

Lemma is_max_present_snoc_None (pre : list (option Z)) (r : option Z) :
  is_max_present pre r -> is_max_present (pre ++ [None]) r.
Proof. intros H. pose proof (is_max_present_snoc pre r None H). destruct r; exact H0. Qed.

Lemma is_min_present_snoc_None (pre : list (option Z)) (r : option Z) :
  is_min_present pre r -> is_min_present (pre ++ [None]) r.
Proof. intros H. pose proof (is_min_present_snoc pre r None H). destruct r; exact H0. Qed.

Lemma is_max_present_unique (l l' : list (option Z)) (r r' : option Z) :
  is_max_present l r -> is_max_present l' r' ->
  (forall x, In x l -> In x l') -> (forall x, In x l' -> In x l) -> r = r'.
Proof.
  intros [U A] [U' A'] H H'.
  destruct r as [m|], r' as [m'|].
  - destruct (U' m (H _ (A m eq_refl))) as [m0 [E1 L1]].
    destruct (U m' (H' _ (A' m' eq_refl))) as [m1 [E2 L2]].
    inversion E1; inversion E2; subst. f_equal; lia.
  - destruct (U' m (H _ (A m eq_refl))) as [m0 [E _]]; discriminate.
  - destruct (U m' (H' _ (A' m' eq_refl))) as [m0 [E _]]; discriminate.
  - reflexivity.
Qed.

Lemma is_min_present_unique (l l' : list (option Z)) (r r' : option Z) :
  is_min_present l r -> is_min_present l' r' ->
  (forall x, In x l -> In x l') -> (forall x, In x l' -> In x l) -> r = r'.
Proof.
  intros [U A] [U' A'] H H'.
  destruct r as [m|], r' as [m'|].
  - destruct (U' m (H _ (A m eq_refl))) as [m0 [E1 L1]].
    destruct (U m' (H' _ (A' m' eq_refl))) as [m1 [E2 L2]].
    inversion E1; inversion E2; subst. f_equal; lia.
  - destruct (U' m (H _ (A m eq_refl))) as [m0 [E _]]; discriminate.
  - destruct (U m' (H' _ (A' m' eq_refl))) as [m0 [E _]]; discriminate.
  - reflexivity.
Qed.

Lemma perm_cons_map_in {A B : Type} (f : A -> B) (a : B) (l l' : list A) :
  Permutation l l' -> forall x, In x (a :: map f l) -> In x (a :: map f l').
Proof.
  intros HP x Hx. eapply Permutation_in; [|exact Hx].
  apply perm_skip, Permutation_map, HP.
Qed.

Lemma Forall_perm {A : Type} (P : A -> Prop) (l l' : list A) :
  Permutation l l' -> Forall P l -> Forall P l'.
Proof.
  intros HP HF. apply Forall_forall. intros x Hx.
  rewrite Forall_forall in HF. apply HF.
  eapply Permutation_in; [apply Permutation_sym, HP | exact Hx].
Qed.

Lemma save_all_high_low (tf : Timeframe) (aid : Z) (ts : datetime)
    (writes : list (bool * list (key * CandleData))) :
  forall (st : Store) (c : Candle) (pre_h pre_l : list (option Z)),
  dget tkey_eqb (rows st) (aid, tf, ts) = Some c ->
  is_max_present pre_h (high c) -> is_min_present pre_l (low c) ->
  Forall (fun w => NoDup (map fst (snd w))) writes ->
  exists c', dget tkey_eqb (rows (save_all tf writes st)) (aid, tf, ts) = Some c' /\
    is_max_present (pre_h ++ map (write_high (aid, ts)) (committed_writes tf writes st)) (high c') /\
    is_min_present (pre_l ++ map (write_low (aid, ts)) (committed_writes tf writes st)) (low c').
Proof.
  induction writes as [|w r IH]; intros st c pre_h pre_l Hc Hh Hl Hnd.
  - exists c. simpl. rewrite !app_nil_r. auto.
  - inversion Hnd as [|? ? Hnd1 Hndr]; subst.
    rewrite save_all_cons. cbn [committed_writes].
    destruct (save_candles_commits tf (snd w) (fst w) st) eqn:Hok.
    + pose proof (save_candles_get tf (snd w) (fst w) st aid ts Hnd1 Hok) as Hs.
      cbn [app map]. unfold write_high at 1, write_low at 1.
      destruct (dget key_eqb (snd w) (aid, ts)) as [d|]; rewrite Hc in Hs.
      * destruct (IH _ (merge_row (fst w) c d) (pre_h ++ [get (d_high d)])
                    (pre_l ++ [get (d_low d)]) Hs (is_max_present_snoc _ _ _ Hh)
                    (is_min_present_snoc _ _ _ Hl) Hndr) as [c' [H1 [H2 H3]]].
        exists c'. rewrite <- !app_assoc in H2, H3. auto.
      * destruct (IH _ c (pre_h ++ [None]) (pre_l ++ [None]) Hs
                    (is_max_present_snoc_None _ _ Hh) (is_min_present_snoc_None _ _ Hl) Hndr)
          as [c' [H1 [H2 H3]]].
        exists c'. rewrite <- !app_assoc in H2, H3. auto.
    + assert (E : dget tkey_eqb (rows (save_candles tf (snd w) (fst w) st)) (aid, tf, ts) = Some c)
        by (rewrite (save_candles_rollback _ _ _ _ Hok); exact Hc).
      exact (IH _ _ _ _ E Hh Hl Hndr).
Qed.

Lemma merge_acc_all_cons (c : CandleData) (d : M1Bar) (ds : list M1Bar) :
  merge_acc_all c (d :: ds) =
  match merge_acc_entry c d with Some c1 => merge_acc_all c1 ds | None => None end.
Proof.
  unfold merge_acc_all. simpl. destruct (merge_acc_entry c d) as [c1|]; [reflexivity|].
  induction ds as [|d' ds IH]; simpl; [reflexivity | exact IH].
Qed.

Lemma merge_acc_all_high_low (ds : list M1Bar) :
  forall (c : CandleData) (h l : Z) (pre_h pre_l : list (option Z)),
  d_high c = Some (Some h) -> d_low c = Some (Some l) ->
  is_max_present pre_h (Some h) -> is_min_present pre_l (Some l) ->
  Forall (fun d => m_high d <> None /\ m_low d <> None) ds ->
  exists c' h' l', merge_acc_all c ds = Some c' /\
    d_high c' = Some (Some h') /\ d_low c' = Some (Some l') /\
    is_max_present (pre_h ++ map m_high ds) (Some h') /\
    is_min_present (pre_l ++ map m_low ds) (Some l').
Proof.
  induction ds as [|d r IH]; intros c h l pre_h pre_l Hch Hcl Hh Hl Hnum.
  - exists c, h, l. rewrite !app_nil_r. split; [reflexivity | auto].
  - inversion Hnum as [|? ? [Hdh Hdl] Hr]; subst.
    rewrite merge_acc_all_cons.
    destruct (m_high d) as [x|] eqn:Ex; [|congruence].
    destruct (m_low d) as [y|] eqn:Ey; [|congruence].
    unfold merge_acc_entry. rewrite Hch, Hcl, Ex, Ey. simpl get_or. cbn [py_max py_min].
    destruct (IH (mkData (match get (d_open c) with None => Some (m_open d) | Some _ => d_open c end)
                         (Some (Some (Z.max h x))) (Some (Some (Z.min l y)))
                         (Some (m_close d))
                         (Some (Some (or0 (get (d_volume c)) + or0 (m_volume d))))
                         (d_minute_candle_ids c))
                  (Z.max h x) (Z.min l y) (pre_h ++ [Some x]) (pre_l ++ [Some y])
                  eq_refl eq_refl (is_max_present_snoc _ _ _ Hh) (is_min_present_snoc _ _ _ Hl) Hr)
      as [c' [h' [l' [H1 [H2 [H3 [H4 H5]]]]]]].
    exists c', h', l'. rewrite <- !app_assoc in H4, H5. simpl map. rewrite Ex, Ey.
    exact (conj H1 (conj H2 (conj H3 (conj H4 H5)))).
Qed.

(** C6.  Store path: after any sequence of [save_candles] writes to an
    existing row (snapshot or delta), the stored high is the largest of the
    row's previous high and every high merged for the key by a write that
    commits, and the stored low the smallest ([None] values are skipped); a
    write that rolls back merges nothing.  The result depends only on the
    committed writes, not on their order; when every dict holds numbers for
    open, high, low and close every write commits.  Accumulator path:
    merging 1-minute bars into an accumulator entry gives the largest high
    and smallest low of the entry and the bars, whatever their order. *)
Theorem merge_high_low_extremes :
  (forall (tf : Timeframe) (aid : Z) (ts : datetime)
          (writes : list (bool * list (key * CandleData))) (st : Store) (c : Candle),
     dget tkey_eqb (rows st) (aid, tf, ts) = Some c ->
     Forall (fun w => NoDup (map fst (snd w))) writes ->
     exists c', dget tkey_eqb (rows (save_all tf writes st)) (aid, tf, ts) = Some c' /\
       is_max_present (high c :: map (write_high (aid, ts)) (committed_writes tf writes st)) (high c') /\
       is_min_present (low c :: map (write_low (aid, ts)) (committed_writes tf writes st)) (low c') /\
       (forall writes', Forall (fun w => NoDup (map fst (snd w))) writes' ->
          Permutation (committed_writes tf writes st) (committed_writes tf writes' st) ->
          exists c'', dget tkey_eqb (rows (save_all tf writes' st)) (aid, tf, ts) = Some c'' /\
            high c'' = high c' /\ low c'' = low c')) /\
  (forall (tf : Timeframe) (writes : list (bool * list (key * CandleData))) (st : Store),
     Forall (fun w => Forall (fun kd => data_complete (snd kd) = true) (snd w)) writes ->
     committed_writes tf writes st = writes) /\
  (forall (c : CandleData) (h0 l0 : Z) (ds : list M1Bar),
     d_high c = Some (Some h0) -> d_low c = Some (Some l0) ->
     Forall (fun d => m_high d <> None /\ m_low d <> None) ds ->
     exists c', merge_acc_all c ds = Some c' /\
       is_max_present (Some h0 :: map m_high ds) (get (d_high c')) /\
       is_min_present (Some l0 :: map m_low ds) (get (d_low c')) /\
       (forall ds', Permutation ds ds' ->
          exists c'', merge_acc_all c ds' = Some c'' /\
            d_high c'' = d_high c' /\ d_low c'' = d_low c')).
Proof.
  split; [|split].
  - intros tf aid ts writes st c Hc Hnd.
    destruct (save_all_high_low tf aid ts writes st c [high c] [low c] Hc
                (is_max_present_single _) (is_min_present_single _) Hnd) as [c' [H1 [H2 H3]]].
    exists c'. split; [exact H1|]. split; [exact H2|]. split; [exact H3|].
    intros writes' Hnd' HP.
    destruct (save_all_high_low tf aid ts writes' st c [high c] [low c] Hc
                (is_max_present_single _) (is_min_present_single _) Hnd')
      as [c'' [G1 [G2 G3]]].
    exists c''. split; [exact G1|]. split.
    + eapply is_max_present_unique; [exact G2 | exact H2 | |];
        apply perm_cons_map_in; [apply Permutation_sym|]; exact HP.
    + eapply is_min_present_unique; [exact G3 | exact H3 | |];
        apply perm_cons_map_in; [apply Permutation_sym|]; exact HP.
  - intros tf writes st Hall. apply committed_writes_complete. exact Hall.
  - intros c h0 l0 ds Hh Hl Hnum.
    destruct (merge_acc_all_high_low ds c h0 l0 [Some h0] [Some l0] Hh Hl
                (is_max_present_single _) (is_min_present_single _) Hnum)
      as [c' [h' [l' [H1 [H2 [H3 [H4 H5]]]]]]].
    exists c'. rewrite H2, H3. simpl get.
    split; [exact H1|]. split; [exact H4|]. split; [exact H5|].
    intros ds' HP.
    destruct (merge_acc_all_high_low ds' c h0 l0 [Some h0] [Some l0] Hh Hl
                (is_max_present_single _) (is_min_present_single _) (Forall_perm _ _ _ HP Hnum))
      as [c'' [g [k [G1 [G2 [G3 [G4 G5]]]]]]].
    exists c''. rewrite G2, G3. split; [exact G1|]. split.
    + assert (E : Some g = Some h'); [|congruence].
      eapply is_max_present_unique; [exact G4 | exact H4 | |];
        apply perm_cons_map_in; [apply Permutation_sym|]; exact HP.
    + assert (E : Some k = Some l'); [|congruence].
      eapply is_min_present_unique; [exact G5 | exact H5 | |];
        apply perm_cons_map_in; [apply Permutation_sym|]; exact HP.
Qed.

Lemma merge_high_low_extremes_witness :
  (exists c', dget tkey_eqb (rows (save_all TF_5T
       [(false, [((1, 0), mkData (Some (Some 6)) (Some (Some 10)) (Some (Some 3))
                                 (Some (Some 7)) (Some (Some 2)) None)]);
        (true, [((1, 0), mkData (Some (Some 7)) (Some (Some 12)) (Some (Some 5))
                                (Some (Some 9)) (Some (Some 4)) None)])]
       (mkStore [((1, TF_5T, 0), mkCandle 1 (Some 5) (Some 8) (Some 4) (Some 6) (Some 10) None)] 2)))
       (1, TF_5T, 0) = Some c' /\ high c' = Some 12 /\ low c' = Some 3) /\
  (exists c', merge_acc_all
       (mkData (Some (Some 5)) (Some (Some 8)) (Some (Some 4)) (Some (Some 6)) (Some (Some 10)) None)
       [mkM1 (Some 6) (Some 10) (Some 3) (Some 7) (Some 2);
        mkM1 (Some 7) (Some 12) (Some 5) (Some 9) (Some 4)] = Some c' /\
     d_high c' = Some (Some 12) /\ d_low c' = Some (Some 3)).
Proof.
  split.
  - destruct (proj1 merge_high_low_extremes TF_5T 1 0
       [(false, [((1, 0), mkData (Some (Some 6)) (Some (Some 10)) (Some (Some 3))
                                 (Some (Some 7)) (Some (Some 2)) None)]);
        (true, [((1, 0), mkData (Some (Some 7)) (Some (Some 12)) (Some (Some 5))
                                (Some (Some 9)) (Some (Some 4)) None)])]
       (mkStore [((1, TF_5T, 0), mkCandle 1 (Some 5) (Some 8) (Some 4) (Some 6) (Some 10) None)] 2)
       (mkCandle 1 (Some 5) (Some 8) (Some 4) (Some 6) (Some 10) None))
      as [c' [H1 _]].
    + reflexivity.
    + repeat constructor; intros [].
    + exists c'. split; [exact H1|]. vm_compute in H1. inversion H1. split; reflexivity.
  - destruct (proj2 (proj2 merge_high_low_extremes)
       (mkData (Some (Some 5)) (Some (Some 8)) (Some (Some 4)) (Some (Some 6)) (Some (Some 10)) None)
       8 4
       [mkM1 (Some 6) (Some 10) (Some 3) (Some 7) (Some 2);
        mkM1 (Some 7) (Some 12) (Some 5) (Some 9) (Some 4)])
      as [c' [H1 _]].
    + reflexivity.
    + reflexivity.
    + repeat constructor; discriminate.
    + exists c'. split; [exact H1|]. vm_compute in H1. inversion H1. split; reflexivity.
Defined.

(* ------------------------------------------------------------------------- *)
(** ** C7: open is kept once set, close follows the last merge *)

Lemma save_all_open (tf : Timeframe) (aid : Z) (ts : datetime)
    (writes : list (bool * list (key * CandleData))) :
  forall (st : Store) (c : Candle),
  dget tkey_eqb (rows st) (aid, tf, ts) = Some c ->
  Forall (fun w => NoDup (map fst (snd w))) writes ->
  exists c', dget tkey_eqb (rows (save_all tf writes st)) (aid, tf, ts) = Some c' /\
    (forall o, open c = Some o -> open c' = Some o).
Proof.
  induction writes as [|w r IH]; intros st c Hc Hnd.
  - exists c. split; [exact Hc | auto].
  - inversion Hnd as [|? ? Hnd1 Hndr]; subst.
    rewrite save_all_cons.
    destruct (save_candles_commits tf (snd w) (fst w) st) eqn:Hok.
    + pose proof (save_candles_get tf (snd w) (fst w) st aid ts Hnd1 Hok) as Hs.
      destruct (dget key_eqb (snd w) (aid, ts)) as [d|]; rewrite Hc in Hs.
      * destruct (IH _ _ Hs Hndr) as [c' [H1 H2]].
        exists c'. split; [exact H1|]. intros o Ho. apply H2.
        unfold merge_row. cbn [open]. rewrite Ho. reflexivity.
      * destruct (IH _ _ Hs Hndr) as [c' [H1 H2]]. exists c'. auto.
    + assert (E : dget tkey_eqb (rows (save_candles tf (snd w) (fst w) st)) (aid, tf, ts) = Some c)
        by (rewrite (save_candles_rollback _ _ _ _ Hok); exact Hc).
      exact (IH _ _ E Hndr).
Qed.

Lemma merge_acc_entry_open (c c1 : CandleData) (d : M1Bar) (o : Z) :
  merge_acc_entry c d = Some c1 -> d_open c = Some (Some o) -> d_open c1 = Some (Some o).
Proof.
  intros E Ho. unfold merge_acc_entry in E. rewrite Ho in E. simpl in E.
  destruct (py_max _ _); [|discriminate]. destruct (py_min _ _); [|discriminate].
  inversion E; reflexivity.
Qed.

Lemma merge_acc_entry_close (c c1 : CandleData) (d : M1Bar) :
  merge_acc_entry c d = Some c1 -> d_close c1 = Some (m_close d).
Proof.
  intros E. unfold merge_acc_entry in E.
  destruct (py_max _ _); [|discriminate]. destruct (py_min _ _); [|discriminate].
  inversion E; reflexivity.
Qed.

Lemma merge_acc_all_app (c : CandleData) (ds : list M1Bar) (d : M1Bar) :
  merge_acc_all c (ds ++ [d]) =
  match merge_acc_all c ds with Some c1 => merge_acc_entry c1 d | None => None end.
Proof. unfold merge_acc_all. rewrite fold_left_app. reflexivity. Qed.

(** C7.  Store merge: across any sequence of [save_candles] writes to an
    existing row, a non-null open is never changed (a write that rolls back
    changes nothing); when the last write carries a close for the key and
    commits, the stored close is that value.
    Accumulator merge: across any sequence of bar merges that does not
    raise, a non-null open is kept, and the close is the last bar's close.
    A merge into a row whose open is null is the only one that can change
    the open. *)
Theorem merge_open_close :
  (forall (tf : Timeframe) (aid : Z) (ts : datetime)
          (writes : list (bool * list (key * CandleData))) (st : Store) (c : Candle),
     dget tkey_eqb (rows st) (aid, tf, ts) = Some c ->
     Forall (fun w => NoDup (map fst (snd w))) writes ->
     exists c', dget tkey_eqb (rows (save_all tf writes st)) (aid, tf, ts) = Some c' /\
       (forall o, open c = Some o -> open c' = Some o)) /\
  (forall (tf : Timeframe) (aid : Z) (ts : datetime)
          (writes : list (bool * list (key * CandleData))) (s : bool)
          (ups : list (key * CandleData)) (d : CandleData) (v : option Z)
          (st : Store) (c : Candle),
     dget tkey_eqb (rows st) (aid, tf, ts) = Some c ->
     Forall (fun w => NoDup (map fst (snd w))) (writes ++ [(s, ups)]) ->
     dget key_eqb ups (aid, ts) = Some d -> d_close d = Some v ->
     save_candles_commits tf ups s (save_all tf writes st) = true ->
     exists c', dget tkey_eqb (rows (save_all tf (writes ++ [(s, ups)]) st)) (aid, tf, ts) = Some c' /\
       close c' = v) /\
  (forall (ds : list M1Bar) (c c' : CandleData) (o : Z),
     merge_acc_all c ds = Some c' -> d_open c = Some (Some o) -> d_open c' = Some (Some o)) /\
  (forall (ds : list M1Bar) (d : M1Bar) (c c' : CandleData),
     merge_acc_all c (ds ++ [d]) = Some c' -> d_close c' = Some (m_close d)).
Proof.
  split; [|split; [|split]].
  - intros tf aid ts writes st c Hc Hnd. exact (save_all_open tf aid ts writes st c Hc Hnd).
  - intros tf aid ts writes s ups d v st c Hc Hnd Hd Hv Hok.
    apply Forall_app in Hnd as [Hnd1 Hnd2]. inversion Hnd2 as [|? ? Hlast _]; subst.
    destruct (save_all_open tf aid ts writes st c Hc Hnd1) as [c1 [H1 _]].
    rewrite save_all_app. unfold save_all at 1. simpl fold_left.
    pose proof (save_candles_get tf ups s (save_all tf writes st) aid ts Hlast Hok) as Hs.
    rewrite Hd, H1 in Hs. exists (merge_row s c1 d). split; [exact Hs|].
    unfold merge_row. cbn [close]. unfold get_or. rewrite Hv. reflexivity.
  - induction ds as [|d r IH]; intros c c' o E Ho.
    + inversion E; subst; exact Ho.
    + rewrite merge_acc_all_cons in E.
      destruct (merge_acc_entry c d) as [c1|] eqn:E1; [|discriminate].
      exact (IH c1 c' o E (merge_acc_entry_open c c1 d o E1 Ho)).
  - intros ds d c c' E. rewrite merge_acc_all_app in E.
    destruct (merge_acc_all c ds) as [c1|]; [|discriminate].
    exact (merge_acc_entry_close c1 c' d E).
Qed.

(** Witness: a row with open 5 and close 6 receives two writes; the open
    stays 5 and the close is the last write's 9.  An accumulator entry with
    open 5 merges two bars; the open stays 5 and the close is 9. *)
Lemma merge_open_close_witness :
  (exists c', dget tkey_eqb (rows (save_all TF_5T
       [(false, [((1, 0), mkData (Some (Some 6)) (Some (Some 10)) (Some (Some 3))
                                 (Some (Some 7)) (Some (Some 2)) None)]);
        (true, [((1, 0), mkData (Some (Some 7)) (Some (Some 12)) (Some (Some 5))
                                (Some (Some 9)) (Some (Some 4)) None)])]
       (mkStore [((1, TF_5T, 0), mkCandle 1 (Some 5) (Some 8) (Some 4) (Some 6) (Some 10) None)] 2)))
       (1, TF_5T, 0) = Some c' /\ open c' = Some 5) /\
  (exists c', dget tkey_eqb (rows (save_all TF_5T
       ([(false, [((1, 0), mkData (Some (Some 6)) (Some (Some 10)) (Some (Some 3))
                                  (Some (Some 7)) (Some (Some 2)) None)])] ++
        [(true, [((1, 0), mkData (Some (Some 7)) (Some (Some 12)) (Some (Some 5))
                                 (Some (Some 9)) (Some (Some 4)) None)])])
       (mkStore [((1, TF_5T, 0), mkCandle 1 (Some 5) (Some 8) (Some 4) (Some 6) (Some 10) None)] 2)))
       (1, TF_5T, 0) = Some c' /\ close c' = Some 9) /\
  d_open (mkData (Some (Some 5)) (Some (Some 12)) (Some (Some 3)) (Some (Some 9)) (Some (Some 16)) None)
    = Some (Some 5) /\
  d_close (mkData (Some (Some 5)) (Some (Some 12)) (Some (Some 3)) (Some (Some 9)) (Some (Some 16)) None)
    = Some (m_close (mkM1 (Some 7) (Some 12) (Some 5) (Some 9) (Some 4))).
Proof.
  split; [|split; [|split]].
  - destruct (proj1 merge_open_close TF_5T 1 0
       [(false, [((1, 0), mkData (Some (Some 6)) (Some (Some 10)) (Some (Some 3))
                                 (Some (Some 7)) (Some (Some 2)) None)]);
        (true, [((1, 0), mkData (Some (Some 7)) (Some (Some 12)) (Some (Some 5))
                                (Some (Some 9)) (Some (Some 4)) None)])]
       (mkStore [((1, TF_5T, 0), mkCandle 1 (Some 5) (Some 8) (Some 4) (Some 6) (Some 10) None)] 2)
       (mkCandle 1 (Some 5) (Some 8) (Some 4) (Some 6) (Some 10) None))
      as [c' [H1 H2]].
    + reflexivity.
    + repeat constructor; intros [].
    + exists c'. split; [exact H1 | apply H2; reflexivity].
  - apply (proj1 (proj2 merge_open_close) TF_5T 1 0 _ true _
             (mkData (Some (Some 7)) (Some (Some 12)) (Some (Some 5))
                     (Some (Some 9)) (Some (Some 4)) None) (Some 9) _
             (mkCandle 1 (Some 5) (Some 8) (Some 4) (Some 6) (Some 10) None)).
    + reflexivity.
    + repeat constructor; intros [].
    + reflexivity.
    + reflexivity.
    + vm_compute. reflexivity.
  - apply (proj1 (proj2 (proj2 merge_open_close))
             [mkM1 (Some 6) (Some 10) (Some 3) (Some 7) (Some 2);
              mkM1 (Some 7) (Some 12) (Some 5) (Some 9) (Some 4)]
             (mkData (Some (Some 5)) (Some (Some 8)) (Some (Some 4)) (Some (Some 6))
                     (Some (Some 10)) None)).
    + vm_compute. reflexivity.
    + reflexivity.
  - apply (proj2 (proj2 (proj2 merge_open_close))
             [mkM1 (Some 6) (Some 10) (Some 3) (Some 7) (Some 2)] _
             (mkData (Some (Some 5)) (Some (Some 8)) (Some (Some 4)) (Some (Some 6))
                     (Some (Some 10)) None)).
    vm_compute. reflexivity.
Defined.

(* ------------------------------------------------------------------------- *)
(** ** C1: [persist_open] and the backfill guard *)

Lemma key_neq_of_eqb (k k' : key) : key_eqb k k' = false -> k' <> k.
Proof.
  intros E H. subst. rewrite (eqk_refl key_eqb key_eqb_spec) in E. discriminate.
Qed.

Lemma tf_neq_of_eqb (a b : Timeframe) : tf_eqb a b = false -> b <> a.
Proof.
  intros E H. subst. rewrite (eqk_refl tf_eqb tf_eqb_spec) in E. discriminate.
Qed.

Lemma collect_open_get (hc : Z -> Timeframe -> datetime -> bool) (tf : Timeframe)
    (delta : timedelta) (latest : datetime) (acc : list (key * CandleData)) (keys : list key) :
  forall (tp : list (key * CandleData)) (k : key),
  dget key_eqb (collect_open hc tf delta latest acc keys tp) k =
  if existsb (key_eqb k) keys && (latest <? snd k + delta) && hc (fst k) tf (snd k) &&
     match dget key_eqb acc k with Some d => data_truthy d | None => false end
  then dget key_eqb acc k else dget key_eqb tp k.
Proof.
  induction keys as [|[a b] r IH]; intros tp k; simpl; [reflexivity|].
  destruct (key_eqb k (a, b)) eqn:Ek.
  - apply key_eqb_spec in Ek; subst k. cbn [fst snd orb].
    destruct (latest <? b + delta) eqn:L; [destruct (hc a tf b) eqn:H|];
      [destruct (dget key_eqb acc (a, b)) as [d|] eqn:D; [destruct (data_truthy d) eqn:T|]| |];
      rewrite IH; cbn [fst snd]; rewrite ?L, ?H, ?D, ?T;
      destruct (existsb (key_eqb (a, b)) r); simpl; try reflexivity.
    apply (dget_dset_eq key_eqb key_eqb_spec).
  - cbn [orb]. pose proof (key_neq_of_eqb _ _ Ek) as Hne.
    destruct (latest <? b + delta); [destruct (hc a tf b)|];
      [destruct (dget key_eqb acc (a, b)) as [d|]; [destruct (data_truthy d)|]| |];
      rewrite IH; try reflexivity.
    rewrite (dget_dset_neq key_eqb key_eqb_spec tp (a, b) k d Hne). reflexivity.
Qed.

Lemma persist_open_tfs_spec (hc : Z -> Timeframe -> datetime -> bool)
    (latest now : datetime) (tf : Timeframe) (touched : list (Timeframe * list key)) :
  forall (agg : Aggregator),
  NoDup (map fst touched) ->
  (forall tf', In tf' (map fst touched) -> dget tf_eqb (tf_cfg agg) tf' <> None) ->
  exists agg' calls,
    persist_open_tfs hc agg touched latest now = Some (agg', calls) /\
    _tf_acc agg' = _tf_acc agg /\
    filter (fun sc => tf_eqb (s_tf sc) tf) calls =
    match dget tf_eqb touched tf with
    | None => []
    | Some keys =>
        if tf_eqb tf TF_1T || match keys with [] => true | _ => false end then []
        else if now - match dget tf_eqb (_last_open_flush agg) tf with
                      | Some l => l | None => 0 end <? _open_flush_secs agg then []
        else match dget tf_eqb (tf_cfg agg) tf with
             | None => []
             | Some delta =>
                 match collect_open hc tf delta latest
                         (match dget tf_eqb (_tf_acc agg) tf with Some a => a | None => [] end)
                         keys [] with
                 | [] => []
                 | tp => [mkSave tf tp true]
                 end
             end
    end.
Proof.
  induction touched as [|[tf0 keys0] r IH]; intros agg Hnd Hcfg.
  - exists agg, []. auto.
  - simpl in Hnd. inversion Hnd as [|? ? Hnotin Hnd']; subst.
    assert (Hcfg' : forall tf', In tf' (map fst r) -> dget tf_eqb (tf_cfg agg) tf' <> None)
      by (intros; apply Hcfg; right; assumption).
    assert (Hr0 : dget tf_eqb r tf0 = None)
      by (apply (dget_None_notin tf_eqb tf_eqb_spec); exact Hnotin).
    cbn [persist_open_tfs dget].
    destruct (tf_eqb tf0 TF_1T || match keys0 with [] => true | _ => false end) eqn:C1.
    { destruct (IH agg Hnd' Hcfg') as [agg' [calls [H1 [H2 H3]]]].
      exists agg', calls. split; [exact H1|]. split; [exact H2|]. rewrite H3.
      destruct (tf_eqb tf tf0) eqn:E; [|reflexivity].
      apply tf_eqb_spec in E; subst tf. rewrite Hr0, C1. reflexivity. }
    destruct (now - match dget tf_eqb (_last_open_flush agg) tf0 with
                    | Some l => l | None => 0 end <? _open_flush_secs agg) eqn:C2.
    { destruct (IH agg Hnd' Hcfg') as [agg' [calls [H1 [H2 H3]]]].
      exists agg', calls. split; [exact H1|]. split; [exact H2|]. rewrite H3.
      destruct (tf_eqb tf tf0) eqn:E; [|reflexivity].
      apply tf_eqb_spec in E; subst tf. rewrite Hr0, C1, C2. reflexivity. }
    destruct (dget tf_eqb (tf_cfg agg) tf0) as [delta|] eqn:Cf;
      [|exfalso; apply (Hcfg tf0); [left; reflexivity | exact Cf]].
    destruct (collect_open hc tf0 delta latest
                (match dget tf_eqb (_tf_acc agg) tf0 with Some a => a | None => [] end)
                keys0 []) as [|p tp] eqn:Cc.
    { destruct (IH agg Hnd' Hcfg') as [agg' [calls [H1 [H2 H3]]]].
      exists agg', calls. split; [exact H1|]. split; [exact H2|]. rewrite H3.
      destruct (tf_eqb tf tf0) eqn:E; [|reflexivity].
      apply tf_eqb_spec in E; subst tf. rewrite Hr0, C1, C2, Cf, Cc. reflexivity. }
    set (agg1 := with_last_open_flush agg (dset tf_eqb (_last_open_flush agg) tf0 now)).
    destruct (IH agg1 Hnd' Hcfg') as [agg' [calls [H1 [H2 H3]]]].
    rewrite H1. exists agg', (mkSave tf0 (p :: tp) true :: calls).
    split; [reflexivity|]. split; [exact H2|].
    cbn [filter s_tf]. rewrite H3.
    destruct (tf_eqb tf tf0) eqn:E.
    + apply tf_eqb_spec in E; subst tf.
      rewrite (eqk_refl tf_eqb tf_eqb_spec), Hr0, C1, C2, Cf, Cc. reflexivity.
    + pose proof (tf_neq_of_eqb _ _ E) as Hne.
      rewrite (eqk_false tf_eqb tf_eqb_spec tf0 tf) by (intro; subst; apply Hne; reflexivity).
      destruct (dget tf_eqb r tf) as [keys|]; [|reflexivity].
      unfold agg1, with_last_open_flush. cbn [_last_open_flush _open_flush_secs tf_cfg _tf_acc].
      rewrite (dget_dset_neq tf_eqb tf_eqb_spec _ tf0 tf now Hne). reflexivity.
Qed.

(** C1.  Let [(aid, bts)] be a key touched for a higher timeframe [tf] whose
    bucket is still open ([latest_m1 < bts + delta]).  One call of
    [persist_open] never changes the accumulators.  If
    [is_historical_complete aid tf bts] is false, no save call for [tf]
    carries the key.  If it is true, the throttle interval for [tf] has
    elapsed and the key's accumulator entry is non-empty, exactly one save
    call for [tf] is made, in snapshot mode, and it writes the key's
    accumulator entry. *)
Theorem persist_open_guarded (hc : Z -> Timeframe -> datetime -> bool) (agg : Aggregator)
    (touched : list (Timeframe * list key)) (latest now : datetime)
    (tf : Timeframe) (keys : list key) (aid : Z) (bts : datetime) (delta : timedelta) :
  NoDup (map fst touched) ->
  (forall tf', In tf' (map fst touched) -> dget tf_eqb (tf_cfg agg) tf' <> None) ->
  tf <> TF_1T ->
  dget tf_eqb touched tf = Some keys -> In (aid, bts) keys ->
  dget tf_eqb (tf_cfg agg) tf = Some delta ->
  latest < bts + delta ->
  exists agg' calls,
    persist_open hc agg touched latest now = Some (agg', calls) /\
    _tf_acc agg' = _tf_acc agg /\
    (hc aid tf bts = false ->
       forall sc, In sc calls -> s_tf sc = tf -> dget key_eqb (s_updates sc) (aid, bts) = None) /\
    (hc aid tf bts = true ->
     _open_flush_secs agg <=
       now - match dget tf_eqb (_last_open_flush agg) tf with Some l => l | None => 0 end ->
     forall d,
       dget key_eqb (match dget tf_eqb (_tf_acc agg) tf with Some a => a | None => [] end)
         (aid, bts) = Some d ->
       data_truthy d = true ->
       exists ups, filter (fun sc => tf_eqb (s_tf sc) tf) calls = [mkSave tf ups true] /\
                   dget key_eqb ups (aid, bts) = Some d).
Proof.
  intros Hnd Hcfg H1T Hkeys Hin Hdelta Hopen.
  destruct (persist_open_tfs_spec hc latest now tf touched agg Hnd Hcfg)
    as [agg' [calls [Hrun [Hacc Hf]]]].
  exists agg', calls. split; [exact Hrun|]. split; [exact Hacc|].
  rewrite Hkeys, Hdelta in Hf.
  rewrite (eqk_false tf_eqb tf_eqb_spec tf TF_1T H1T) in Hf.
  destruct keys as [|k0 ks]; [destruct Hin|]. cbn [orb] in Hf.
  assert (Hex : existsb (key_eqb (aid, bts)) (k0 :: ks) = true).
  { apply existsb_exists. exists (aid, bts). split; [exact Hin|].
    apply (eqk_refl key_eqb key_eqb_spec). }
  assert (Hlt : (latest <? bts + delta) = true) by (apply Z.ltb_lt; exact Hopen).
  set (acc := match dget tf_eqb (_tf_acc agg) tf with Some a => a | None => [] end) in *.
  pose proof (collect_open_get hc tf delta latest acc (k0 :: ks) [] (aid, bts)) as Hc.
  cbn [fst snd] in Hc. rewrite Hex, Hlt in Hc.
  split.
  - intros Hf0 sc Hsc Hs. rewrite Hf0 in Hc. cbn [andb dget] in Hc.
    assert (Hsc' : In sc (filter (fun sc => tf_eqb (s_tf sc) tf) calls)).
    { apply filter_In. split; [exact Hsc|]. rewrite Hs. apply (eqk_refl tf_eqb tf_eqb_spec). }
    rewrite Hf in Hsc'.
    destruct (now - _ <? _open_flush_secs agg); [destruct Hsc'|].
    destruct (collect_open hc tf delta latest acc (k0 :: ks) []) as [|p tp]; [destruct Hsc'|].
    destruct Hsc' as [Hsc'|[]]. subst sc. exact Hc.
  - intros Ht Hthr d Hd Htr. fold acc in Hd. rewrite Ht, Hd, Htr in Hc. cbn [andb] in Hc.
    assert (Hnt : (now - match dget tf_eqb (_last_open_flush agg) tf with
                         | Some l => l | None => 0 end <? _open_flush_secs agg) = false)
      by (apply Z.ltb_ge; exact Hthr).
    rewrite Hnt in Hf.
    destruct (collect_open hc tf delta latest acc (k0 :: ks) []) as [|p tp] eqn:Cc;
      [discriminate|].
    exists (p :: tp). split; [exact Hf | exact Hc].
Qed.

(** Witness: the 5-minute bucket at 0 of asset 1 is open at [latest_m1 = 60 s],
    the throttle has elapsed, and the guard answers [true] for asset 1 only. *)
Lemma persist_open_guarded_witness :
  exists agg' calls,
    persist_open (fun aid _ _ => aid =? 1)
      (mkAgg TF_CFG [(TF_5T, [((1, 0), new_acc_entry (mkM1 (Some 5) (Some 6) (Some 4) (Some 5) (Some 3)))])]
         [] 250000)
      [(TF_5T, [(1, 0)])] (60 * usec_per_sec) (1000 * usec_per_sec) = Some (agg', calls) /\
    _tf_acc agg' = [(TF_5T, [((1, 0), new_acc_entry (mkM1 (Some 5) (Some 6) (Some 4) (Some 5) (Some 3)))])] /\
    ((1 =? 1) = false ->
       forall sc, In sc calls -> s_tf sc = TF_5T -> dget key_eqb (s_updates sc) (1, 0) = None) /\
    ((1 =? 1) = true ->
     250000 <= 1000 * usec_per_sec - 0 ->
     forall d,
       dget key_eqb [((1, 0), new_acc_entry (mkM1 (Some 5) (Some 6) (Some 4) (Some 5) (Some 3)))]
         (1, 0) = Some d ->
       data_truthy d = true ->
       exists ups, filter (fun sc => tf_eqb (s_tf sc) TF_5T) calls = [mkSave TF_5T ups true] /\
                   dget key_eqb ups (1, 0) = Some d).
Proof.
  apply (persist_open_guarded (fun aid _ _ => aid =? 1)
           (mkAgg TF_CFG [(TF_5T, [((1, 0), new_acc_entry (mkM1 (Some 5) (Some 6) (Some 4) (Some 5) (Some 3)))])]
              [] 250000)
           [(TF_5T, [(1, 0)])] (60 * usec_per_sec) (1000 * usec_per_sec)
           TF_5T [(1, 0)] 1 0 (5 * usec_per_min)).
  - repeat constructor; intros [].
  - intros tf' [<-|[]]. discriminate.
  - discriminate.
  - reflexivity.
  - left; reflexivity.
  - reflexivity.
  - vm_compute. reflexivity.
Defined.

(* ------------------------------------------------------------------------- *)
(** ** C2: [flush_closed] and the backfill guard *)

Lemma existsb_key_notin (k : key) (l : list key) :
  ~ In k l -> existsb (key_eqb k) l = false.
Proof.
  intros Hn. destruct (existsb (key_eqb k) l) eqn:E; [|reflexivity].
  apply existsb_exists in E as [x [Hx Ex]]. apply key_eqb_spec in Ex; subst. contradiction.
Qed.

Lemma dpop_keys_incl (m : list (key * CandleData)) (k x : key) :
  In x (map fst (dpop key_eqb m k)) -> In x (map fst m).
Proof.
  induction m as [|[k0 v0] r IH]; simpl; [tauto|].
  destruct (key_eqb k k0); simpl; tauto.
Qed.

Lemma dpop_NoDup (m : list (key * CandleData)) (k : key) :
  NoDup (map fst m) -> NoDup (map fst (dpop key_eqb m k)).
Proof.
  induction m as [|[k0 v0] r IH]; simpl; intros Hnd; [constructor|].
  inversion Hnd as [|? ? Hn Hnd']; subst.
  destruct (key_eqb k k0); [exact Hnd'|].
  simpl. constructor; [|exact (IH Hnd')].
  intros Hin. apply Hn, (dpop_keys_incl r k k0 Hin).
Qed.

Lemma filter_tf_all (tf0 tf : Timeframe) (l : list SaveCall) :
  (forall sc, In sc l -> s_tf sc = tf0) ->
  filter (fun sc => tf_eqb (s_tf sc) tf) l = if tf_eqb tf0 tf then l else [].
Proof.
  induction l as [|sc r IH]; intros Hall; [destruct (tf_eqb tf0 tf); reflexivity|].
  simpl. rewrite (Hall sc (or_introl eq_refl)), IH by (intros; apply Hall; right; assumption).
  destruct (tf_eqb tf0 tf); reflexivity.
Qed.

Lemma filter_andb {A : Type} (f g : A -> bool) (l : list A) :
  filter (fun x => f x && g x) l = filter g (filter f l).
Proof.
  induction l as [|x r IH]; simpl; [reflexivity|].
  destruct (f x); simpl; [destruct (g x)|]; rewrite ?IH; reflexivity.
Qed.

Lemma flush_keys_spec (hc : Z -> Timeframe -> datetime -> bool) (tf : Timeframe)
    (delta : timedelta) (latest : datetime) (items : list (key * CandleData)) :
  forall (acc : list (key * CandleData)),
  NoDup (map fst items) -> NoDup (map fst acc) ->
  (forall k, dget key_eqb (fst (flush_keys hc tf delta latest items acc)) k =
     if existsb (key_eqb k) (map fst items) && (snd k + delta <=? latest)
     then None else dget key_eqb acc k) /\
  (forall sc, In sc (snd (flush_keys hc tf delta latest items acc)) -> s_tf sc = tf) /\
  (forall k, filter (fun sc => dmem key_eqb (s_updates sc) k)
               (snd (flush_keys hc tf delta latest items acc)) =
     if existsb (key_eqb k) (map fst items) && (snd k + delta <=? latest) && hc (fst k) tf (snd k)
     then match dget key_eqb acc k with
          | Some d => if data_truthy d then [mkSave tf [(k, d)] true] else []
          | None => []
          end
     else []).
Proof.
  induction items as [|[[a b] v] r IH]; intros acc Hni Hna.
  - simpl. split; [reflexivity|]. split; [intros _ []|]. intros; reflexivity.
  - simpl in Hni. inversion Hni as [|? ? Hnotin Hni']; subst.
    pose proof (existsb_key_notin (a, b) (map fst r) Hnotin) as Hr.
    cbn [flush_keys map existsb].
    destruct (b + delta <=? latest) eqn:C; [destruct (hc a tf b) eqn:H|].
    + destruct (IH (dpop key_eqb acc (a, b)) Hni' (dpop_NoDup acc (a, b) Hna)) as [I1 [I2 I3]].
      destruct (flush_keys hc tf delta latest r (dpop key_eqb acc (a, b))) as [acc' calls].
      cbn [fst snd] in I1, I2, I3.
      assert (G1 : forall k, dget key_eqb acc' k =
                if (key_eqb k (a, b) || existsb (key_eqb k) (map fst r)) && (snd k + delta <=? latest)
                then None else dget key_eqb acc k).
      { intros k. rewrite I1. destruct (key_eqb k (a, b)) eqn:Ek.
        - apply key_eqb_spec in Ek; subst k. cbn [fst snd orb]. rewrite Hr, C. simpl.
          apply (dget_dpop_eq key_eqb key_eqb_spec acc (a, b) Hna).
        - cbn [orb]. rewrite (dget_dpop_neq key_eqb key_eqb_spec acc (a, b) k
                               (key_neq_of_eqb _ _ Ek)). reflexivity. }
      assert (G3 : forall k, filter (fun sc => dmem key_eqb (s_updates sc) k) calls =
                if (key_eqb k (a, b) || existsb (key_eqb k) (map fst r)) && (snd k + delta <=? latest)
                   && hc (fst k) tf (snd k) && negb (key_eqb k (a, b))
                then match dget key_eqb acc k with
                     | Some d => if data_truthy d then [mkSave tf [(k, d)] true] else []
                     | None => [] end
                else []).
      { intros k. rewrite I3. destruct (key_eqb k (a, b)) eqn:Ek.
        - apply key_eqb_spec in Ek; subst k. cbn [fst snd orb]. rewrite Hr.
          destruct (b + delta <=? latest), (hc a tf b); reflexivity.
        - cbn [orb negb]. rewrite (dget_dpop_neq key_eqb key_eqb_spec acc (a, b) k
                                     (key_neq_of_eqb _ _ Ek)).
          rewrite !andb_true_r. reflexivity. }
      destruct (dget key_eqb acc (a, b)) as [d|] eqn:D; [destruct (data_truthy d) eqn:T|];
        cbn [fst snd]; split; try exact G1; split;
        try (intros sc [<-|Hsc]; [reflexivity | exact (I2 sc Hsc)]); try exact I2;
        intros k; cbn [filter s_updates]; rewrite G3;
        unfold dmem; cbn [dget]; destruct (key_eqb k (a, b)) eqn:Ek;
        try (apply key_eqb_spec in Ek; subst k; cbn [fst snd orb andb negb];
             rewrite C, H, ?D, ?T; reflexivity);
        cbn [orb andb negb]; rewrite ?andb_true_r; reflexivity.
    + destruct (IH (dpop key_eqb acc (a, b)) Hni' (dpop_NoDup acc (a, b) Hna)) as [I1 [I2 I3]].
      destruct (flush_keys hc tf delta latest r (dpop key_eqb acc (a, b))) as [acc' calls].
      cbn [fst snd] in I1, I2, I3 |- *. split; [|split; [exact I2|]].
      * intros k. rewrite I1. destruct (key_eqb k (a, b)) eqn:Ek.
        -- apply key_eqb_spec in Ek; subst k. cbn [fst snd orb]. rewrite Hr, C. simpl.
           apply (dget_dpop_eq key_eqb key_eqb_spec acc (a, b) Hna).
        -- cbn [orb]. rewrite (dget_dpop_neq key_eqb key_eqb_spec acc (a, b) k
                                (key_neq_of_eqb _ _ Ek)). reflexivity.
      * intros k. rewrite I3. destruct (key_eqb k (a, b)) eqn:Ek.
        -- apply key_eqb_spec in Ek; subst k. cbn [fst snd orb]. rewrite Hr, C, H. reflexivity.
        -- cbn [orb]. rewrite (dget_dpop_neq key_eqb key_eqb_spec acc (a, b) k
                                (key_neq_of_eqb _ _ Ek)). reflexivity.
    + destruct (IH acc Hni' Hna) as [I1 [I2 I3]].
      cbn [fst snd]. split; [|split; [exact I2|]].
      * intros k. rewrite I1. destruct (key_eqb k (a, b)) eqn:Ek; [|reflexivity].
        apply key_eqb_spec in Ek; subst k. cbn [fst snd orb]. rewrite Hr, C. reflexivity.
      * intros k. rewrite I3. destruct (key_eqb k (a, b)) eqn:Ek; [|reflexivity].
        apply key_eqb_spec in Ek; subst k. cbn [fst snd orb]. rewrite Hr, C. reflexivity.
Qed.

Lemma flush_keys_tf (hc : Z -> Timeframe -> datetime -> bool) (tf : Timeframe)
    (delta : timedelta) (latest : datetime) (items : list (key * CandleData)) :
  forall (acc : list (key * CandleData)) (sc : SaveCall),
  In sc (snd (flush_keys hc tf delta latest items acc)) -> s_tf sc = tf.
Proof.
  induction items as [|[[a b] v] r IH]; intros acc sc; cbn [flush_keys]; [intros []|].
  destruct (b + delta <=? latest); [destruct (hc a tf b)|].
  - pose proof (IH (dpop key_eqb acc (a, b)) sc) as I.
    destruct (flush_keys hc tf delta latest r (dpop key_eqb acc (a, b))) as [acc' calls].
    destruct (dget key_eqb acc (a, b)) as [d|]; [destruct (data_truthy d)|]; cbn [snd] in I |- *;
      [intros [<-|H]; [reflexivity | exact (I H)] | exact I | exact I].
  - apply IH.
  - apply IH.
Qed.

Lemma flush_tfs_spec (hc : Z -> Timeframe -> datetime -> bool) (latest : datetime)
    (tf : Timeframe) (cfg : list (Timeframe * timedelta)) :
  forall (accs : list (Timeframe * list (key * CandleData))),
  NoDup (map fst cfg) ->
  (forall tf', In tf' (map fst cfg) -> tf' <> TF_1T -> dget tf_eqb accs tf' <> None) ->
  exists accs' calls,
    flush_tfs hc cfg latest accs = Some (accs', calls) /\
    dget tf_eqb accs' tf =
      match dget tf_eqb cfg tf with
      | Some delta =>
          if tf_eqb tf TF_1T then dget tf_eqb accs tf
          else match dget tf_eqb accs tf with
               | Some acc => Some (fst (flush_keys hc tf delta latest acc acc))
               | None => None
               end
      | None => dget tf_eqb accs tf
      end /\
    filter (fun sc => tf_eqb (s_tf sc) tf) calls =
      match dget tf_eqb cfg tf with
      | Some delta =>
          if tf_eqb tf TF_1T then []
          else match dget tf_eqb accs tf with
               | Some acc => snd (flush_keys hc tf delta latest acc acc)
               | None => []
               end
      | None => []
      end.
Proof.
  induction cfg as [|[tf0 d0] r IH]; intros accs Hnd Hacc.
  - exists accs, []. auto.
  - simpl in Hnd. inversion Hnd as [|? ? Hnotin Hnd']; subst.
    assert (Hr0 : dget tf_eqb r tf0 = None)
      by (apply (dget_None_notin tf_eqb tf_eqb_spec); exact Hnotin).
    assert (Hacc' : forall tf', In tf' (map fst r) -> tf' <> TF_1T -> dget tf_eqb accs tf' <> None)
      by (intros; apply Hacc; [right|]; assumption).
    cbn [flush_tfs dget].
    destruct (tf_eqb tf0 TF_1T) eqn:C1.
    { destruct (IH accs Hnd' Hacc') as [accs' [calls [H1 [H2 H3]]]].
      exists accs', calls. split; [exact H1|].
      destruct (tf_eqb tf tf0) eqn:E; [|split; assumption].
      apply tf_eqb_spec in E; subst tf. rewrite H2, H3, Hr0, C1. split; reflexivity. }
    destruct (dget tf_eqb accs tf0) as [acc|] eqn:A;
      [|exfalso; apply (Hacc tf0); [left; reflexivity | intro; subst; discriminate | exact A]].
    destruct acc as [|p acc0].
    { destruct (IH accs Hnd' Hacc') as [accs' [calls [H1 [H2 H3]]]].
      exists accs', calls. split; [exact H1|].
      destruct (tf_eqb tf tf0) eqn:E; [|split; assumption].
      apply tf_eqb_spec in E; subst tf. rewrite H2, H3, Hr0, C1, A. split; reflexivity. }
    pose proof (flush_keys_tf hc tf0 d0 latest (p :: acc0) (p :: acc0)) as Htf.
    destruct (flush_keys hc tf0 d0 latest (p :: acc0) (p :: acc0)) as [acc' calls] eqn:F.
    cbn [snd] in Htf.
    set (accs1 := dset tf_eqb accs tf0 acc').
    assert (Hacc1 : forall tf', In tf' (map fst r) -> tf' <> TF_1T -> dget tf_eqb accs1 tf' <> None).
    { intros tf' Hin Hn. unfold accs1. destruct (tf_eqb tf0 tf') eqn:E.
      - apply tf_eqb_spec in E; subst tf'. rewrite (dget_dset_eq tf_eqb tf_eqb_spec). discriminate.
      - rewrite (dget_dset_neq tf_eqb tf_eqb_spec accs tf0 tf' acc'
                   (fun H => tf_neq_of_eqb _ _ E (eq_sym H))).
        apply Hacc'; assumption. }
    destruct (IH accs1 Hnd' Hacc1) as [accs' [calls' [H1 [H2 H3]]]].
    rewrite H1. exists accs', (calls ++ calls'). split; [reflexivity|].
    rewrite filter_app, (filter_tf_all tf0 tf calls Htf), H2, H3.
    destruct (tf_eqb tf tf0) eqn:E.
    + apply tf_eqb_spec in E; subst tf.
      rewrite Hr0, (eqk_refl tf_eqb tf_eqb_spec), C1, A, F. unfold accs1.
      rewrite (dget_dset_eq tf_eqb tf_eqb_spec), app_nil_r. split; reflexivity.
    + pose proof (tf_neq_of_eqb _ _ E) as Hne.
      rewrite (eqk_false tf_eqb tf_eqb_spec tf0 tf) by (intro; subst; apply Hne; reflexivity).
      unfold accs1. rewrite (dget_dset_neq tf_eqb tf_eqb_spec accs tf0 tf acc' Hne).
      split; reflexivity.
Qed.

(** C2.  Let [acc] be the accumulator of a higher timeframe [tf] of
    duration [delta], and [(aid, bts)] one of its (non-empty) entries with
    data [d].  After [flush_closed latest_m1]: if the bucket has closed
    ([bts + delta <= latest_m1]) the entry is gone from the accumulator, and
    the save calls for [tf] carrying the key are exactly one snapshot write
    of [d] when [is_historical_complete aid tf bts] holds, and none
    otherwise; if the bucket is still open, the entry is kept unchanged and
    no save call for [tf] carries the key. *)
Theorem flush_closed_guarded (hc : Z -> Timeframe -> datetime -> bool) (agg : Aggregator)
    (latest : datetime) (tf : Timeframe) (delta : timedelta) (acc : list (key * CandleData)) :
  NoDup (map fst (tf_cfg agg)) ->
  (forall tf', In tf' (map fst (tf_cfg agg)) -> tf' <> TF_1T ->
               dget tf_eqb (_tf_acc agg) tf' <> None) ->
  tf <> TF_1T ->
  dget tf_eqb (tf_cfg agg) tf = Some delta ->
  dget tf_eqb (_tf_acc agg) tf = Some acc ->
  NoDup (map fst acc) ->
  exists agg' calls acc',
    flush_closed hc agg latest = Some (agg', calls) /\
    dget tf_eqb (_tf_acc agg') tf = Some acc' /\
    forall aid bts d,
      dget key_eqb acc (aid, bts) = Some d -> data_truthy d = true ->
      (bts + delta <= latest ->
         dget key_eqb acc' (aid, bts) = None /\
         filter (fun sc => tf_eqb (s_tf sc) tf && dmem key_eqb (s_updates sc) (aid, bts)) calls =
           if hc aid tf bts then [mkSave tf [((aid, bts), d)] true] else []) /\
      (latest < bts + delta ->
         dget key_eqb acc' (aid, bts) = Some d /\
         filter (fun sc => tf_eqb (s_tf sc) tf && dmem key_eqb (s_updates sc) (aid, bts)) calls = []).
Proof.
  intros Hnd Hacc H1T Hdelta Hatf Hna.
  destruct (flush_tfs_spec hc latest tf (tf_cfg agg) (_tf_acc agg) Hnd Hacc)
    as [accs' [calls [H1 [H2 H3]]]].
  rewrite Hdelta, (eqk_false tf_eqb tf_eqb_spec tf TF_1T H1T), Hatf in H2, H3.
  destruct (flush_keys_spec hc tf delta latest acc acc Hna Hna) as [K1 [_ K3]].
  exists (with_tf_acc agg accs'), calls, (fst (flush_keys hc tf delta latest acc acc)).
  split; [unfold flush_closed; rewrite H1; reflexivity|].
  split; [exact H2|].
  intros aid bts d Hd Htr.
  assert (Hex : existsb (key_eqb (aid, bts)) (map fst acc) = true).
  { apply existsb_exists. exists (aid, bts). split.
    - apply (in_map fst acc ((aid, bts), d)), (dget_In key_eqb key_eqb_spec), Hd.
    - apply (eqk_refl key_eqb key_eqb_spec). }
  rewrite filter_andb, H3, K1, K3. cbn [fst snd]. rewrite Hex, Hd, Htr.
  split.
  - intros Hcl. apply Z.leb_le in Hcl. rewrite Hcl. split; [reflexivity|].
    destruct (hc aid tf bts); reflexivity.
  - intros Hop. assert (Hcl : (bts + delta <=? latest) = false) by (apply Z.leb_gt; exact Hop).
    rewrite Hcl. split; reflexivity.
Qed.

(** Witness: at [latest_m1 = 300 s] the 5-minute bucket at 0 of asset 1 has
    closed and the one at 300 s is open; the guard answers [true]. *)
Lemma flush_closed_guarded_witness :
  exists agg' calls acc',
    flush_closed (fun _ _ _ => true)
      (mkAgg TF_CFG
         [(TF_5T, [((1, 0), new_acc_entry (mkM1 (Some 5) (Some 6) (Some 4) (Some 5) (Some 3)));
                   ((1, 300 * usec_per_sec),
                    new_acc_entry (mkM1 (Some 5) (Some 7) (Some 5) (Some 6) (Some 1)))]);
          (TF_15T, []); (TF_30T, []); (TF_1H, []); (TF_4H, []); (TF_1D, [])] [] 250000)
      (300 * usec_per_sec) = Some (agg', calls) /\
    dget tf_eqb (_tf_acc agg') TF_5T = Some acc' /\
    forall aid bts d,
      dget key_eqb [((1, 0), new_acc_entry (mkM1 (Some 5) (Some 6) (Some 4) (Some 5) (Some 3)));
                    ((1, 300 * usec_per_sec),
                     new_acc_entry (mkM1 (Some 5) (Some 7) (Some 5) (Some 6) (Some 1)))]
        (aid, bts) = Some d -> data_truthy d = true ->
      (bts + minutes 5 <= 300 * usec_per_sec ->
         dget key_eqb acc' (aid, bts) = None /\
         filter (fun sc => tf_eqb (s_tf sc) TF_5T && dmem key_eqb (s_updates sc) (aid, bts)) calls =
           if true then [mkSave TF_5T [((aid, bts), d)] true] else []) /\
      (300 * usec_per_sec < bts + minutes 5 ->
         dget key_eqb acc' (aid, bts) = Some d /\
         filter (fun sc => tf_eqb (s_tf sc) TF_5T && dmem key_eqb (s_updates sc) (aid, bts)) calls = []).
Proof.
  apply (flush_closed_guarded (fun _ _ _ => true)).
  - vm_compute. repeat constructor; intros H; repeat (destruct H as [H|H]; [discriminate H|]); exact H.
  - intros tf' Hin Hn E. simpl in Hin.
    repeat (destruct Hin as [<-|Hin]; [try (apply Hn; reflexivity); discriminate E|]). exact Hin.
  - discriminate.
  - reflexivity.
  - reflexivity.
  - vm_compute. repeat constructor; intros H; repeat (destruct H as [H|H]; [discriminate H|]); exact H.
Defined.

(* ------------------------------------------------------------------------- *)
(** ** C9: which assets [maybe_schedule_for_assets] schedules *)

(** C9 (counterexample).  Asset 7 has no 1-minute candle and was never
    requested (its cooldown has elapsed at [now = 1000 s]), but it has no
    active watchlist entry: [maybe_schedule_for_assets] makes no backfill
    request for it (no job is queued) and returns the empty set. *)
Lemma maybe_schedule_for_assets_needs_watchlist :
  maybe_schedule_for_assets default_guard (fun _ => []) true (mkStore [] 1)
    (1000 * usec_per_sec) (1000 * usec_per_sec) [7] (mkBroker (mkCache [] true) []) =
  (default_guard, mkBroker (mkCache [] true) [], []) /\
  latest_ts (candle_timestamps (mkStore [] 1) 7 TF_1T) = None /\
  (cooldown_secs default_guard * usec_per_sec <=?
     1000 * usec_per_sec - match dget Z.eqb (_last_request default_guard) 7 with
                           | Some t => t | None => 0 end) = true.
Proof. vm_compute. repeat split. Qed.

Lemma request_backfill_up (a ttl now : Z) (b : Broker) :
  cache_up (cache b) = true ->
  exists r b', request_backfill a ttl now b = Ok (r, b') /\ cache_up (cache b') = true.
Proof.
  intros Hup. unfold request_backfill, cache_add, cache_get. rewrite Hup.
  destruct (match dget ck_eqb (entries (cache b)) (Queued a) with
            | Some (v, exp) => if now <? exp then Some v else None
            | None => None end).
  - exists false, b. auto.
  - eexists _, _. split; [reflexivity | first [reflexivity | exact Hup]].
Qed.

Lemma needs_backfill_other (g : BackfillGuard) (wla_ids : Z -> list Z) (st : Store)
    (now_s now_dt a a' : Z) :
  a <> a' ->
  needs_backfill (mkGuard (cooldown_secs g) (gap_threshold_secs g)
                    (dset Z.eqb (_last_request g) a now_s)) wla_ids st now_s now_dt a' =
  needs_backfill g wla_ids st now_s now_dt a'.
Proof.
  intros Hne. unfold needs_backfill. cbn [cooldown_secs gap_threshold_secs _last_request].
  rewrite (dget_dset_neq Z.eqb Z_eqb_spec' _ a a' now_s Hne). reflexivity.
Qed.

Lemma schedule_loop_step (wla_ids : Z -> list Z) (st : Store) (now_s now_dt : Z)
    (a : Z) (r : list Z) (g : BackfillGuard) (b : Broker) (sched : list Z) :
  cache_up (cache b) = true -> in_Z a sched = false ->
  schedule_loop wla_ids true st now_s now_dt (a :: r) g b sched =
  if needs_backfill g wla_ids st now_s now_dt a
  then schedule_loop wla_ids true st now_s now_dt r
         (mkGuard (cooldown_secs g) (gap_threshold_secs g) (dset Z.eqb (_last_request g) a now_s))
         (match request_backfill a TTL_SECONDS now_s b with Ok (_, b') => b' | Raise => b end)
         (sched ++ [a])
  else schedule_loop wla_ids true st now_s now_dt r g b sched.
Proof.
  intros Hup Hfresh.
  destruct (request_backfill_up a TTL_SECONDS now_s b Hup) as [x [b1 [Hrb _]]].
  assert (Hs : set_add sched a = sched ++ [a]) by (unfold set_add; rewrite Hfresh; reflexivity).
  cbn [schedule_loop negb]. unfold needs_backfill, _maybe_schedule. cbn [negb].
  rewrite Hrb.
  destruct (latest_ts (candle_timestamps st a TF_1T)) as [lt|];
    [destruct (gap_threshold_secs g * usec_per_sec <? now_dt - lt)|];
    cbn [andb]; try reflexivity;
    destruct (cooldown_secs g * usec_per_sec <=?
                now_s - match dget Z.eqb (_last_request g) a with
                        | Some t => t | None => 0 end);
    cbn [andb]; try reflexivity;
    destruct (wla_ids a); cbn [add_if_true]; rewrite ?Hs; reflexivity.
Qed.

Lemma schedule_loop_spec (wla_ids : Z -> list Z) (st : Store) (now_s now_dt : Z)
    (ids : list Z) :
  forall (g : BackfillGuard) (b : Broker) (sched : list Z),
  NoDup ids -> cache_up (cache b) = true ->
  (forall a, In a ids -> in_Z a sched = false) ->
  exists g',
    schedule_loop wla_ids true st now_s now_dt ids g b sched =
    (g', fold_left (fun b a => match request_backfill a TTL_SECONDS now_s b with
                               | Ok (_, b') => b' | Raise => b end)
           (filter (needs_backfill g wla_ids st now_s now_dt) ids) b,
     sched ++ filter (needs_backfill g wla_ids st now_s now_dt) ids).
Proof.
  induction ids as [|a r IH]; intros g b sched Hnd Hup Hfresh.
  - exists g. simpl. rewrite app_nil_r. reflexivity.
  - inversion Hnd as [|? ? Hnotin Hnd']; subst.
    assert (Hfresh' : forall a', In a' r -> in_Z a' sched = false)
      by (intros; apply Hfresh; right; assumption).
    rewrite (schedule_loop_step wla_ids st now_s now_dt a r g b sched Hup
               (Hfresh a (or_introl eq_refl))).
    cbn [filter]. destruct (needs_backfill g wla_ids st now_s now_dt a) eqn:N.
    + destruct (request_backfill_up a TTL_SECONDS now_s b Hup) as [x [b1 [Hrb Hup1]]].
      assert (Hfresh1 : forall a', In a' r -> in_Z a' (sched ++ [a]) = false).
      { intros a' Ha'. unfold in_Z. rewrite existsb_app. cbn [existsb].
        fold (in_Z a' sched). rewrite (Hfresh' a' Ha').
        rewrite (eqk_false Z.eqb Z_eqb_spec' a' a) by (intro; subst; contradiction).
        reflexivity. }
      rewrite Hrb.
      destruct (IH (mkGuard (cooldown_secs g) (gap_threshold_secs g)
                      (dset Z.eqb (_last_request g) a now_s)) b1 (sched ++ [a]) Hnd' Hup1 Hfresh1)
        as [g' E].
      exists g'. rewrite E. cbn [fold_left]. rewrite Hrb.
      assert (Hf : filter (needs_backfill (mkGuard (cooldown_secs g) (gap_threshold_secs g)
                             (dset Z.eqb (_last_request g) a now_s)) wla_ids st now_s now_dt) r =
                   filter (needs_backfill g wla_ids st now_s now_dt) r).
      { apply filter_ext_in. intros a' Ha'. apply needs_backfill_other.
        intro; subst; contradiction. }
      rewrite Hf, <- app_assoc. reflexivity.
    + exact (IH g b sched Hnd' Hup Hfresh').
Qed.

(** C9 (amended).  For a list of distinct asset ids, with the database and
    the cache reachable: [maybe_schedule_for_assets] calls [request_backfill]
    exactly for the assets, in order, whose 1-minute data is missing or
    stale, whose cooldown has elapsed and which have an active watchlist
    entry ([needs_backfill]); the returned set is exactly those assets,
    whether or not [request_backfill] found a job already queued. *)
Theorem maybe_schedule_for_assets_spec (g : BackfillGuard) (wla_ids : Z -> list Z)
    (st : Store) (now_s now_dt : Z) (asset_ids : list Z) (b : Broker) :
  NoDup asset_ids -> cache_up (cache b) = true ->
  exists g',
    maybe_schedule_for_assets g wla_ids true st now_s now_dt asset_ids b =
    (g', fold_left (fun b a => match request_backfill a TTL_SECONDS now_s b with
                               | Ok (_, b') => b' | Raise => b end)
           (filter (needs_backfill g wla_ids st now_s now_dt) asset_ids) b,
     filter (needs_backfill g wla_ids st now_s now_dt) asset_ids).
Proof.
  intros Hnd Hup. unfold maybe_schedule_for_assets.
  exact (schedule_loop_spec wla_ids st now_s now_dt asset_ids g b [] Hnd Hup
           (fun a _ => eq_refl)).
Qed.

(** Witness: asset 1 has no data and a watchlist entry, asset 2 has fresh
    data, asset 3 has no data but no watchlist entry: only asset 1 is
    scheduled. *)
Lemma maybe_schedule_for_assets_spec_witness :
  NoDup [1; 2; 3] /\
  exists g',
    maybe_schedule_for_assets default_guard (fun a => if a =? 1 then [10] else [])
      true (mkStore [((2, TF_1T, 990 * usec_per_sec),
                      mkCandle 1 (Some 1) (Some 1) (Some 1) (Some 1) (Some 1) None)] 2)
      (1000 * usec_per_sec) (1000 * usec_per_sec) [1; 2; 3] (mkBroker (mkCache [] true) []) =
    (g', fold_left (fun b a => match request_backfill a TTL_SECONDS (1000 * usec_per_sec) b with
                               | Ok (_, b') => b' | Raise => b end)
           (filter (needs_backfill default_guard (fun a => if a =? 1 then [10] else [])
                      (mkStore [((2, TF_1T, 990 * usec_per_sec),
                                 mkCandle 1 (Some 1) (Some 1) (Some 1) (Some 1) (Some 1) None)] 2)
                      (1000 * usec_per_sec) (1000 * usec_per_sec)) [1; 2; 3])
           (mkBroker (mkCache [] true) []),
     filter (needs_backfill default_guard (fun a => if a =? 1 then [10] else [])
               (mkStore [((2, TF_1T, 990 * usec_per_sec),
                          mkCandle 1 (Some 1) (Some 1) (Some 1) (Some 1) (Some 1) None)] 2)
               (1000 * usec_per_sec) (1000 * usec_per_sec)) [1; 2; 3]).
Proof.
  split.
  - repeat constructor; simpl; lia.
  - apply maybe_schedule_for_assets_spec.
    + repeat constructor; simpl; lia.
    + reflexivity.
Defined.

(* ------------------------------------------------------------------------- *)
(** ** C10: the keys [fetch_minute_ids] returns *)

Lemma fold_dset_cid_None (l : list (key * Candle)) :
  forall (out : list (key * Z)) (k : key),
  dget key_eqb (fold_left (fun out '(k, c) => dset key_eqb out k (cid c)) l out) k = None <->
  dget key_eqb out k = None /\ ~ In k (map fst l).
Proof.
  induction l as [|[k0 c0] r IH]; intros out k; simpl; [tauto|].
  rewrite IH. destruct (key_eqb k0 k) eqn:E.
  - apply key_eqb_spec in E; subst k0.
    rewrite (dget_dset_eq key_eqb key_eqb_spec).
    split; [intros [H _]; discriminate | intros [_ H]; exfalso; apply H; left; reflexivity].
  - assert (Hne : k0 <> k) by (intro; subst; rewrite (eqk_refl key_eqb key_eqb_spec) in E;
                               discriminate).
    rewrite (dget_dset_neq key_eqb key_eqb_spec out k0 k _ Hne).
    split; [intros [H1 H2]; split; [exact H1 | intros [H|H]; [congruence | tauto]] | tauto].
Qed.

Lemma fold_dset_cid_Some (l : list (key * Candle)) :
  forall (out : list (key * Z)) (k : key),
  NoDup (map fst l) ->
  dget key_eqb (fold_left (fun out '(k, c) => dset key_eqb out k (cid c)) l out) k =
  match dget key_eqb l k with Some c => Some (cid c) | None => dget key_eqb out k end.
Proof.
  induction l as [|[k0 c0] r IH]; intros out k Hnd; simpl; [reflexivity|].
  inversion Hnd as [|? ? Hnotin Hnd']; subst.
  rewrite (IH _ k Hnd'). destruct (key_eqb k k0) eqn:E.
  - apply key_eqb_spec in E; subst k0.
    rewrite (proj2 (dget_None_notin key_eqb key_eqb_spec r k) Hnotin).
    apply (dget_dset_eq key_eqb key_eqb_spec).
  - destruct (dget key_eqb r k); [reflexivity|].
    apply (dget_dset_neq key_eqb key_eqb_spec). intro; subst.
    rewrite (eqk_refl key_eqb key_eqb_spec) in E; discriminate.
Qed.

Lemma query_rows_keys_in (tf : Timeframe) (asset_ids minutes : list Z)
    (rs : list (tkey * Candle)) (n : Z) (k : key) :
  In k (map fst (query_rows tf asset_ids minutes (mkStore rs n))) ->
  In (fst k, tf, snd k) (map fst rs).
Proof.
  unfold query_rows. cbn [rows].
  induction rs as [|[[[a tf'] t] c] r IH]; simpl; [tauto|].
  destruct (in_Z a asset_ids && in_Z t minutes && tf_eqb tf' tf) eqn:F; simpl.
  - intros [H|H]; [|right; exact (IH H)].
    subst k. apply andb_true_iff in F as [_ F]. apply tf_eqb_spec in F; subst. left; reflexivity.
  - intros H; right; exact (IH H).
Qed.

Lemma query_rows_NoDup (tf : Timeframe) (asset_ids minutes : list Z) (st : Store) :
  NoDup (map fst (rows st)) -> NoDup (map fst (query_rows tf asset_ids minutes st)).
Proof.
  destruct st as [rs n]. cbn [rows].
  induction rs as [|[[[a tf'] t] c] r IH]; intros Hnd; [constructor|].
  inversion Hnd as [|? ? Hnotin Hnd']; subst.
  pose proof (query_rows_keys_in tf asset_ids minutes r n) as Hin.
  unfold query_rows in *; cbn [rows filter] in *.
  destruct (in_Z a asset_ids && in_Z t minutes && tf_eqb tf' tf) eqn:F; cbn [map fst].
  - constructor; [|exact (IH Hnd')].
    intros H. apply Hin in H. cbn [fst snd] in H.
    apply andb_true_iff in F as [_ F]. apply tf_eqb_spec in F; subst. contradiction.
  - exact (IH Hnd').
Qed.

(** C10.  The keys of [fetch_minute_ids K] are exactly the pairs [(a, t)]
    with [a] among the asset ids of [K], [t] among the timestamps of [K] and
    a 1-minute row stored at [(a, t)]: the product of [K]'s projections, not
    [K].  Every requested key with a stored 1-minute row is mapped to the
    row's id (rows being unique per [(asset, timeframe, timestamp)]), and
    for [K = [(1, 10); (2, 20)]] with a 1-minute row at [(1, 20)] the result
    also holds the unrequested key [(1, 20)]. *)
Theorem fetch_minute_ids_domain :
  (forall (K : list key) (st : Store) (a t : Z),
     dget key_eqb (fetch_minute_ids K st) (a, t) <> None <->
     In a (map fst K) /\ In t (map snd K) /\ dget tkey_eqb (rows st) (a, TF_1T, t) <> None) /\
  (forall (K : list key) (st : Store) (a t : Z) (c : Candle),
     NoDup (map fst (rows st)) -> In (a, t) K ->
     dget tkey_eqb (rows st) (a, TF_1T, t) = Some c ->
     dget key_eqb (fetch_minute_ids K st) (a, t) = Some (cid c)) /\
  (~ In (1, 20) [(1, 10); (2, 20)] /\
   dget key_eqb (fetch_minute_ids [(1, 10); (2, 20)]
                   (mkStore [((1, TF_1T, 20), mkCandle 5 (Some 1) (Some 1) (Some 1) (Some 1)
                                                (Some 1) None)] 6)) (1, 20) = Some 5).
Proof.
  split; [|split].
  - intros K st a t. destruct K as [|k0 K'].
    + simpl. split; [intros H; exfalso; apply H; reflexivity | tauto].
    + set (K := k0 :: K').
      assert (F : fetch_minute_ids K st =
                  fold_left (fun out '(k, c) => dset key_eqb out k (cid c))
                    (query_rows TF_1T (map fst K) (map snd K) st) []) by reflexivity.
      rewrite F.
      set (l := query_rows TF_1T (map fst K) (map snd K) st).
      assert (E : dget key_eqb (fold_left (fun out '(k, c) => dset key_eqb out k (cid c)) l [])
                    (a, t) = None <-> dget key_eqb l (a, t) = None).
      { rewrite fold_dset_cid_None, (dget_None_notin key_eqb key_eqb_spec l (a, t)). cbn [dget].
        split; [intros [_ H]; exact H | intros H; split; [reflexivity | exact H]]. }
      assert (G : dget key_eqb (fold_left (fun out '(k, c) => dset key_eqb out k (cid c)) l [])
                    (a, t) <> None <-> dget key_eqb l (a, t) <> None)
        by (split; intros H1 H2; apply H1, E, H2).
      rewrite G. unfold l. rewrite query_rows_get.
      destruct (in_Z a (map fst K)) eqn:A; destruct (in_Z t (map snd K)) eqn:T;
        cbn [andb]; rewrite <- (in_Z_In a), <- (in_Z_In t), A, T;
        (split; [intros H; first [exfalso; apply H; reflexivity | repeat split; assumption]
                | intros [Ha [Ht H]]; first [discriminate | assumption]]).
  - intros K st a t c Hnd Hin Hc. destruct K as [|k0 K']; [destruct Hin|].
    unfold fetch_minute_ids. cbn zeta.
    rewrite (fold_dset_cid_Some _ [] (a, t) (query_rows_NoDup TF_1T _ _ st Hnd)).
    rewrite query_rows_get.
    assert (Ha : in_Z a (map fst (k0 :: K')) = true)
      by (apply in_Z_In, (in_map fst _ (a, t)), Hin).
    assert (Ht : in_Z t (map snd (k0 :: K')) = true)
      by (apply in_Z_In, (in_map snd _ (a, t)), Hin).
    rewrite Ha, Ht. cbn [andb]. unfold datetime in *. rewrite Hc. reflexivity.
  - split; [simpl; intros [H|[H|[]]]; discriminate | reflexivity].
Qed.

(** Witness: the value part on [K = [(1, 10); (2, 20)]] with 1-minute rows at
    [(1, 10)] and [(1, 20)]. *)
Lemma fetch_minute_ids_domain_witness :
  dget key_eqb (fetch_minute_ids [(1, 10); (2, 20)]
                  (mkStore [((1, TF_1T, 10), mkCandle 4 (Some 1) (Some 1) (Some 1) (Some 1) (Some 1) None);
                            ((1, TF_1T, 20), mkCandle 5 (Some 1) (Some 1) (Some 1) (Some 1) (Some 1) None)]
                     6)) (1, 10) = Some 4.
Proof.
  apply (proj1 (proj2 fetch_minute_ids_domain) [(1, 10); (2, 20)]
           (mkStore [((1, TF_1T, 10), mkCandle 4 (Some 1) (Some 1) (Some 1) (Some 1) (Some 1) None);
                     ((1, TF_1T, 20), mkCandle 5 (Some 1) (Some 1) (Some 1) (Some 1) (Some 1) None)] 6)
           1 10 (mkCandle 4 (Some 1) (Some 1) (Some 1) (Some 1) (Some 1) None)).
  - cbn. constructor; [simpl; intros [H|[]]; discriminate | constructor; [intros [] | constructor]].
  - left; reflexivity.
  - reflexivity.
Defined.

(* ========================================================================= *)
(** * Further properties of the code *)

(* ------------------------------------------------------------------------- *)
(** ** [reset_for_asset] and [_on_assets_added] *)

Lemma fold_dpop_skip (keys : list key) (k : key) (v : CandleData) :
  forall m, (forall k', In k' keys -> k' <> k) ->
  fold_left (fun acc k => dpop key_eqb acc k) keys ((k, v) :: m) =
  (k, v) :: fold_left (fun acc k => dpop key_eqb acc k) keys m.
Proof.
  induction keys as [|k' r IH]; intros m Hne; simpl; [reflexivity|].
  rewrite (eqk_false key_eqb key_eqb_spec k' k) by (apply Hne; left; reflexivity).
  apply IH. intros k'' H; apply Hne; right; exact H.
Qed.

Lemma reset_acc_filter (asset_id : Z) (acc : list (key * CandleData)) :
  reset_acc asset_id acc = filter (fun kv => negb (fst (fst kv) =? asset_id)) acc.
Proof.
  unfold reset_acc.
  induction acc as [|[k v] r IH]; [reflexivity|]. cbn [filter fst].
  destruct (fst k =? asset_id) eqn:E; cbn [map fst negb fold_left].
  - cbn [dpop]. rewrite (eqk_refl key_eqb key_eqb_spec). exact IH.
  - rewrite fold_dpop_skip; [rewrite IH; reflexivity|].
    intros k' Hin Heq; subst k'.
    apply in_map_iff in Hin as [[k0 v0] [Hk Hin]]. cbn [fst] in Hk; subst k0.
    apply filter_In in Hin as [_ Hin]. cbn [fst] in Hin. congruence.
Qed.

Lemma dget_filter_asset (asset_id : Z) (acc : list (key * CandleData)) (k : key) :
  dget key_eqb (filter (fun kv => negb (fst (fst kv) =? asset_id)) acc) k =
  if fst k =? asset_id then None else dget key_eqb acc k.
Proof.
  induction acc as [|[k0 v0] r IH]; simpl; [destruct (fst k =? asset_id); reflexivity|].
  destruct (fst k0 =? asset_id) eqn:E0; cbn [negb].
  - rewrite IH. destruct (key_eqb k k0) eqn:E; [|reflexivity].
    apply key_eqb_spec in E; subst k0. rewrite E0. reflexivity.
  - cbn [dget]. destruct (key_eqb k k0) eqn:E; [|exact IH].
    apply key_eqb_spec in E; subst k0. rewrite E0. reflexivity.
Qed.

Lemma dget_map_snd {A B : Type} (f : A -> B) (l : list (Timeframe * A)) (tf : Timeframe) :
  dget tf_eqb (map (fun tfa => (fst tfa, f (snd tfa))) l) tf = option_map f (dget tf_eqb l tf).
Proof.
  induction l as [|[tf0 a] r IH]; simpl; [reflexivity|].
  destruct (tf_eqb tf tf0); [reflexivity | exact IH].
Qed.

Lemma reset_for_asset_get (agg : Aggregator) (asset_id : Z) (tf : Timeframe) (k : key) :
  option_map (fun acc => dget key_eqb acc k) (dget tf_eqb (_tf_acc (reset_for_asset agg asset_id)) tf) =
  option_map (fun acc => if fst k =? asset_id then None else dget key_eqb acc k)
    (dget tf_eqb (_tf_acc agg) tf).
Proof.
  unfold reset_for_asset, with_tf_acc. cbn [_tf_acc].
  rewrite dget_map_snd. destruct (dget tf_eqb (_tf_acc agg) tf) as [acc|]; [|reflexivity].
  cbn [option_map]. rewrite reset_acc_filter, dget_filter_asset. reflexivity.
Qed.

(** [reset_for_asset(asset_id)] keeps the set of timeframes and every other
    field of the aggregator; in the accumulator of each timeframe it removes
    every key of [asset_id] and leaves the entry of every key of another
    asset as it was. *)
Theorem reset_for_asset_spec (agg : Aggregator) (asset_id : Z) :
  map fst (_tf_acc (reset_for_asset agg asset_id)) = map fst (_tf_acc agg) /\
  tf_cfg (reset_for_asset agg asset_id) = tf_cfg agg /\
  _last_open_flush (reset_for_asset agg asset_id) = _last_open_flush agg /\
  _open_flush_secs (reset_for_asset agg asset_id) = _open_flush_secs agg /\
  (forall tf k,
     option_map (fun acc => dget key_eqb acc k)
       (dget tf_eqb (_tf_acc (reset_for_asset agg asset_id)) tf) =
     option_map (fun acc => if fst k =? asset_id then None else dget key_eqb acc k)
       (dget tf_eqb (_tf_acc agg) tf)).
Proof.
  split; [|split; [reflexivity | split; [reflexivity | split; [reflexivity|]]]].
  - unfold reset_for_asset, with_tf_acc. cbn [_tf_acc]. rewrite map_map. reflexivity.
  - intros tf k. apply reset_for_asset_get.
Qed.

Lemma schedule_loop_from_ids (wla_ids : Z -> list Z) (db_up : bool) (st : Store)
    (now_s now_dt : Z) (ids : list Z) :
  forall g b sched g' b' sched',
  schedule_loop wla_ids db_up st now_s now_dt ids g b sched = (g', b', sched') ->
  forall a, In a sched' -> In a sched \/ In a ids.
Proof.
  induction ids as [|x r IH]; intros g b sched g' b' sched' H a Ha; cbn [schedule_loop] in H.
  - inversion H; subst. left; exact Ha.
  - assert (Hadd : forall res, In a (add_if_true res sched x) -> In a sched \/ a = x).
    { intros res Hin. destruct res as [[|]|]; cbn [add_if_true] in Hin; try (left; exact Hin).
      unfold set_add in Hin. destruct (in_Z x sched); [left; exact Hin|].
      apply in_app_or in Hin as [Hin|[Hin|[]]]; [left; exact Hin | right; congruence]. }
    destruct (negb db_up).
    + destruct (IH _ _ _ _ _ _ H a Ha); [left | right; right]; assumption.
    + destruct (latest_ts (candle_timestamps st x TF_1T)) as [lt|];
        [destruct (gap_threshold_secs g * usec_per_sec <? now_dt - lt)|].
      all: try (destruct (_maybe_schedule g wla_ids db_up x now_s b) as [[g1 b1] res]).
      all: destruct (IH _ _ _ _ _ _ H a Ha) as [Hin|Hin]; try (right; right; exact Hin).
      all: try (left; exact Hin).
      all: destruct (Hadd _ Hin) as [Hs|Hs]; [left; exact Hs | right; left; congruence].
Qed.

Lemma fold_reset_get (ids : list Z) :
  forall (agg : Aggregator) tf k,
  option_map (fun acc => dget key_eqb acc k) (dget tf_eqb (_tf_acc (fold_left reset_for_asset ids agg)) tf) =
  option_map (fun acc => if in_Z (fst k) ids then None else dget key_eqb acc k)
    (dget tf_eqb (_tf_acc agg) tf).
Proof.
  induction ids as [|a r IH]; intros agg tf k; cbn [fold_left].
  - destruct (dget tf_eqb (_tf_acc agg) tf); reflexivity.
  - rewrite IH.
    assert (H := reset_for_asset_get agg a tf k).
    destruct (dget tf_eqb (_tf_acc (reset_for_asset agg a)) tf) as [acc'|];
      destruct (dget tf_eqb (_tf_acc agg) tf) as [acc|]; cbn [option_map] in *; try discriminate;
      [|reflexivity].
    assert (Hin : in_Z (fst k) (a :: r) = (fst k =? a) || in_Z (fst k) r) by reflexivity.
    rewrite Hin. destruct (fst k =? a); cbn [orb] in *.
    + inversion H as [H']. rewrite H'. destruct (in_Z (fst k) r); reflexivity.
    + inversion H as [H']. rewrite H'. reflexivity.
Qed.

(** [_on_assets_added(symbols)] reports as scheduled only ids that the
    asset cache gives for the new symbols, and afterwards the accumulators
    hold no key of a scheduled asset while every key of any other asset keeps
    its entry: accumulators are reset exactly for the scheduled assets. *)
Theorem _on_assets_added_resets_scheduled (asset_cache : list (string * Z)) (symbols : list string)
    (g : BackfillGuard) (wla_ids : Z -> list Z) (db_up : bool) (st : Store)
    (now_s now_dt : Z) (b : Broker) (agg : Aggregator) :
  let '(g', b', scheduled, agg') :=
    _on_assets_added asset_cache symbols g wla_ids db_up st now_s now_dt b agg in
  (forall a, In a scheduled -> exists s, In s symbols /\ dget String.eqb asset_cache s = Some a) /\
  (forall tf k,
     option_map (fun acc => dget key_eqb acc k) (dget tf_eqb (_tf_acc agg') tf) =
     option_map (fun acc => if in_Z (fst k) scheduled then None else dget key_eqb acc k)
       (dget tf_eqb (_tf_acc agg) tf)).
Proof.
  unfold _on_assets_added.
  destruct (maybe_schedule_for_assets g wla_ids db_up st now_s now_dt
              (flat_map (fun s => match dget String.eqb asset_cache s with
                                  | Some a => [a] | None => [] end) symbols) b)
    as [[g' b'] sched] eqn:E.
  split.
  - intros a Ha. unfold maybe_schedule_for_assets in E.
    destruct (schedule_loop_from_ids _ _ _ _ _ _ _ _ _ _ _ _ E a Ha) as [[]|Hin].
    apply in_flat_map in Hin as [s [Hs Hin]]. exists s. split; [exact Hs|].
    destruct (dget String.eqb asset_cache s); [|destruct Hin].
    destruct Hin as [Hin|[]]; subst; reflexivity.
  - intros tf k. apply fold_reset_get.
Qed.

(* ------------------------------------------------------------------------- *)
(** ** [floor_to_bucket] *)

Lemma usec_per_min_pos : 0 < usec_per_min.
Proof. unfold usec_per_min, usec_per_sec; lia. Qed.

(** Flooring a bucket start again gives it back, for every duration. *)
Theorem floor_to_bucket_idempotent (ts : datetime) (delta : timedelta) :
  floor_to_bucket (floor_to_bucket ts delta) delta = floor_to_bucket ts delta.
Proof.
  pose proof usec_per_min_pos as HU.
  unfold floor_to_bucket.
  destruct (delta / usec_per_min <=? 0) eqn:E.
  - replace (ts - ts mod usec_per_min) with (ts / usec_per_min * usec_per_min)
      by (pose proof (Z.div_mod ts usec_per_min ltac:(lia)); lia).
    rewrite Z.mod_mul by lia. lia.
  - apply Z.leb_gt in E. rewrite Z.div_mul by lia.
    rewrite Z.div_mul by lia. reflexivity.
Qed.

(** [floor_to_bucket] is monotone in the timestamp, for every duration. *)
Theorem floor_to_bucket_monotone (ts1 ts2 : datetime) (delta : timedelta) :
  ts1 <= ts2 -> floor_to_bucket ts1 delta <= floor_to_bucket ts2 delta.
Proof.
  pose proof usec_per_min_pos as HU. intros Hle.
  unfold floor_to_bucket.
  assert (Hd : ts1 / usec_per_min <= ts2 / usec_per_min) by (apply Z.div_le_mono; lia).
  destruct (delta / usec_per_min <=? 0) eqn:E.
  - pose proof (Z.div_mod ts1 usec_per_min ltac:(lia)).
    pose proof (Z.div_mod ts2 usec_per_min ltac:(lia)). nia.
  - apply Z.leb_gt in E.
    apply Z.mul_le_mono_nonneg_r; [lia|].
    apply Z.mul_le_mono_nonneg_r; [lia|].
    apply Z.div_le_mono; lia.
Qed.

(** Witness: 14:32:45 and 14:41:00 UTC with 5-minute buckets. *)
Lemma floor_to_bucket_monotone_witness :
  utc 2023 10 30 14 32 45 <= utc 2023 10 30 14 41 0 /\
  floor_to_bucket (utc 2023 10 30 14 32 45) (minutes 5) <=
  floor_to_bucket (utc 2023 10 30 14 41 0) (minutes 5).
Proof.
  assert (H : utc 2023 10 30 14 32 45 <= utc 2023 10 30 14 41 0) by (vm_compute; discriminate).
  split; [exact H | apply floor_to_bucket_monotone; exact H].
Defined.

(** Buckets nest: when a duration of [m1] whole minutes divides one of
    [m1 * j] minutes, flooring to the smaller bucket first and then to the
    larger one gives the larger bucket directly (so a 5-minute bucket lies in
    one 15-minute bucket, a 1-hour bucket in one 4-hour bucket, ...). *)
Theorem floor_to_bucket_nested (ts : datetime) (m1 j : Z) :
  0 < m1 -> 0 < j ->
  floor_to_bucket (floor_to_bucket ts (minutes m1)) (minutes (m1 * j)) =
  floor_to_bucket ts (minutes (m1 * j)).
Proof.
  pose proof usec_per_min_pos as HU. intros H1 Hj.
  unfold floor_to_bucket, minutes.
  rewrite !Z.div_mul by lia.
  destruct (m1 <=? 0) eqn:E1; [apply Z.leb_le in E1; lia|].
  destruct (m1 * j <=? 0) eqn:E2; [apply Z.leb_le in E2; nia|].
  rewrite Z.div_mul by lia.
  set (T := ts / usec_per_min).
  assert (E : T / m1 * m1 / (m1 * j) = T / (m1 * j)).
  { rewrite (Z.mul_comm m1 j), Z.div_mul_cancel_r by lia.
    rewrite Z.div_div by lia. f_equal; ring. }
  rewrite E. reflexivity.
Qed.

(** Witness: 5-minute buckets inside 15-minute buckets. *)
Lemma floor_to_bucket_nested_witness :
  0 < 5 /\ 0 < 3 /\
  floor_to_bucket (floor_to_bucket (utc 2023 10 30 14 32 45) (minutes 5)) (minutes (5 * 3)) =
  floor_to_bucket (utc 2023 10 30 14 32 45) (minutes (5 * 3)).
Proof.
  split; [lia | split; [lia|]].
  apply floor_to_bucket_nested; lia.
Defined.

(* ------------------------------------------------------------------------- *)
(** ** Backfill requests and the guard *)

(** Once the "queued" flag set by a call at [t1] has expired, a new call
    (at [t2 >= t1 + ttl]) enqueues another job and returns [true]. *)
Theorem request_backfill_after_ttl (asset_id ttl : Z) (t1 t2 : datetime) (b b1 : Broker) :
  request_backfill asset_id ttl t1 b = Ok (true, b1) ->
  t1 + ttl * usec_per_sec <= t2 ->
  exists b2, request_backfill asset_id ttl t2 b1 = Ok (true, b2) /\
             jobs b2 = jobs b1 ++ [asset_id].
Proof.
  intros H Ht. unfold request_backfill, cache_add in H.
  destruct (cache_up (cache b)) eqn:Hup; [|discriminate].
  destruct (cache_get (cache b) (Queued asset_id) t1) as [[v|]|]; inversion H; subst; clear H.
  - unfold request_backfill, cache_add, cache_get. cbn [cache entries cache_up].
    rewrite (dget_dset_eq ck_eqb ck_eqb_spec).
    replace (t2 <? t1 + ttl * usec_per_sec) with false by (symmetry; apply Z.ltb_ge; lia).
    eexists; split; reflexivity.
  - unfold request_backfill, cache_add, cache_get. cbn [cache entries cache_up].
    rewrite (dget_dset_eq ck_eqb ck_eqb_spec).
    replace (t2 <? t1 + ttl * usec_per_sec) with false by (symmetry; apply Z.ltb_ge; lia).
    eexists; split; reflexivity.
Qed.

(** Witness: asset 7 requested at 0 on an empty cache, then again when the
    10-minute flag has expired. *)
Lemma request_backfill_after_ttl_witness :
  request_backfill 7 TTL_SECONDS 0 (mkBroker (mkCache [] true) []) =
    Ok (true, mkBroker (mkCache [(Queued 7, (1, TTL_SECONDS * usec_per_sec))] true) [7]) /\
  exists b2,
    request_backfill 7 TTL_SECONDS (TTL_SECONDS * usec_per_sec)
      (mkBroker (mkCache [(Queued 7, (1, TTL_SECONDS * usec_per_sec))] true) [7]) = Ok (true, b2) /\
    jobs b2 = [7] ++ [7].
Proof.
  assert (H : request_backfill 7 TTL_SECONDS 0 (mkBroker (mkCache [] true) []) =
    Ok (true, mkBroker (mkCache [(Queued 7, (1, TTL_SECONDS * usec_per_sec))] true) [7]))
    by reflexivity.
  split; [exact H|].
  exact (request_backfill_after_ttl 7 TTL_SECONDS 0 (TTL_SECONDS * usec_per_sec) _ _ H
           ltac:(vm_compute; discriminate)).
Defined.

(** The per-asset cooldown of [_maybe_schedule]: a call with the database up
    that returns [True] or raises (the request to the coordinator failing)
    records [now_s] for the asset ([finally]), and any later call for that
    asset within [cooldown_secs] returns [False] and changes neither the guard
    nor the broker. *)
Theorem _maybe_schedule_cooldown (g : BackfillGuard) (wla_ids : Z -> list Z)
    (asset_id now_s : Z) (b : Broker) (g' : BackfillGuard) (b' : Broker) (r : result bool) :
  _maybe_schedule g wla_ids true asset_id now_s b = (g', b', r) ->
  r <> Ok false ->
  cooldown_secs g' = cooldown_secs g /\
  forall db_up now' b'', now' - now_s < cooldown_secs g * usec_per_sec ->
  _maybe_schedule g' wla_ids db_up asset_id now' b'' = (g', b'', Ok false).
Proof.
  intros H Hr. unfold _maybe_schedule in H. cbn [negb] in H.
  destruct (cooldown_secs g * usec_per_sec <=? _) eqn:Ec; [|inversion H; subst; congruence].
  destruct (wla_ids asset_id) as [|w ws]; [inversion H; subst; congruence|].
  assert (Hg : g' = mkGuard (cooldown_secs g) (gap_threshold_secs g)
                      (dset Z.eqb (_last_request g) asset_id now_s))
    by (destruct (request_backfill asset_id TTL_SECONDS now_s b) as [[? ?]|];
        inversion H; reflexivity).
  subst g'. split; [reflexivity|].
  intros db_up now' b'' Hlt. unfold _maybe_schedule. cbn [_last_request cooldown_secs].
  rewrite (dget_dset_eq Z.eqb Z_eqb_spec').
  replace (cooldown_secs g * usec_per_sec <=? now' - now_s) with false
    by (symmetry; apply Z.leb_gt; lia).
  reflexivity.
Qed.

(** Witness: asset 7 with one watchlist entry scheduled at 1000 s; a call
    100 s later returns [False]. *)
Lemma _maybe_schedule_cooldown_witness :
  _maybe_schedule default_guard (fun _ => [10]) true 7 (1000 * usec_per_sec)
    (mkBroker (mkCache [] true) []) =
  (mkGuard 900 300 [(7, 1000 * usec_per_sec)],
   mkBroker (mkCache [(Queued 7, (1, 1000 * usec_per_sec + TTL_SECONDS * usec_per_sec))] true) [7],
   Ok true) /\
  _maybe_schedule (mkGuard 900 300 [(7, 1000 * usec_per_sec)]) (fun _ => [10]) true 7
    (1100 * usec_per_sec) (mkBroker (mkCache [] true) []) =
  (mkGuard 900 300 [(7, 1000 * usec_per_sec)], mkBroker (mkCache [] true) [], Ok false).
Proof.
  assert (H : _maybe_schedule default_guard (fun _ => [10]) true 7 (1000 * usec_per_sec)
                (mkBroker (mkCache [] true) []) =
              (mkGuard 900 300 [(7, 1000 * usec_per_sec)],
               mkBroker (mkCache [(Queued 7, (1, 1000 * usec_per_sec + TTL_SECONDS * usec_per_sec))]
                           true) [7],
               Ok true)) by reflexivity.
  split; [exact H|].
  apply (proj2 (_maybe_schedule_cooldown _ _ _ _ _ _ _ _ H ltac:(discriminate))).
  vm_compute. reflexivity.
Defined.

(* ------------------------------------------------------------------------- *)
(** ** The trade loop of [_process_batch] *)

Lemma aggregate_trades_cons (is_rth : datetime -> bool) (sym_to_id : list (string * Z))
    (id_to_class : list (Z * string)) (t : TradeMsg) (r : list TradeMsg)
    (m1 : list (key * TradeBar)) (lt : option datetime) :
  aggregate_trades is_rth sym_to_id id_to_class (t :: r) m1 lt =
  match accepted_trade is_rth sym_to_id id_to_class t with
  | None => aggregate_trades is_rth sym_to_id id_to_class r m1 lt
  | Some (k, price, vol) =>
      match apply_trade (match dget key_eqb m1 k with Some c => c | None => trade_default end)
              price vol with
      | None => None
      | Some c' =>
          aggregate_trades is_rth sym_to_id id_to_class r (dset key_eqb m1 k c')
            (Some (match lt with Some l => Z.max l (snd k) | None => snd k end))
      end
  end.
Proof.
  unfold accepted_trade. cbn [aggregate_trades].
  destruct (match t_S t with Some sym => dget String.eqb sym_to_id sym | None => None end)
    as [aid|]; [|reflexivity].
  destruct (t_p t) as [price|]; [|reflexivity].
  destruct (t_t t) as [ts|]; [|reflexivity].
  destruct (rth_class (dget Z.eqb id_to_class aid) && negb (is_rth (parse_tick_timestamp ts)));
    reflexivity.
Qed.

Lemma apply_trade_None (c : TradeBar) (price : Z) : apply_trade c price None = None.
Proof. unfold apply_trade. destruct (tb_open c); reflexivity. Qed.

Lemma trade_summary_snoc (ps : list (Z * option Z)) (p v : Z) :
  apply_trade (match trade_summary ps with Some c => c | None => trade_default end) p (Some v) =
  trade_summary (ps ++ [(p, Some v)]).
Proof.
  destruct ps as [|[p0 v0] r]; [reflexivity|].
  cbn [trade_summary app apply_trade tb_open tb_high tb_low ext_max ext_min tb_volume].
  rewrite app_comm_cons, !map_app, !fold_left_app.
  change (map fst [(p, Some v)]) with [p].
  rewrite last_last. cbn [map fst fold_left snd or0].
  reflexivity.
Qed.

Lemma key_trades_app (k : key) (l1 l2 : list (key * Z * option Z)) :
  key_trades k (l1 ++ l2) = key_trades k l1 ++ key_trades k l2.
Proof. unfold key_trades. apply flat_map_app. Qed.


Lemma aggregate_trades_entries (is_rth : datetime -> bool) (sym_to_id : list (string * Z))
    (id_to_class : list (Z * string)) (trades : list TradeMsg) :
  forall m1 lt m1' lt' pre,
  (forall k, dget key_eqb m1 k = trade_summary (key_trades k pre)) ->
  aggregate_trades is_rth sym_to_id id_to_class trades m1 lt = Some (m1', lt') ->
  forall k, dget key_eqb m1' k =
            trade_summary (key_trades k (pre ++ accepted_trades is_rth sym_to_id id_to_class trades)).
Proof.
  induction trades as [|t r IH]; intros m1 lt m1' lt' pre Hinv H k.
  - cbn in H. inversion H; subst. rewrite app_nil_r. apply Hinv.
  - rewrite aggregate_trades_cons in H. unfold accepted_trades; cbn [flat_map].
    fold (accepted_trades is_rth sym_to_id id_to_class r).
    destruct (accepted_trade is_rth sym_to_id id_to_class t) as [[[k0 p] [v|]]|].
    + rewrite Hinv, trade_summary_snoc in H.
      destruct (trade_summary (key_trades k0 pre ++ [(p, Some v)])) as [c'|] eqn:Ec;
        [|discriminate].
      change ((k0, p, Some v) :: accepted_trades is_rth sym_to_id id_to_class r) with
        ([(k0, p, Some v)] ++ accepted_trades is_rth sym_to_id id_to_class r).
      rewrite app_assoc.
      refine (IH _ _ m1' lt' (pre ++ [(k0, p, Some v)]) _ H k).
      intros k1. rewrite key_trades_app. cbn [key_trades flat_map fst snd].
      destruct (key_eqb k0 k1) eqn:E.
      * apply key_eqb_spec in E; subst k1.
        rewrite (dget_dset_eq key_eqb key_eqb_spec). cbn [app]. symmetry; exact Ec.
      * apply key_neq_of_eqb in E.
        rewrite (dget_dset_neq key_eqb key_eqb_spec) by congruence.
        rewrite app_nil_r. apply Hinv.
    + rewrite apply_trade_None in H. discriminate.
    + cbn [app]. exact (IH _ _ _ _ _ Hinv H k).
Qed.

Lemma aggregate_trades_latest (is_rth : datetime -> bool) (sym_to_id : list (string * Z))
    (id_to_class : list (Z * string)) (trades : list TradeMsg) :
  forall m1 lt m1' lt',
  aggregate_trades is_rth sym_to_id id_to_class trades m1 lt = Some (m1', lt') ->
  let tss := map (fun x => snd (fst (fst x))) (accepted_trades is_rth sym_to_id id_to_class trades) in
  (lt' = None <-> lt = None /\ tss = []) /\
  (forall t, lt' = Some t ->
     (lt = Some t \/ In t tss) /\ forall x, lt = Some x \/ In x tss -> x <= t).
Proof.
  induction trades as [|tr r IH]; intros m1 lt m1' lt' H tss.
  - cbn in H. inversion H; subst. unfold tss; cbn.
    split; [tauto|]. intros t Ht; subst. split; [left; reflexivity|].
    intros x [Hx|[]]. inversion Hx; lia.
  - rewrite aggregate_trades_cons in H. unfold tss, accepted_trades; cbn [flat_map].
    fold (accepted_trades is_rth sym_to_id id_to_class r).
    destruct (accepted_trade is_rth sym_to_id id_to_class tr) as [[[k0 p] vol]|].
    + destruct (apply_trade _ p vol) as [c'|]; [|discriminate].
      specialize (IH _ _ _ _ H). cbv zeta in IH. destruct IH as [IH1 IH2].
      cbn [app map fst snd].
      split.
      * split; [intros Hn; apply IH1 in Hn as [Hn _]; discriminate | intros [_ Hn]; discriminate].
      * intros t Ht. destruct (IH2 t Ht) as [Hin Hmax].
        split.
        -- destruct Hin as [Hin|Hin]; [|right; right; exact Hin].
           destruct lt as [l|]; inversion Hin; subst.
           ++ destruct (Z.max_spec l (snd k0)) as [[_ E]|[_ E]]; rewrite E;
                [right; left; reflexivity | left; reflexivity].
           ++ right; left; reflexivity.
        -- intros x [Hx|[Hx|Hx]].
           ++ subst lt. specialize (Hmax (Z.max x (snd k0)) (or_introl eq_refl)). lia.
           ++ subst x. specialize (Hmax (match lt with Some l => Z.max l (snd k0)
                                                   | None => snd k0 end) (or_introl eq_refl)).
              destruct lt; lia.
           ++ apply Hmax; right; exact Hx.
    + cbn [app]. exact (IH _ _ _ _ H).
Qed.


(** When the trade loop of [_process_batch] completes, the [m1_map] entry of
    each key [(aid, minute)] is the OHLCV bar of the accepted trades with that
    key, in arrival order: open is the first price, high the largest, low the
    smallest, close the last price, and volume the sum of the sizes; keys
    without an accepted trade have no entry. *)
Theorem aggregate_trades_ohlcv (is_rth : datetime -> bool) (sym_to_id : list (string * Z))
    (id_to_class : list (Z * string)) (trades : list TradeMsg)
    (m1_map : list (key * TradeBar)) (latest_ts : option datetime) :
  aggregate_trades is_rth sym_to_id id_to_class trades [] None = Some (m1_map, latest_ts) ->
  forall k, dget key_eqb m1_map k =
            trade_summary (key_trades k (accepted_trades is_rth sym_to_id id_to_class trades)).
Proof.
  intros H k. exact (aggregate_trades_entries _ _ _ _ [] None _ _ [] (fun _ => eq_refl) H k).
Qed.

(** Witness: three AAPL trades in the minute 15:00 UTC (one without a
    size) and one trade of a symbol missing from the cache. *)
Lemma aggregate_trades_ohlcv_witness :
  aggregate_trades (fun _ => true) [("AAPL"%string, 1)] [(1, "us_equity"%string)]
      [mkTrade (Some "AAPL"%string) (Some 10) (Some (Some 1)) (Some (utc 2024 1 2 15 0 5));
       mkTrade (Some "AAPL"%string) (Some 12) None (Some (utc 2024 1 2 15 0 30));
       mkTrade (Some "AAPL"%string) (Some 9) (Some (Some 3)) (Some (utc 2024 1 2 15 0 59));
       mkTrade (Some "MSFT"%string) (Some 9) (Some (Some 3)) (Some (utc 2024 1 2 15 1 59))] [] None =
    Some ([((1, utc 2024 1 2 15 0 0), mkTB (Some 10) (Fin 12) (Fin 9) (Some 9) 4)], Some (utc 2024 1 2 15 0 0)) /\
  dget key_eqb [((1, utc 2024 1 2 15 0 0), mkTB (Some 10) (Fin 12) (Fin 9) (Some 9) 4)] (1, utc 2024 1 2 15 0 0) =
    trade_summary (key_trades (1, utc 2024 1 2 15 0 0)
      (accepted_trades (fun _ => true) [("AAPL"%string, 1)] [(1, "us_equity"%string)]
      [mkTrade (Some "AAPL"%string) (Some 10) (Some (Some 1)) (Some (utc 2024 1 2 15 0 5));
       mkTrade (Some "AAPL"%string) (Some 12) None (Some (utc 2024 1 2 15 0 30));
       mkTrade (Some "AAPL"%string) (Some 9) (Some (Some 3)) (Some (utc 2024 1 2 15 0 59));
       mkTrade (Some "MSFT"%string) (Some 9) (Some (Some 3)) (Some (utc 2024 1 2 15 1 59))])).
Proof.
  assert (H : aggregate_trades (fun _ => true) [("AAPL"%string, 1)] [(1, "us_equity"%string)]
      [mkTrade (Some "AAPL"%string) (Some 10) (Some (Some 1)) (Some (utc 2024 1 2 15 0 5));
       mkTrade (Some "AAPL"%string) (Some 12) None (Some (utc 2024 1 2 15 0 30));
       mkTrade (Some "AAPL"%string) (Some 9) (Some (Some 3)) (Some (utc 2024 1 2 15 0 59));
       mkTrade (Some "MSFT"%string) (Some 9) (Some (Some 3)) (Some (utc 2024 1 2 15 1 59))] [] None =
    Some ([((1, utc 2024 1 2 15 0 0), mkTB (Some 10) (Fin 12) (Fin 9) (Some 9) 4)], Some (utc 2024 1 2 15 0 0))) by (vm_compute; reflexivity).
  split; [exact H | exact (aggregate_trades_ohlcv _ _ _ _ _ _ H (1, utc 2024 1 2 15 0 0))].
Defined.

(** When the trade loop of [_process_batch] completes, [latest_ts] is
    [None] exactly when no trade was accepted, and otherwise it is the
    latest minute among the accepted trades. *)
Theorem aggregate_trades_latest_ts (is_rth : datetime -> bool) (sym_to_id : list (string * Z))
    (id_to_class : list (Z * string)) (trades : list TradeMsg)
    (m1_map : list (key * TradeBar)) (latest_ts : option datetime) :
  aggregate_trades is_rth sym_to_id id_to_class trades [] None = Some (m1_map, latest_ts) ->
  let tss := map (fun x => snd (fst (fst x))) (accepted_trades is_rth sym_to_id id_to_class trades) in
  (latest_ts = None <-> tss = []) /\
  (forall t, latest_ts = Some t -> In t tss /\ forall x, In x tss -> x <= t).
Proof.
  intros H tss. destruct (aggregate_trades_latest _ _ _ _ _ _ _ _ H) as [H1 H2].
  fold tss in H1, H2. split.
  - rewrite H1. tauto.
  - intros t Ht. destruct (H2 t Ht) as [[Hin|Hin] Hmax]; [discriminate|].
    split; [exact Hin | intros x Hx; apply Hmax; right; exact Hx].
Qed.

(** Witness: the same batch; [latest_ts] is the minute 15:00 UTC. *)
Lemma aggregate_trades_latest_ts_witness :
  aggregate_trades (fun _ => true) [("AAPL"%string, 1)] [(1, "us_equity"%string)]
      [mkTrade (Some "AAPL"%string) (Some 10) (Some (Some 1)) (Some (utc 2024 1 2 15 0 5));
       mkTrade (Some "AAPL"%string) (Some 12) None (Some (utc 2024 1 2 15 0 30));
       mkTrade (Some "AAPL"%string) (Some 9) (Some (Some 3)) (Some (utc 2024 1 2 15 0 59));
       mkTrade (Some "MSFT"%string) (Some 9) (Some (Some 3)) (Some (utc 2024 1 2 15 1 59))] [] None =
    Some ([((1, utc 2024 1 2 15 0 0), mkTB (Some 10) (Fin 12) (Fin 9) (Some 9) 4)], Some (utc 2024 1 2 15 0 0)) /\
  In (utc 2024 1 2 15 0 0)
    (map (fun x => snd (fst (fst x)))
       (accepted_trades (fun _ => true) [("AAPL"%string, 1)] [(1, "us_equity"%string)]
      [mkTrade (Some "AAPL"%string) (Some 10) (Some (Some 1)) (Some (utc 2024 1 2 15 0 5));
       mkTrade (Some "AAPL"%string) (Some 12) None (Some (utc 2024 1 2 15 0 30));
       mkTrade (Some "AAPL"%string) (Some 9) (Some (Some 3)) (Some (utc 2024 1 2 15 0 59));
       mkTrade (Some "MSFT"%string) (Some 9) (Some (Some 3)) (Some (utc 2024 1 2 15 1 59))])).
Proof.
  assert (H : aggregate_trades (fun _ => true) [("AAPL"%string, 1)] [(1, "us_equity"%string)]
      [mkTrade (Some "AAPL"%string) (Some 10) (Some (Some 1)) (Some (utc 2024 1 2 15 0 5));
       mkTrade (Some "AAPL"%string) (Some 12) None (Some (utc 2024 1 2 15 0 30));
       mkTrade (Some "AAPL"%string) (Some 9) (Some (Some 3)) (Some (utc 2024 1 2 15 0 59));
       mkTrade (Some "MSFT"%string) (Some 9) (Some (Some 3)) (Some (utc 2024 1 2 15 1 59))] [] None =
    Some ([((1, utc 2024 1 2 15 0 0), mkTB (Some 10) (Fin 12) (Fin 9) (Some 9) 4)], Some (utc 2024 1 2 15 0 0))) by (vm_compute; reflexivity).
  split; [exact H|].
  exact (proj1 (proj2 (aggregate_trades_latest_ts _ _ _ _ _ _ H) _ eq_refl)).
Defined.

(* ------------------------------------------------------------------------- *)
(** ** [rollup_from_minutes]: volumes and touched keys *)

Lemma acc_volume_dset (accs : list (Timeframe * list (key * CandleData))) (tf0 tf : Timeframe)
    (acc : list (key * CandleData)) (k0 k : key) (c : CandleData) :
  dget tf_eqb accs tf0 = Some acc ->
  acc_volume (dset tf_eqb accs tf0 (dset key_eqb acc k0 c)) tf k =
  if tf_eqb tf tf0 && key_eqb k0 k then or0 (get (d_volume c)) else acc_volume accs tf k.
Proof.
  intros Ha. unfold acc_volume.
  destruct (tf_eqb tf tf0) eqn:Et.
  - apply tf_eqb_spec in Et; subst tf.
    rewrite (dget_dset_eq tf_eqb tf_eqb_spec), Ha. cbn [andb].
    destruct (key_eqb k0 k) eqn:Ek.
    + apply key_eqb_spec in Ek; subst k. rewrite (dget_dset_eq key_eqb key_eqb_spec). reflexivity.
    + apply key_neq_of_eqb in Ek.
      rewrite (dget_dset_neq key_eqb key_eqb_spec) by congruence. reflexivity.
  - apply tf_neq_of_eqb in Et. cbn [andb].
    rewrite (dget_dset_neq tf_eqb tf_eqb_spec) by congruence. reflexivity.
Qed.

Lemma merge_acc_entry_volume (c c' : CandleData) (d : M1Bar) :
  merge_acc_entry c d = Some c' ->
  or0 (get (d_volume c')) = or0 (get (d_volume c)) + or0 (m_volume d).
Proof.
  unfold merge_acc_entry.
  destruct (py_max _ _); [|discriminate]. destruct (py_min _ _); [|discriminate].
  intros H; inversion H; subst. reflexivity.
Qed.

Lemma rollup_tfs_volume (cfg : list (Timeframe * timedelta)) (aid : Z) (ts : datetime)
    (data : M1Bar) :
  forall accs touched accs' touched',
  NoDup (map fst cfg) ->
  rollup_tfs cfg aid ts data accs touched = Some (accs', touched') ->
  forall tf k,
  acc_volume accs' tf k = acc_volume accs tf k +
    match dget tf_eqb cfg tf with
    | Some delta => if negb (tf_eqb tf TF_1T) && key_eqb (aid, floor_to_bucket ts delta) k
                    then or0 (m_volume data) else 0
    | None => 0
    end.
Proof.
  induction cfg as [|[tf0 d0] r IH]; intros accs touched accs' touched' Hnd H tf k.
  - cbn in H. inversion H; subst. cbn. lia.
  - inversion Hnd as [|? ? Hnotin Hnd']; subst.
    assert (Hr0 : dget tf_eqb r tf0 = None)
      by (apply (dget_None_notin tf_eqb tf_eqb_spec); exact Hnotin).
    cbn [rollup_tfs] in H. cbn [dget].
    destruct (tf_eqb tf0 TF_1T) eqn:E1.
    + rewrite (IH _ _ _ _ Hnd' H).
      destruct (tf_eqb tf tf0) eqn:E; [|reflexivity].
      apply tf_eqb_spec in E; subst tf. rewrite Hr0, E1. reflexivity.
    + destruct (dget tf_eqb accs tf0) as [acc|] eqn:Ha; [|discriminate].
      set (k0 := (aid, floor_to_bucket ts d0)) in H.
      assert (Hstep : forall c, or0 (get (d_volume c)) =
                      match dget key_eqb acc k0 with
                      | Some c0 => or0 (get (d_volume c0)) | None => 0 end + or0 (m_volume data) ->
                      acc_volume (dset tf_eqb accs tf0 (dset key_eqb acc k0 c)) tf k +
                      match dget tf_eqb r tf with
                      | Some delta => if negb (tf_eqb tf TF_1T) &&
                                         key_eqb (aid, floor_to_bucket ts delta) k
                                      then or0 (m_volume data) else 0
                      | None => 0 end =
                      acc_volume accs tf k +
                      match (if tf_eqb tf tf0 then Some d0 else dget tf_eqb r tf) with
                      | Some delta => if negb (tf_eqb tf TF_1T) &&
                                         key_eqb (aid, floor_to_bucket ts delta) k
                                      then or0 (m_volume data) else 0
                      | None => 0 end).
      { intros c Hc. rewrite (acc_volume_dset _ _ _ _ _ _ _ Ha).
        destruct (tf_eqb tf tf0) eqn:E; cbn [andb]; [|reflexivity].
        apply tf_eqb_spec in E; subst tf. rewrite Hr0, E1. cbn [negb andb].
        fold k0. destruct (key_eqb k0 k) eqn:Ek.
        - apply key_eqb_spec in Ek; subst k. unfold acc_volume. rewrite Ha.
          rewrite Hc. destruct (dget key_eqb acc k0); lia.
        - lia. }
      destruct (dget key_eqb acc k0) as [c|] eqn:Hc.
      * destruct (merge_acc_entry c data) as [c'|] eqn:Hm; [|discriminate].
        rewrite (IH _ _ _ _ Hnd' H). apply Hstep.
        rewrite (merge_acc_entry_volume _ _ _ Hm). reflexivity.
      * rewrite (IH _ _ _ _ Hnd' H). apply Hstep. reflexivity.
Qed.

Lemma rollup_items_volume (cfg : list (Timeframe * timedelta)) (items : list (key * M1Bar)) :
  forall accs touched accs' touched',
  NoDup (map fst cfg) ->
  rollup_items cfg items accs touched = Some (accs', touched') ->
  forall tf delta k, dget tf_eqb cfg tf = Some delta -> tf <> TF_1T ->
  acc_volume accs' tf k = acc_volume accs tf k + bucket_volume delta items k.
Proof.
  induction items as [|[[aid ts] data] r IH]; intros accs touched accs' touched' Hnd H tf delta k
    Hd Htf.
  - cbn in H. inversion H; subst. cbn. lia.
  - cbn [rollup_items] in H.
    destruct (rollup_tfs cfg aid ts data accs touched) as [[accs1 t1]|] eqn:Hr; [|discriminate].
    rewrite (IH _ _ _ _ Hnd H tf delta k Hd Htf).
    rewrite (rollup_tfs_volume _ _ _ _ _ _ _ _ Hnd Hr tf k), Hd.
    replace (negb (tf_eqb tf TF_1T)) with true
      by (destruct (tf_eqb tf TF_1T) eqn:E; [apply tf_eqb_spec in E; contradiction | reflexivity]).
    cbn [bucket_volume fold_right fst snd andb]. fold (bucket_volume delta r k). lia.
Qed.

(** When [rollup_from_minutes(m1_map)] completes and the timeframe config
    lists each timeframe once, the volume of every accumulator bucket of a
    higher timeframe grows by exactly the sum of the volumes of the minute
    bars of [m1_map] that fall into that bucket ([None] counted as [0]). *)
Theorem rollup_from_minutes_volume (agg agg' : Aggregator) (m1_map : list (key * M1Bar))
    (touched : list (Timeframe * list key)) (tf : Timeframe) (delta : timedelta) :
  rollup_from_minutes agg m1_map = Some (agg', touched) ->
  NoDup (map fst (tf_cfg agg)) ->
  dget tf_eqb (tf_cfg agg) tf = Some delta -> tf <> TF_1T ->
  forall k, acc_volume (_tf_acc agg') tf k =
            acc_volume (_tf_acc agg) tf k + bucket_volume delta m1_map k.
Proof.
  intros H Hnd Hd Htf k. unfold rollup_from_minutes in H.
  destruct (rollup_items (tf_cfg agg) m1_map (_tf_acc agg) []) as [[accs t]|] eqn:Hr;
    [|discriminate].
  inversion H; subst. exact (rollup_items_volume _ _ _ _ _ _ Hnd Hr tf delta k Hd Htf).
Qed.

(** Witness: three minute bars of asset 1 into the empty default
    accumulators; the 5-minute bucket at 15:00 gets volume [5 + 7]. *)
Lemma rollup_from_minutes_volume_witness :
  exists agg' touched,
    rollup_from_minutes default_aggregator
      [((1, utc 2024 1 2 15 1 0), mkM1 (Some 10) (Some 11) (Some 9) (Some 10) (Some 5));
        ((1, utc 2024 1 2 15 3 0), mkM1 (Some 10) (Some 12) (Some 8) (Some 11) (Some 7));
        ((1, utc 2024 1 2 15 6 0), mkM1 (Some 11) (Some 11) (Some 11) (Some 11) None)] = Some (agg', touched) /\
    acc_volume (_tf_acc agg') TF_5T (1, utc 2024 1 2 15 0 0) =
    acc_volume (_tf_acc default_aggregator) TF_5T (1, utc 2024 1 2 15 0 0) +
    bucket_volume (minutes 5)
      [((1, utc 2024 1 2 15 1 0), mkM1 (Some 10) (Some 11) (Some 9) (Some 10) (Some 5));
        ((1, utc 2024 1 2 15 3 0), mkM1 (Some 10) (Some 12) (Some 8) (Some 11) (Some 7));
        ((1, utc 2024 1 2 15 6 0), mkM1 (Some 11) (Some 11) (Some 11) (Some 11) None)] (1, utc 2024 1 2 15 0 0).
Proof.
  destruct (rollup_from_minutes default_aggregator
      [((1, utc 2024 1 2 15 1 0), mkM1 (Some 10) (Some 11) (Some 9) (Some 10) (Some 5));
        ((1, utc 2024 1 2 15 3 0), mkM1 (Some 10) (Some 12) (Some 8) (Some 11) (Some 7));
        ((1, utc 2024 1 2 15 6 0), mkM1 (Some 11) (Some 11) (Some 11) (Some 11) None)]) as [[agg' t]|] eqn:E.
  - exists agg', t. split; [reflexivity|].
    apply (rollup_from_minutes_volume _ _ _ _ TF_5T (minutes 5) E).
    + cbn. repeat constructor; cbn; intuition discriminate.
    + reflexivity.
    + discriminate.
  - vm_compute in E. discriminate.
Defined.

Lemma touched_of_touch (t : list (Timeframe * list key)) (tf tf' : Timeframe) (k k' : key) :
  In k' (touched_of (touch t tf k) tf') <-> In k' (touched_of t tf') \/ (tf' = tf /\ k' = k).
Proof.
  unfold touched_of, touch.
  destruct (tf_eqb tf' tf) eqn:E.
  - apply tf_eqb_spec in E; subst tf'. rewrite (dget_dset_eq tf_eqb tf_eqb_spec).
    destruct (existsb (key_eqb k) (match dget tf_eqb t tf with Some ks => ks | None => [] end))
      eqn:Ex.
    + apply existsb_exists in Ex as [x [Hx Ex]]. apply key_eqb_spec in Ex; subst x.
      split; [tauto|]. intros [H|[_ ->]]; assumption.
    + rewrite in_app_iff. cbn [In]. split; (intros [H|H]; [tauto|]); [|destruct H as [_ ->]];
        [destruct H as [H|[]]; right; split; [reflexivity | congruence] | right; left; reflexivity].
  - apply tf_neq_of_eqb in E. rewrite (dget_dset_neq tf_eqb tf_eqb_spec) by congruence.
    split; [tauto|]. intros [H|[H _]]; [exact H | congruence].
Qed.

Lemma touched_present_step (accs : list (Timeframe * list (key * CandleData)))
    (t : list (Timeframe * list key)) (tf0 : Timeframe) (acc : list (key * CandleData))
    (k0 : key) (c : CandleData) :
  dget tf_eqb accs tf0 = Some acc -> touched_present accs t ->
  touched_present (dset tf_eqb accs tf0 (dset key_eqb acc k0 c)) (touch t tf0 k0).
Proof.
  intros Ha Hp tf k Hin. apply touched_of_touch in Hin as [Hin|[-> ->]].
  - destruct (Hp tf k Hin) as [acc' [Ha' Hk]].
    destruct (tf_eqb tf tf0) eqn:E.
    + apply tf_eqb_spec in E; subst tf. rewrite Ha in Ha'. inversion Ha'; subst acc'.
      exists (dset key_eqb acc k0 c). rewrite (dget_dset_eq tf_eqb tf_eqb_spec). split; [reflexivity|].
      destruct (key_eqb k0 k) eqn:Ek.
      * apply key_eqb_spec in Ek; subst k. rewrite (dget_dset_eq key_eqb key_eqb_spec). discriminate.
      * apply key_neq_of_eqb in Ek.
        rewrite (dget_dset_neq key_eqb key_eqb_spec) by congruence. exact Hk.
    + apply tf_neq_of_eqb in E. exists acc'.
      rewrite (dget_dset_neq tf_eqb tf_eqb_spec) by congruence. split; [exact Ha' | exact Hk].
  - exists (dset key_eqb acc k0 c). rewrite (dget_dset_eq tf_eqb tf_eqb_spec).
    rewrite (dget_dset_eq key_eqb key_eqb_spec). split; [reflexivity | discriminate].
Qed.

Lemma rollup_tfs_touched (cfg : list (Timeframe * timedelta)) (aid : Z) (ts : datetime)
    (data : M1Bar) :
  forall accs t accs' t',
  rollup_tfs cfg aid ts data accs t = Some (accs', t') ->
  (forall tf k, In k (touched_of t' tf) <->
     In k (touched_of t tf) \/
     exists delta, In (tf, delta) cfg /\ tf <> TF_1T /\ k = (aid, floor_to_bucket ts delta)) /\
  (touched_present accs t -> touched_present accs' t').
Proof.
  induction cfg as [|[tf0 d0] r IH]; intros accs t accs' t' H.
  - cbn in H. inversion H; subst. split; [|tauto].
    intros tf k. split; [tauto|]. intros [H0|[delta [[] _]]]; exact H0.
  - cbn [rollup_tfs] in H.
    destruct (tf_eqb tf0 TF_1T) eqn:E1.
    + apply tf_eqb_spec in E1; subst tf0.
      destruct (IH _ _ _ _ H) as [IH1 IH2]. split; [|exact IH2].
      intros tf k. rewrite IH1. split.
      * intros [H0|[delta [Hin [Htf Hk]]]]; [left; exact H0 | right; exists delta].
        split; [right; exact Hin | split; assumption].
      * intros [H0|[delta [[Hin|Hin] [Htf Hk]]]]; [left; exact H0| |].
        -- inversion Hin; subst. contradiction.
        -- right; exists delta; repeat split; assumption.
    + destruct (dget tf_eqb accs tf0) as [acc|] eqn:Ha; [|discriminate].
      assert (Hcase : exists c, rollup_tfs r aid ts data
                (dset tf_eqb accs tf0 (dset key_eqb acc (aid, floor_to_bucket ts d0) c))
                (touch t tf0 (aid, floor_to_bucket ts d0)) = Some (accs', t')).
      { destruct (dget key_eqb acc (aid, floor_to_bucket ts d0)) as [c|].
        - destruct (merge_acc_entry c data) as [c'|]; [exists c'; exact H | discriminate].
        - exists (new_acc_entry data); exact H. }
      destruct Hcase as [c Hc].
      destruct (IH _ _ _ _ Hc) as [IH1 IH2]. split.
      * intros tf k. rewrite IH1, touched_of_touch. split.
        -- intros [[H0|[-> ->]]|[delta [Hin [Htf Hk]]]]; [left; exact H0| |].
           ++ right; exists d0. split; [left; reflexivity | split; [|reflexivity]].
              intros E; subst. discriminate.
           ++ right; exists delta. split; [right; exact Hin | split; assumption].
        -- intros [H0|[delta [[Hin|Hin] [Htf Hk]]]]; [left; left; exact H0| |].
           ++ inversion Hin; subst. left; right; split; reflexivity.
           ++ right; exists delta; repeat split; assumption.
      * intros Hp. apply IH2. apply touched_present_step; assumption.
Qed.

Lemma rollup_items_touched (cfg : list (Timeframe * timedelta)) (items : list (key * M1Bar)) :
  forall accs t accs' t',
  rollup_items cfg items accs t = Some (accs', t') ->
  (forall tf k, In k (touched_of t' tf) <->
     In k (touched_of t tf) \/
     exists delta aid ts d, In (tf, delta) cfg /\ tf <> TF_1T /\ In ((aid, ts), d) items /\
                            k = (aid, floor_to_bucket ts delta)) /\
  (touched_present accs t -> touched_present accs' t').
Proof.
  induction items as [|[[aid ts] data] r IH]; intros accs t accs' t' H.
  - cbn in H. inversion H; subst. split; [|tauto].
    intros tf k. split; [tauto|]. intros [H0|[delta [aid [ts [d [_ [_ [[] _]]]]]]]]; exact H0.
  - cbn [rollup_items] in H.
    destruct (rollup_tfs cfg aid ts data accs t) as [[accs1 t1]|] eqn:Hr; [|discriminate].
    destruct (rollup_tfs_touched _ _ _ _ _ _ _ _ Hr) as [R1 R2].
    destruct (IH _ _ _ _ H) as [IH1 IH2]. split; [|intros Hp; apply IH2, R2, Hp].
    intros tf k. rewrite IH1, R1. split.
    + intros [[H0|[delta [Hin [Htf Hk]]]]|[delta [a [s [d [Hin [Htf [Hm Hk]]]]]]]];
        [left; exact H0| |].
      * right; exists delta, aid, ts, data. repeat split; try assumption. left; reflexivity.
      * right; exists delta, a, s, d. repeat split; try assumption. right; exact Hm.
    + intros [H0|[delta [a [s [d [Hin [Htf [[Hm|Hm] Hk]]]]]]]]; [left; left; exact H0| |].
      * inversion Hm; subst. left; right; exists delta. repeat split; assumption.
      * right; exists delta, a, s, d. repeat split; assumption.
Qed.

(** When [rollup_from_minutes(m1_map)] completes, the keys it reports as
    touched for a timeframe are exactly the buckets [(aid, floor_to_bucket(ts,
    delta))] of the minute bars of [m1_map], for each higher timeframe
    [(tf, delta)] of the config, and every touched key has an entry in that
    timeframe's accumulator afterwards. *)
Theorem rollup_from_minutes_touched (agg agg' : Aggregator) (m1_map : list (key * M1Bar))
    (touched : list (Timeframe * list key)) :
  rollup_from_minutes agg m1_map = Some (agg', touched) ->
  (forall tf k, In k (touched_of touched tf) <->
     exists delta aid ts d, In (tf, delta) (tf_cfg agg) /\ tf <> TF_1T /\
                            In ((aid, ts), d) m1_map /\ k = (aid, floor_to_bucket ts delta)) /\
  touched_present (_tf_acc agg') touched.
Proof.
  intros H. unfold rollup_from_minutes in H.
  destruct (rollup_items (tf_cfg agg) m1_map (_tf_acc agg) []) as [[accs t]|] eqn:Hr;
    [|discriminate].
  inversion H; subst. destruct (rollup_items_touched _ _ _ _ _ _ Hr) as [R1 R2].
  split.
  - intros tf k. rewrite R1. unfold touched_of at 1. cbn [dget]. split; [|right; assumption].
    intros [[]|H0]; exact H0.
  - apply R2. intros tf k Hin. destruct Hin.
Qed.

(** Witness: the same three minute bars; the 5-minute bucket at 15:00 is
    touched. *)
Lemma rollup_from_minutes_touched_witness :
  exists agg' touched,
    rollup_from_minutes default_aggregator
      [((1, utc 2024 1 2 15 1 0), mkM1 (Some 10) (Some 11) (Some 9) (Some 10) (Some 5));
        ((1, utc 2024 1 2 15 3 0), mkM1 (Some 10) (Some 12) (Some 8) (Some 11) (Some 7));
        ((1, utc 2024 1 2 15 6 0), mkM1 (Some 11) (Some 11) (Some 11) (Some 11) None)] = Some (agg', touched) /\
    touched_present (_tf_acc agg') touched.
Proof.
  destruct (rollup_from_minutes default_aggregator
      [((1, utc 2024 1 2 15 1 0), mkM1 (Some 10) (Some 11) (Some 9) (Some 10) (Some 5));
        ((1, utc 2024 1 2 15 3 0), mkM1 (Some 10) (Some 12) (Some 8) (Some 11) (Some 7));
        ((1, utc 2024 1 2 15 6 0), mkM1 (Some 11) (Some 11) (Some 11) (Some 11) None)]) as [[agg' t]|] eqn:E.
  - exists agg', t. split; [reflexivity|].
    exact (proj2 (rollup_from_minutes_touched _ _ _ _ E)).
  - vm_compute in E. discriminate.
Defined.

(* ------------------------------------------------------------------------- *)
(** ** [save_candles]: what it leaves alone *)

Lemma bulk_create_other (tf tf' : Timeframe) (tc : list (key * CandleData)) (st : Store)
    (aid : Z) (ts : datetime) :
  tf' <> tf ->
  dget tkey_eqb (rows (bulk_create tf tc st)) (aid, tf', ts) = dget tkey_eqb (rows st) (aid, tf', ts).
Proof.
  intros Hne. revert st; induction tc as [|[[a t] d0] r IH]; intros st; cbn [bulk_create];
    [reflexivity|].
  destruct (dmem tkey_eqb (rows st) (a, tf, t)); rewrite IH; [reflexivity|].
  cbn [rows]. apply (dget_dset_neq tkey_eqb tkey_eqb_spec). congruence.
Qed.

Lemma bulk_update_other (tf tf' : Timeframe) (tu : list (key * Candle)) (st : Store)
    (aid : Z) (ts : datetime) :
  tf' <> tf ->
  dget tkey_eqb (rows (bulk_update tf tu st)) (aid, tf', ts) = dget tkey_eqb (rows st) (aid, tf', ts).
Proof.
  intros Hne. revert st; induction tu as [|[[a t] c0] r IH]; intros st; cbn [bulk_update];
    [reflexivity|].
  rewrite IH. cbn [rows]. apply (dget_dset_neq tkey_eqb tkey_eqb_spec). congruence.
Qed.

Lemma save_candles_other_tf (timeframe tf : Timeframe) (updates : list (key * CandleData))
    (snapshot : bool) (st : Store) (aid : Z) (ts : datetime) :
  tf <> timeframe ->
  dget tkey_eqb (rows (save_candles timeframe updates snapshot st)) (aid, tf, ts) =
  dget tkey_eqb (rows st) (aid, tf, ts).
Proof.
  intros Htf. destruct updates as [|u r]; [reflexivity|]. unfold save_candles.
  destruct (save_plan timeframe (u :: r) snapshot st) as [tc tu].
  destruct (plan_commits tc tu); [|reflexivity].
  rewrite (bulk_update_other _ _ _ _ _ _ Htf). apply bulk_create_other; exact Htf.
Qed.

(** [save_candles(timeframe, updates)] (keys of a dict, so distinct) writes
    only rows of [timeframe] whose [(asset_id, timestamp)] is a key of
    [updates]: every other row is left as it was.  When its transaction
    commits, every key of [updates] has a row of [timeframe] afterwards, and
    a row that existed keeps its primary key; when it fails (a row it
    inserts or updates has a null open, high, low or close), no row
    changes. *)
Theorem save_candles_frame (timeframe : Timeframe) (updates : list (key * CandleData))
    (snapshot : bool) (st : Store) :
  NoDup (map fst updates) ->
  (forall tf aid ts, tf <> timeframe \/ ~ In (aid, ts) (map fst updates) ->
     dget tkey_eqb (rows (save_candles timeframe updates snapshot st)) (aid, tf, ts) =
     dget tkey_eqb (rows st) (aid, tf, ts)) /\
  (save_candles_commits timeframe updates snapshot st = true ->
   forall aid ts, In (aid, ts) (map fst updates) ->
     exists c', dget tkey_eqb (rows (save_candles timeframe updates snapshot st)) (aid, timeframe, ts)
                = Some c' /\
                forall c, dget tkey_eqb (rows st) (aid, timeframe, ts) = Some c -> cid c' = cid c) /\
  (save_candles_commits timeframe updates snapshot st = false ->
   rows (save_candles timeframe updates snapshot st) = rows st).
Proof.
  intros Hnd. split; [|split].
  - intros tf aid ts [Htf|Hk].
    + apply save_candles_other_tf; exact Htf.
    + destruct (tf_eqb tf timeframe) eqn:E.
      * apply tf_eqb_spec in E; subst tf.
        destruct (save_candles_commits timeframe updates snapshot st) eqn:Hok.
        -- pose proof (save_candles_get timeframe updates snapshot st aid ts Hnd Hok) as G.
           rewrite (proj2 (dget_None_notin key_eqb key_eqb_spec updates (aid, ts)) Hk) in G.
           exact G.
        -- rewrite (save_candles_rollback _ _ _ _ Hok). reflexivity.
      * apply tf_neq_of_eqb in E. apply save_candles_other_tf. congruence.
  - intros Hok aid ts Hin.
    pose proof (save_candles_get timeframe updates snapshot st aid ts Hnd Hok) as G.
    destruct (dget key_eqb updates (aid, ts)) as [d|] eqn:Hd.
    + destruct (dget tkey_eqb (rows st) (aid, timeframe, ts)) as [c|] eqn:Hc.
      * exists (merge_row snapshot c d). split; [exact G|].
        intros c0 H0. inversion H0; subst. reflexivity.
      * destruct G as [i G]. exists (new_row i d). split; [exact G | discriminate].
    + exfalso. apply (dget_None_notin key_eqb key_eqb_spec) in Hd. contradiction.
  - apply save_candles_rollback.
Qed.

(** Witness: a batch of one complete key over a table holding a row of
    another timeframe at the same instant; the call commits, creates the
    1T row and leaves the 5T row alone. *)
Lemma save_candles_frame_witness :
  let ups := [((1, 60), mkData (Some (Some 1)) (Some (Some 2)) (Some (Some 1)) (Some (Some 2))
                               (Some (Some 2)) None)] in
  let st := mkStore [((1, TF_5T, 60), mkCandle 3 (Some 1) (Some 1) (Some 1) (Some 1) (Some 1) None)] 4 in
  dget tkey_eqb (rows (save_candles TF_1T ups false st)) (1, TF_5T, 60) =
  dget tkey_eqb (rows st) (1, TF_5T, 60) /\
  exists c', dget tkey_eqb (rows (save_candles TF_1T ups false st)) (1, TF_1T, 60) = Some c'.
Proof.
  intros ups st.
  assert (H : NoDup (map fst ups)) by (repeat constructor; intros []).
  split.
  - apply (proj1 (save_candles_frame TF_1T ups false st H)). left; discriminate.
  - destruct (proj1 (proj2 (save_candles_frame TF_1T ups false st H)) ltac:(vm_compute; reflexivity)
                1 60 (or_introl eq_refl)) as [c' [Hc _]].
    exists c'. exact Hc.
Defined.

(* ------------------------------------------------------------------------- *)
(** ** [flush_closed] run again *)

Lemma flush_keys_all_open (hc : Z -> Timeframe -> datetime -> bool) (tf : Timeframe)
    (delta : timedelta) (latest : datetime) (items : list (key * CandleData)) :
  forall acc, (forall k, In k (map fst items) -> latest < snd k + delta) ->
  flush_keys hc tf delta latest items acc = (acc, []).
Proof.
  induction items as [|[[aid bts] d] r IH]; intros acc Hopen; cbn [flush_keys]; [reflexivity|].
  replace (bts + delta <=? latest) with false
    by (symmetry; apply Z.leb_gt; exact (Hopen (aid, bts) (or_introl eq_refl))).
  apply IH. intros k Hk. apply Hopen. right; exact Hk.
Qed.

Lemma dset_dget_same {K V : Type} (eqk : K -> K -> bool)
    (eqk_spec : forall a b, eqk a b = true <-> a = b) (m : list (K * V)) (k : K) (v : V) :
  dget eqk m k = Some v -> dset eqk m k v = m.
Proof.
  induction m as [|[k0 v0] r IH]; cbn [dget dset]; [discriminate|].
  destruct (eqk k k0) eqn:E.
  - intros H; inversion H; subst. apply eqk_spec in E; subst. reflexivity.
  - intros H. rewrite (IH H). reflexivity.
Qed.

Lemma flush_tfs_all_open (hc : Z -> Timeframe -> datetime -> bool) (latest : datetime)
    (cfg : list (Timeframe * timedelta)) :
  forall (accs : list (Timeframe * list (key * CandleData))),
  (forall tf delta, In (tf, delta) cfg -> tf <> TF_1T ->
     exists acc : list (key * CandleData), dget tf_eqb accs tf = Some acc /\
                 forall k, In k (map fst acc) -> latest < snd k + delta) ->
  flush_tfs hc cfg latest accs = Some (accs, []).
Proof.
  induction cfg as [|[tf0 d0] r IH]; intros accs Hopen; cbn [flush_tfs]; [reflexivity|].
  assert (Hr : forall tf delta, In (tf, delta) r -> tf <> TF_1T ->
            exists acc : list (key * CandleData), dget tf_eqb accs tf = Some acc /\
                        forall k, In k (map fst acc) -> latest < snd k + delta)
    by (intros tf delta Hin; apply Hopen; right; exact Hin).
  destruct (tf_eqb tf0 TF_1T) eqn:E1; [apply IH, Hr|].
  assert (Hne : tf0 <> TF_1T) by (intros ->; discriminate).
  destruct (Hopen tf0 d0 (or_introl eq_refl) Hne) as [acc [Ha Hk]].
  rewrite Ha. destruct acc as [|x xs]; [apply IH, Hr|].
  rewrite (flush_keys_all_open _ _ _ _ _ _ Hk).
  rewrite (dset_dget_same tf_eqb tf_eqb_spec _ _ _ Ha).
  rewrite (IH _ Hr). reflexivity.
Qed.

Lemma dget_In_NoDup {K V : Type} (eqk : K -> K -> bool)
    (eqk_spec : forall a b, eqk a b = true <-> a = b) (m : list (K * V)) (k : K) (v : V) :
  NoDup (map fst m) -> In (k, v) m -> dget eqk m k = Some v.
Proof.
  induction m as [|[k0 v0] r IH]; cbn [dget map fst]; intros Hnd Hin; [destruct Hin|].
  inversion Hnd as [|? ? Hnotin Hnd']; subst.
  destruct Hin as [Hin|Hin].
  - inversion Hin; subst. rewrite (eqk_refl eqk eqk_spec). reflexivity.
  - destruct (eqk k k0) eqn:E; [|exact (IH Hnd' Hin)].
    apply eqk_spec in E; subst k0. exfalso. apply Hnotin.
    apply (in_map fst r (k, v)); exact Hin.
Qed.

Lemma In_dget_not_None {K V : Type} (eqk : K -> K -> bool)
    (eqk_spec : forall a b, eqk a b = true <-> a = b) (m : list (K * V)) (k : K) :
  In k (map fst m) -> dget eqk m k <> None.
Proof. intros Hin H. apply (dget_None_notin eqk eqk_spec) in H. contradiction. Qed.

(** [flush_closed(latest_m1)] leaves nothing to do for a later call at the
    same or an earlier [latest_m1]: whatever [is_historical_complete]
    answers the second time, that call writes nothing and leaves the
    aggregator unchanged.  (The config lists each timeframe once, every
    higher timeframe has an accumulator, and accumulator keys are distinct,
    as in a dict.) *)
Theorem flush_closed_again_noop (hc hc' : Z -> Timeframe -> datetime -> bool) (agg : Aggregator)
    (latest latest' : datetime) :
  NoDup (map fst (tf_cfg agg)) ->
  (forall tf, In tf (map fst (tf_cfg agg)) -> tf <> TF_1T ->
     exists acc, dget tf_eqb (_tf_acc agg) tf = Some acc /\ NoDup (map fst acc)) ->
  latest' <= latest ->
  exists agg1 calls,
    flush_closed hc agg latest = Some (agg1, calls) /\
    flush_closed hc' agg1 latest' = Some (agg1, []).
Proof.
  intros Hnd Hacc Hle.
  assert (Hacc' : forall tf', In tf' (map fst (tf_cfg agg)) -> tf' <> TF_1T ->
                    dget tf_eqb (_tf_acc agg) tf' <> None)
    by (intros tf' Hin Hne; destruct (Hacc tf' Hin Hne) as [acc [Ha _]]; rewrite Ha; discriminate).
  destruct (flush_tfs_spec hc latest TF_1T (tf_cfg agg) (_tf_acc agg) Hnd Hacc')
    as [accs' [calls [Hf _]]].
  exists (with_tf_acc agg accs'), calls. unfold flush_closed. rewrite Hf. split; [reflexivity|].
  cbn [with_tf_acc tf_cfg _tf_acc]. rewrite flush_tfs_all_open; [reflexivity|].
  intros tf delta Hin Htf.
  assert (Hd : dget tf_eqb (tf_cfg agg) tf = Some delta)
    by exact (dget_In_NoDup tf_eqb tf_eqb_spec _ _ _ Hnd Hin).
  destruct (Hacc tf (in_map fst _ (tf, delta) Hin) Htf) as [acc [Ha Hndacc]].
  destruct (flush_tfs_spec hc latest tf (tf_cfg agg) (_tf_acc agg) Hnd Hacc')
    as [accs'' [calls' [Hf' [Hget _]]]].
  rewrite Hf in Hf'. inversion Hf'; subst accs'' calls'.
  rewrite Hd, Ha in Hget.
  replace (tf_eqb tf TF_1T) with false in Hget
    by (destruct (tf_eqb tf TF_1T) eqn:E; [apply tf_eqb_spec in E; contradiction | reflexivity]).
  eexists. split; [exact Hget|].
  intros k Hk.
  destruct (flush_keys_spec hc tf delta latest acc acc Hndacc Hndacc) as [Hs _].
  pose proof (In_dget_not_None key_eqb key_eqb_spec _ _ Hk) as Hk'.
  rewrite Hs in Hk'.
  destruct (existsb (key_eqb k) (map fst acc) && (snd k + delta <=? latest)) eqn:C;
    [contradiction|].
  assert (Hin_acc : existsb (key_eqb k) (map fst acc) = true).
  { apply existsb_exists. exists k. split; [|apply (eqk_refl key_eqb key_eqb_spec)].
    destruct (dget key_eqb acc k) eqn:Hg; [|contradiction].
    apply (dget_In key_eqb key_eqb_spec) in Hg. apply (in_map fst acc (k, c)); exact Hg. }
  rewrite Hin_acc in C. cbn [andb] in C. apply Z.leb_gt in C. lia.
Qed.

(** Witness: the default aggregator holding one closed and one open 5-minute
    bucket, flushed at 15:07 and again at 15:07. *)
Lemma flush_closed_again_noop_witness :
  exists agg1 calls,
    flush_closed (fun _ _ _ => true)
      (with_tf_acc default_aggregator
         [(TF_5T, [((1, utc 2024 1 2 15 0 0), new_acc_entry (mkM1 (Some 1) (Some 2) (Some 1) (Some 2) (Some 3)));
                   ((1, utc 2024 1 2 15 5 0), new_acc_entry (mkM1 (Some 2) (Some 2) (Some 2) (Some 2) (Some 1)))]);
          (TF_15T, []); (TF_30T, []); (TF_1H, []); (TF_4H, []); (TF_1D, [])])
      (utc 2024 1 2 15 7 0) = Some (agg1, calls) /\
    flush_closed (fun _ _ _ => false) agg1 (utc 2024 1 2 15 7 0) = Some (agg1, []).
Proof.
  apply flush_closed_again_noop.
  - cbn. repeat constructor; cbn; intuition discriminate.
  - intros tf Hin Htf. cbn in Hin.
    destruct Hin as [<-|[<-|[<-|[<-|[<-|[<-|[<-|[]]]]]]]]; [contradiction| | | | | |];
      (eexists; split; [reflexivity | cbn; repeat constructor; cbn; intuition
        (vm_compute in *; discriminate)]).
  - lia.
Defined.

(* ------------------------------------------------------------------------- *)
(** ** Dictionaries filled by a loop *)

Section FoldDict.
Context {K V : Type} (eqk : K -> K -> bool).
Hypothesis eqk_spec : forall a b, eqk a b = true <-> a = b.

Lemma dget_dset_cases (m : list (K * V)) (k k' : K) (v : V) :
  dget eqk (dset eqk m k v) k' = if eqk k k' then Some v else dget eqk m k'.
Proof.
  destruct (eqk k k') eqn:E.
  - apply eqk_spec in E; subst. apply (dget_dset_eq eqk eqk_spec).
  - apply (dget_dset_neq eqk eqk_spec). intros ->. rewrite (eqk_refl eqk eqk_spec) in E.
    discriminate.
Qed.

Lemma dget_fold_dset {A : Type} (f : A -> K) (g : A -> V) (l : list A) :
  forall (d0 : list (K * V)) (k : K),
  dget eqk (fold_left (fun d a => dset eqk d (f a) (g a)) l d0) k =
  fold_left (fun o a => if eqk (f a) k then Some (g a) else o) l (dget eqk d0 k).
Proof.
  induction l as [|a r IH]; intros d0 k; [reflexivity|]. cbn [fold_left].
  rewrite IH, dget_dset_cases. reflexivity.
Qed.

Lemma In_map_fst_dset (m : list (K * V)) (k x : K) (v : V) :
  In x (map fst (dset eqk m k v)) <-> In x (map fst m) \/ x = k.
Proof.
  induction m as [|[k0 v0] r IH]; cbn [dset map fst In].
  - split; [intros [H|[]]; right; auto | intros [[]|H]; left; auto].
  - destruct (eqk k k0) eqn:E.
    + apply eqk_spec in E; subst. cbn [map fst In]. intuition congruence.
    + cbn [map fst In]. rewrite IH. tauto.
Qed.

Lemma dset_NoDup (m : list (K * V)) (k : K) (v : V) :
  NoDup (map fst m) -> NoDup (map fst (dset eqk m k v)).
Proof.
  induction m as [|[k0 v0] r IH]; cbn [dset map fst]; intros Hnd.
  - constructor; [intros []|constructor].
  - inversion Hnd as [|? ? Hn Hr]; subst.
    destruct (eqk k k0) eqn:E; cbn [map fst].
    + constructor; assumption.
    + constructor; [|exact (IH Hr)].
      rewrite In_map_fst_dset. intros [H|H]; [contradiction|].
      subst. rewrite (eqk_refl eqk eqk_spec) in E. discriminate.
Qed.

Lemma fold_dset_NoDup {A : Type} (f : A -> K) (g : A -> V) (l : list A) :
  forall (d0 : list (K * V)), NoDup (map fst d0) ->
  NoDup (map fst (fold_left (fun d a => dset eqk d (f a) (g a)) l d0)).
Proof.
  induction l as [|a r IH]; intros d0 H; [exact H|]. apply IH, dset_NoDup, H.
Qed.

Lemma In_map_fst_fold_dset {A : Type} (f : A -> K) (g : A -> V) (l : list A) :
  forall (d0 : list (K * V)) (x : K),
  In x (map fst (fold_left (fun d a => dset eqk d (f a) (g a)) l d0)) <->
  In x (map fst d0) \/ exists a, In a l /\ f a = x.
Proof.
  induction l as [|a r IH]; intros d0 x; cbn [fold_left].
  - split; [tauto|]. intros [H|[a [[] _]]]. exact H.
  - rewrite IH, In_map_fst_dset. split.
    + intros [[H|H]|[b [Hb Hx]]]; [tauto| |].
      * right. exists a. split; [left; reflexivity | symmetry; exact H].
      * right. exists b. split; [right; exact Hb | exact Hx].
    + intros [H|[b [[Hb|Hb] Hx]]]; [tauto| |].
      * subst. left; right; reflexivity.
      * right. exists b. split; assumption.
Qed.

(** Reading a key back after a loop of [dset]s whose keys are distinct. *)
Lemma fold_last_NoDup (m : list (K * V)) (k : K) :
  NoDup (map fst m) -> forall o0,
  fold_left (fun o kv => if eqk (fst kv) k then Some (snd kv) else o) m o0 =
  match dget eqk m k with Some v => Some v | None => o0 end.
Proof.
  induction m as [|[k0 v0] r IH]; intros Hnd o0; [reflexivity|].
  inversion Hnd as [|? ? Hn Hr]; subst. cbn [fold_left dget fst snd].
  rewrite (IH Hr). destruct (eqk k0 k) eqn:E.
  - apply eqk_spec in E; subst. rewrite (eqk_refl eqk eqk_spec).
    destruct (dget eqk r k) eqn:G; [|reflexivity].
    exfalso. apply Hn. apply (in_map fst r (k, v)). apply (dget_In eqk eqk_spec); exact G.
  - rewrite (eqk_false eqk eqk_spec k k0); [reflexivity|].
    intros ->. rewrite (eqk_refl eqk eqk_spec) in E. discriminate.
Qed.
End FoldDict.

Lemma fold_opt_start {A B : Type} (c : A -> bool) (g : A -> B) (l : list A) :
  forall o0, fold_left (fun o a => if c a then Some (g a) else o) l o0 =
             match fold_left (fun o a => if c a then Some (g a) else o) l None with
             | Some x => Some x
             | None => o0
             end.
Proof.
  induction l as [|a r IH]; intros o0; [reflexivity|]. cbn [fold_left].
  destruct (c a).
  - rewrite (IH (Some (g a))). destruct (fold_left _ r None); reflexivity.
  - rewrite (IH o0), (IH None). destruct (fold_left _ r None); reflexivity.
Qed.

Lemma fold_opt_filter {A B : Type} (p c : A -> bool) (g : A -> B) (l : list A) :
  forall o0, fold_left (fun o a => if c a then Some (g a) else o) (filter p l) o0 =
             fold_left (fun o a => if p a && c a then Some (g a) else o) l o0.
Proof.
  induction l as [|a r IH]; intros o0; [reflexivity|]. cbn [filter fold_left].
  destruct (p a); cbn [andb fold_left]; apply IH.
Qed.

Lemma fold_opt_ext {A B : Type} (c1 c2 : A -> bool) (g : A -> B) (l : list A) :
  (forall a, c1 a = c2 a) ->
  forall o0, fold_left (fun o a => if c1 a then Some (g a) else o) l o0 =
             fold_left (fun o a => if c2 a then Some (g a) else o) l o0.
Proof.
  intros H. induction l as [|a r IH]; intros o0; [reflexivity|]. cbn [fold_left].
  rewrite H. apply IH.
Qed.

Lemma fold_opt_none {A B : Type} (c : A -> bool) (g : A -> B) (l : list A) :
  (forall b, In b l -> c b = false) ->
  forall o0, fold_left (fun o b => if c b then Some (g b) else o) l o0 = o0.
Proof.
  induction l as [|b r IH]; intros H o0; [reflexivity|]. cbn [fold_left].
  rewrite (H b (or_introl eq_refl)). apply IH. intros; apply H; right; assumption.
Qed.

Lemma fold_opt_some {A B : Type} (c : A -> bool) (g : A -> B) (l : list A) (y : B) :
  (forall b, In b l -> c b = true -> g b = y) -> (exists b, In b l /\ c b = true) ->
  forall o0, fold_left (fun o b => if c b then Some (g b) else o) l o0 = Some y.
Proof.
  induction l as [|b r IH]; intros Hy [b0 [Hin Hc]] o0; [destruct Hin|]. cbn [fold_left].
  assert (Hy' : forall b', In b' r -> c b' = true -> g b' = y)
    by (intros; apply Hy; [right|]; assumption).
  destruct (existsb c r) eqn:Ex.
  - apply existsb_exists in Ex. apply (IH Hy' Ex).
  - assert (Hn : forall b', In b' r -> c b' = false).
    { intros b' Hb'. destruct (c b') eqn:C; [|reflexivity].
      exfalso. assert (existsb c r = true) by (apply existsb_exists; exists b'; auto).
      congruence. }
    destruct Hin as [->|Hin]; [|rewrite (Hn b0 Hin) in Hc; discriminate].
    rewrite Hc, (fold_opt_none c g r Hn), (Hy b0 (or_introl eq_refl) Hc). reflexivity.
Qed.

Lemma NoDup_map_inj {A B : Type} (f : A -> B) (l : list A) (a b : A) :
  NoDup (map f l) -> In a l -> In b l -> f a = f b -> a = b.
Proof.
  induction l as [|x r IH]; intros Hnd Ha Hb Hf; [destruct Ha|].
  cbn [map] in Hnd. inversion Hnd as [|? ? Hn Hr]; subst.
  destruct Ha as [->|Ha], Hb as [->|Hb]; [reflexivity| | |exact (IH Hr Ha Hb Hf)].
  - exfalso. apply Hn. rewrite Hf. apply in_map; exact Hb.
  - exfalso. apply Hn. rewrite <- Hf. apply in_map; exact Ha.
Qed.

(* ------------------------------------------------------------------------- *)
(** ** subscriptions.py *)

Lemma smem_In (l : list string) (x : string) : smem l x = true <-> In x l.
Proof.
  unfold smem. rewrite existsb_exists. split.
  - intros [y [Hy E]]. apply String.eqb_eq in E. subst. exact Hy.
  - intros H. exists x. split; [exact H | apply String.eqb_refl].
Qed.

Lemma smem_false (l : list string) (x : string) : smem l x = false <-> ~ In x l.
Proof.
  rewrite <- smem_In. destruct (smem l x); split; congruence.
Qed.

Lemma set_diff_In (a b : list string) (x : string) :
  In x (set_diff a b) <-> In x a /\ ~ In x b.
Proof.
  unfold set_diff. rewrite filter_In, negb_true_iff, smem_false. reflexivity.
Qed.

Lemma set_diff_nil_r (a : list string) : set_diff a [] = a.
Proof. induction a as [|x r IH]; [reflexivity|]. cbn. f_equal. exact IH. Qed.

Lemma set_diff_all (a b : list string) :
  (forall x, In x a -> In x b) -> set_diff a b = [].
Proof.
  intros H. destruct (set_diff a b) as [|y r] eqn:E; [reflexivity|].
  exfalso. assert (Hy : In y (set_diff a b)) by (rewrite E; left; reflexivity).
  apply set_diff_In in Hy. destruct Hy as [Ha Hb]. exact (Hb (H y Ha)).
Qed.

Lemma update_asset_cache_cache (assets_db : list AssetRow) (symbols : list string)
    (m : SubscriptionManager) (sym : string) :
  dget String.eqb (asset_cache (fst (update_asset_cache assets_db symbols m))) sym =
  if smem symbols sym
  then match last_id assets_db sym with
       | Some i => Some i
       | None => dget String.eqb (asset_cache m) sym
       end
  else dget String.eqb (asset_cache m) sym.
Proof.
  unfold update_asset_cache. cbn [fst asset_cache].
  set (assets := filter (fun a => smem symbols (a_symbol a)) assets_db).
  set (nm := fold_left (fun d a => dset String.eqb d (a_symbol a) (a_id a)) assets []).
  rewrite (dget_fold_dset String.eqb String.eqb_eq (@fst string Z) (@snd string Z)).
  rewrite (fold_last_NoDup String.eqb String.eqb_eq nm sym
             (fold_dset_NoDup String.eqb String.eqb_eq a_symbol a_id assets [] (NoDup_nil _))).
  unfold nm. rewrite (dget_fold_dset String.eqb String.eqb_eq a_symbol a_id). cbn [dget].
  unfold assets.
  rewrite (fold_opt_filter (fun a => smem symbols (a_symbol a))
             (fun a => String.eqb (a_symbol a) sym) a_id).
  destruct (smem symbols sym) eqn:Hs.
  - unfold last_id.
    rewrite (fold_opt_ext (fun a => smem symbols (a_symbol a) && String.eqb (a_symbol a) sym)
               (fun a => String.eqb (a_symbol a) sym) a_id assets_db); [reflexivity|].
    intros a. destruct (String.eqb (a_symbol a) sym) eqn:E; [|apply andb_false_r].
    apply String.eqb_eq in E. rewrite E, Hs. reflexivity.
  - rewrite (fold_opt_none (fun a => smem symbols (a_symbol a) && String.eqb (a_symbol a) sym)
               a_id assets_db); [reflexivity|].
    intros b _. destruct (String.eqb (a_symbol b) sym) eqn:E; [|apply andb_false_r].
    apply String.eqb_eq in E. rewrite E, Hs. reflexivity.
Qed.

Lemma update_asset_cache_class (assets_db : list AssetRow) (symbols : list string)
    (m : SubscriptionManager) (i : Z) :
  dget Z.eqb (asset_class_cache (fst (update_asset_cache assets_db symbols m))) i =
  match last_class assets_db symbols i with
  | Some c => Some c
  | None => dget Z.eqb (asset_class_cache m) i
  end.
Proof.
  unfold update_asset_cache. cbn [fst asset_class_cache].
  rewrite (dget_fold_dset Z.eqb Z.eqb_eq a_id a_class).
  rewrite (fold_opt_filter (fun a => smem symbols (a_symbol a)) (fun a => a_id a =? i) a_class).
  apply (fold_opt_start (fun a => smem symbols (a_symbol a) && (a_id a =? i)) a_class).
Qed.

Lemma update_asset_cache_events (assets_db : list AssetRow) (symbols : list string)
    (m : SubscriptionManager) :
  (snd (update_asset_cache assets_db symbols m) = [] /\
   ~ exists a, In a assets_db /\ In (a_symbol a) symbols) \/
  (exists l, snd (update_asset_cache assets_db symbols m) = [AssetsAdded l] /\ NoDup l /\
   forall s, In s l <-> In s symbols /\ exists a, In a assets_db /\ a_symbol a = s).
Proof.
  unfold update_asset_cache. cbn [snd].
  set (assets := filter (fun a => smem symbols (a_symbol a)) assets_db).
  pose proof (In_map_fst_fold_dset String.eqb String.eqb_eq a_symbol a_id assets []) as Hk.
  pose proof (fold_dset_NoDup String.eqb String.eqb_eq a_symbol a_id assets [] (NoDup_nil _)) as Hnd.
  destruct (fold_left (fun d a => dset String.eqb d (a_symbol a) (a_id a)) assets [])
    as [|x xs] eqn:E.
  - left. split; [reflexivity|]. intros [a [Ha Hs]].
    refine (proj2 (Hk (a_symbol a)) _). right. exists a. split; [|reflexivity].
    unfold assets. apply filter_In. split; [exact Ha | apply smem_In; exact Hs].
  - right. exists (map fst (x :: xs)). split; [reflexivity|]. split; [exact Hnd|].
    intros s. rewrite Hk. unfold assets. split.
    + intros [[]|[a [Ha Hs]]]. apply filter_In in Ha. destruct Ha as [Ha Hm].
      apply smem_In in Hm. subst s. split; [exact Hm|]. exists a; split; [exact Ha|reflexivity].
    + intros [Hs [a [Ha Ha']]]. right. exists a. split; [|exact Ha'].
      apply filter_In. split; [exact Ha|]. apply smem_In. rewrite Ha'. exact Hs.
Qed.

(** [update_asset_cache(symbols)]: the symbol cache of a queried symbol found
    in the [Asset] table now holds the id of the last row with that symbol,
    every other entry is kept; the class cache of an id now holds the class
    of the last queried row with that id, every other entry is kept.
    [on_assets_added] is called once, with exactly the queried symbols found
    in the table, each once, and not at all when none is found; the set of
    subscribed symbols is not touched. *)
Theorem update_asset_cache_spec (assets_db : list AssetRow) (symbols : list string)
    (m : SubscriptionManager) :
  subscribed_symbols (fst (update_asset_cache assets_db symbols m)) = subscribed_symbols m /\
  (forall sym, dget String.eqb (asset_cache (fst (update_asset_cache assets_db symbols m))) sym =
     if smem symbols sym
     then match last_id assets_db sym with
          | Some i => Some i
          | None => dget String.eqb (asset_cache m) sym
          end
     else dget String.eqb (asset_cache m) sym) /\
  (forall i, dget Z.eqb (asset_class_cache (fst (update_asset_cache assets_db symbols m))) i =
     match last_class assets_db symbols i with
     | Some c => Some c
     | None => dget Z.eqb (asset_class_cache m) i
     end) /\
  ((snd (update_asset_cache assets_db symbols m) = [] /\
    ~ exists a, In a assets_db /\ In (a_symbol a) symbols) \/
   (exists l, snd (update_asset_cache assets_db symbols m) = [AssetsAdded l] /\ NoDup l /\
    forall s, In s l <-> In s symbols /\ exists a, In a assets_db /\ a_symbol a = s)).
Proof.
  split; [reflexivity|]. split; [apply update_asset_cache_cache|].
  split; [apply update_asset_cache_class | apply update_asset_cache_events].
Qed.

Lemma reconcile_subscribed_eq (assets_db : list AssetRow) (current : list string)
    (m : SubscriptionManager) :
  subscribed_symbols (fst (reconcile assets_db current m)) =
  set_diff (subscribed_symbols m ++ set_diff current (subscribed_symbols m))
           (set_diff (subscribed_symbols m) current).
Proof.
  unfold reconcile.
  destruct (set_diff current (subscribed_symbols m)) as [|n ns] eqn:Hn;
  destruct (set_diff (subscribed_symbols m) current) as [|g gs] eqn:Hg;
  rewrite ?app_nil_r, ?set_diff_nil_r; try reflexivity;
  destruct (update_asset_cache assets_db (n :: ns) m) as [m' ev] eqn:Hu;
  pose proof (f_equal (fun p => subscribed_symbols (fst p)) Hu) as Hs; cbn in Hs;
  cbn; rewrite Hs, ?set_diff_nil_r; reflexivity.
Qed.

Lemma reconcile_subscribed_In (assets_db : list AssetRow) (current : list string)
    (m : SubscriptionManager) (s : string) :
  In s (subscribed_symbols (fst (reconcile assets_db current m))) <-> In s current.
Proof.
  rewrite reconcile_subscribed_eq, set_diff_In, in_app_iff, !set_diff_In.
  destruct (in_dec string_dec s current), (in_dec string_dec s (subscribed_symbols m)); tauto.
Qed.

Lemma reconcile_synced (assets_db : list AssetRow) (current : list string)
    (m : SubscriptionManager) :
  (forall s, In s (subscribed_symbols m) <-> In s current) ->
  reconcile assets_db current m = (m, []).
Proof.
  intros H. unfold reconcile.
  rewrite (set_diff_all current (subscribed_symbols m)) by (intros x; apply H).
  rewrite (set_diff_all (subscribed_symbols m) current) by (intros x; apply H).
  reflexivity.
Qed.

Lemma reconcile_events (assets_db : list AssetRow) (current : list string)
    (m : SubscriptionManager) :
  exists evu, (forall a l, ~ In (Send a l) evu) /\
    snd (reconcile assets_db current m) =
    evu ++ sends_of "subscribe" (set_diff current (subscribed_symbols m)) ++
           sends_of "unsubscribe" (set_diff (subscribed_symbols m) current).
Proof.
  unfold reconcile.
  destruct (set_diff current (subscribed_symbols m)) as [|n ns] eqn:Hn.
  - exists []. split; [intros a l []|].
    destruct (set_diff (subscribed_symbols m) current); reflexivity.
  - destruct (update_asset_cache assets_db (n :: ns) m) as [m' ev] eqn:Hu.
    exists ev. split.
    + intros a l Hin.
      destruct (update_asset_cache_events assets_db (n :: ns) m) as [[E _]|[l' [E _]]];
        rewrite Hu in E; cbn [snd] in E; subst ev; [destruct Hin|].
      destruct Hin as [Hin|[]]; discriminate.
    + destruct (set_diff (subscribed_symbols m) current); cbn [sends_of snd];
        rewrite <- app_assoc; reflexivity.
Qed.

Lemma In_sends_of (a a' : string) (l l' : list string) :
  In (Send a' l') (sends_of a l) -> a' = a /\ l' = l.
Proof.
  destruct l; cbn; [intros []|]. intros [H|[]]. inversion H; subst; split; reflexivity.
Qed.

Lemma sends_of_In (a s : string) (l : list string) :
  In s l -> In (Send a l) (sends_of a l).
Proof. destruct l; cbn; [intros []|]. intros _; left; reflexivity. Qed.

(** [reconcile()] leaves the subscribed set equal to the watchlist
    symbols. *)
Theorem reconcile_subscribed (assets_db : list AssetRow) (current : list string)
    (m : SubscriptionManager) :
  forall s, In s (subscribed_symbols (fst (reconcile assets_db current m))) <-> In s current.
Proof. apply reconcile_subscribed_In. Qed.

(** [reconcile()] sends [subscribe] only for watchlist symbols that were not
    subscribed and [unsubscribe] only for subscribed symbols no longer on a
    watchlist, and it sends each such symbol; no other [send] is made. *)
Theorem reconcile_sends (assets_db : list AssetRow) (current : list string)
    (m : SubscriptionManager) :
  (forall action syms, In (Send action syms) (snd (reconcile assets_db current m)) ->
     (action = "subscribe"%string /\
      forall s, In s syms <-> In s current /\ ~ In s (subscribed_symbols m)) \/
     (action = "unsubscribe"%string /\
      forall s, In s syms <-> In s (subscribed_symbols m) /\ ~ In s current)) /\
  (forall s, In s current -> ~ In s (subscribed_symbols m) ->
     exists syms, In (Send "subscribe" syms) (snd (reconcile assets_db current m)) /\ In s syms) /\
  (forall s, In s (subscribed_symbols m) -> ~ In s current ->
     exists syms, In (Send "unsubscribe" syms) (snd (reconcile assets_db current m)) /\ In s syms).
Proof.
  destruct (reconcile_events assets_db current m) as [evu [Hu E]]. rewrite E.
  split; [|split].
  - intros action syms Hin. apply in_app_iff in Hin.
    destruct Hin as [Hin|Hin]; [exfalso; exact (Hu _ _ Hin)|].
    apply in_app_iff in Hin. destruct Hin as [Hin|Hin]; apply In_sends_of in Hin;
      destruct Hin as [-> ->]; [left|right]; split; try reflexivity; intros s; apply set_diff_In.
  - intros s Hc Hs. exists (set_diff current (subscribed_symbols m)).
    split; [|apply set_diff_In; tauto].
    apply in_app_iff; right. apply in_app_iff; left. apply (sends_of_In _ s).
    apply set_diff_In; tauto.
  - intros s Hs Hc. exists (set_diff (subscribed_symbols m) current).
    split; [|apply set_diff_In; tauto].
    apply in_app_iff; right. apply in_app_iff; right. apply (sends_of_In _ s).
    apply set_diff_In; tauto.
Qed.

(** Reconciling again against an unchanged watchlist sends nothing, calls no
    callback and changes nothing. *)
Theorem reconcile_again_quiet (assets_db : list AssetRow) (current : list string)
    (m : SubscriptionManager) :
  reconcile assets_db current (fst (reconcile assets_db current m)) =
  (fst (reconcile assets_db current m), []).
Proof. apply reconcile_synced. apply reconcile_subscribed_In. Qed.

Lemma group_symbols_filter (c : list (string * Z)) (k : list (Z * string)) (syms : list string) :
  forall stocks crypto,
  group_symbols c k syms stocks crypto =
  (stocks ++ filter (fun s => match route_of c k s with Some false => true | _ => false end) syms,
   crypto ++ filter (fun s => match route_of c k s with Some true => true | _ => false end) syms).
Proof.
  induction syms as [|x r IH]; intros st cr; cbn [group_symbols filter].
  - rewrite !app_nil_r. reflexivity.
  - remember (route_of c k x) as rx eqn:Hrx. unfold route_of in Hrx.
    destruct (dget String.eqb c x) as [aid|];
      [destruct (aid =? 0); cbn [negb];
       [|destruct (dget Z.eqb k aid) as [cl|]; [destruct (String.eqb cl "crypto")|]]|];
      subst rx; rewrite IH; rewrite <- ?app_assoc; reflexivity.
Qed.

Lemma send_subscription_routes (authenticated ready_stocks ready_crypto : bool)
    (m : SubscriptionManager) (action : string) (symbols : list string) :
  let out := _send_subscription authenticated ready_stocks ready_crypto m action symbols in
  (forall a l, In (StocksSend a l) out ->
     a = action /\ l <> [] /\
     forall s, In s l <-> In s symbols /\ route_of (asset_cache m) (asset_class_cache m) s = Some false) /\
  (forall a l l', In (CryptoSend a l l') out ->
     a = action /\ l' = l /\ l <> [] /\
     forall s, In s l <-> In s symbols /\ route_of (asset_cache m) (asset_class_cache m) s = Some true) /\
  (authenticated = true -> ready_stocks = true -> forall s, In s symbols ->
     route_of (asset_cache m) (asset_class_cache m) s = Some false ->
     exists l, In (StocksSend action l) out /\ In s l) /\
  (authenticated = true -> ready_crypto = true -> forall s, In s symbols ->
     route_of (asset_cache m) (asset_class_cache m) s = Some true ->
     exists l, In (CryptoSend action l l) out /\ In s l) /\
  (authenticated = false -> out = []).
Proof.
  cbv zeta. unfold _send_subscription.
  destruct symbols as [|x xs].
  - cbn. split; [intros a l []|]. split; [intros a l l' []|].
    split; [intros _ _ s []|]. split; [intros _ _ s []|]. intros _; reflexivity.
  - rewrite group_symbols_filter. cbn [app].
    set (fs := filter (fun s => match route_of (asset_cache m) (asset_class_cache m) s with
                                | Some false => true | _ => false end) (x :: xs)).
    set (fc := filter (fun s => match route_of (asset_cache m) (asset_class_cache m) s with
                                | Some true => true | _ => false end) (x :: xs)).
    assert (Fs : forall s, In s fs <-> In s (x :: xs) /\
                   route_of (asset_cache m) (asset_class_cache m) s = Some false).
    { intros s. unfold fs. rewrite filter_In.
      destruct (route_of (asset_cache m) (asset_class_cache m) s) as [[|]|];
        intuition congruence. }
    assert (Fc : forall s, In s fc <-> In s (x :: xs) /\
                   route_of (asset_cache m) (asset_class_cache m) s = Some true).
    { intros s. unfold fc. rewrite filter_In.
      destruct (route_of (asset_cache m) (asset_class_cache m) s) as [[|]|];
        intuition congruence. }
    clearbody fs fc.
    split; [|split; [|split; [|split]]].
    + intros a l Hin. apply in_app_iff in Hin.
      destruct Hin as [Hin|Hin];
        [|destruct (authenticated && ready_crypto && _); [destruct Hin as [H|[]]; discriminate
                                                        | destruct Hin]].
      destruct (authenticated && ready_stocks && negb _) eqn:C; [|destruct Hin].
      destruct Hin as [H|[]]. inversion H; subst.
      split; [reflexivity|]. split; [|exact Fs].
      intros ->. rewrite !andb_true_iff in C. destruct C as [_ C]. discriminate.
    + intros a l l' Hin. apply in_app_iff in Hin.
      destruct Hin as [Hin|Hin];
        [destruct (authenticated && ready_stocks && _); [destruct Hin as [H|[]]; discriminate
                                                        | destruct Hin]|].
      destruct (authenticated && ready_crypto && negb _) eqn:C; [|destruct Hin].
      destruct Hin as [H|[]]. inversion H; subst.
      split; [reflexivity|]. split; [reflexivity|]. split; [|exact Fc].
      intros ->. rewrite !andb_true_iff in C. destruct C as [_ C]. discriminate.
    + intros -> -> s Hs Hr. exists fs.
      assert (Hin : In s fs) by (apply Fs; split; assumption).
      split; [|exact Hin]. apply in_app_iff; left.
      destruct fs as [|y ys]; [destruct Hin|]. cbn. left; reflexivity.
    + intros -> -> s Hs Hr. exists fc.
      assert (Hin : In s fc) by (apply Fc; split; assumption).
      split; [|exact Hin]. apply in_app_iff; right.
      destruct fc as [|y ys]; [destruct Hin|]. cbn. left; reflexivity.
    + intros ->. reflexivity.
Qed.

(** [_send_subscription(action, symbols)] puts a symbol on the crypto socket
    when its cached asset class is ["crypto"] and on the stocks socket
    otherwise, and only when the symbol cache holds a non-zero id for it: a
    symbol missing from the cache (or cached with id 0) is never sent.  Each
    socket gets one payload, with all its symbols, when the client is
    authenticated, the socket is ready and there is something to send;
    nothing is sent unless the client is authenticated. *)
Theorem _send_subscription_spec (authenticated ready_stocks ready_crypto : bool)
    (m : SubscriptionManager) (action : string) (symbols : list string) :
  let out := _send_subscription authenticated ready_stocks ready_crypto m action symbols in
  (forall a l, In (StocksSend a l) out ->
     a = action /\ l <> [] /\
     forall s, In s l <-> In s symbols /\ route_of (asset_cache m) (asset_class_cache m) s = Some false) /\
  (forall a l l', In (CryptoSend a l l') out ->
     a = action /\ l' = l /\ l <> [] /\
     forall s, In s l <-> In s symbols /\ route_of (asset_cache m) (asset_class_cache m) s = Some true) /\
  (authenticated = true -> ready_stocks = true -> forall s, In s symbols ->
     route_of (asset_cache m) (asset_class_cache m) s = Some false ->
     exists l, In (StocksSend action l) out /\ In s l) /\
  (authenticated = true -> ready_crypto = true -> forall s, In s symbols ->
     route_of (asset_cache m) (asset_class_cache m) s = Some true ->
     exists l, In (CryptoSend action l l) out /\ In s l) /\
  (authenticated = false -> out = []).
Proof. apply send_subscription_routes. Qed.

Lemma reconcile_caches (assets_db : list AssetRow) (current : list string)
    (m : SubscriptionManager) (n : string) (ns : list string) :
  set_diff current (subscribed_symbols m) = n :: ns ->
  asset_cache (fst (reconcile assets_db current m)) =
    asset_cache (fst (update_asset_cache assets_db (n :: ns) m)) /\
  asset_class_cache (fst (reconcile assets_db current m)) =
    asset_class_cache (fst (update_asset_cache assets_db (n :: ns) m)).
Proof.
  intros Hn. unfold reconcile. rewrite Hn.
  destruct (update_asset_cache assets_db (n :: ns) m) as [m' ev].
  destruct (set_diff (subscribed_symbols m) current); split; reflexivity.
Qed.

(** In [reconcile()] the asset caches are filled before [send] is called
    (the later [unsubscribe] branch does not touch them): a newly watched
    symbol whose [Asset] row is the one the cache keeps for it and has a
    non-zero id is subscribed on the crypto socket when the row's class is
    ["crypto"] and on the stocks socket otherwise (client authenticated,
    sockets ready; asset ids are distinct, as primary keys). *)
Theorem reconcile_routes_new (assets_db : list AssetRow) (current : list string)
    (m : SubscriptionManager) (a : AssetRow) :
  NoDup (map a_id assets_db) -> In a assets_db ->
  In (a_symbol a) current -> ~ In (a_symbol a) (subscribed_symbols m) ->
  last_id assets_db (a_symbol a) = Some (a_id a) -> a_id a <> 0 ->
  exists syms,
    In (Send "subscribe" syms) (snd (reconcile assets_db current m)) /\ In (a_symbol a) syms /\
    exists l,
      In (if String.eqb (a_class a) "crypto" then CryptoSend "subscribe" l l
          else StocksSend "subscribe" l)
         (_send_subscription true true true (fst (reconcile assets_db current m)) "subscribe" syms) /\
      In (a_symbol a) l.
Proof.
  intros Hids Ha Hc Hs Hlast Hnz.
  set (new := set_diff current (subscribed_symbols m)).
  assert (Hnew : In (a_symbol a) new) by (apply set_diff_In; split; assumption).
  destruct new as [|n ns] eqn:En; [destruct Hnew|].
  destruct (reconcile_caches assets_db current m n ns En) as [Hca Hcl].
  assert (Hroute : route_of (asset_cache (fst (reconcile assets_db current m)))
                     (asset_class_cache (fst (reconcile assets_db current m))) (a_symbol a) =
                   Some (String.eqb (a_class a) "crypto")).
  { unfold route_of. rewrite Hca, update_asset_cache_cache.
    replace (smem (n :: ns) (a_symbol a)) with true by (symmetry; apply smem_In; exact Hnew).
    rewrite Hlast. replace (a_id a =? 0) with false by (symmetry; apply Z.eqb_neq; exact Hnz).
    rewrite Hcl, update_asset_cache_class.
    unfold last_class.
    rewrite (fold_opt_some (fun b => smem (n :: ns) (a_symbol b) && (a_id b =? a_id a)) a_class
               assets_db (a_class a)); [reflexivity| |].
    - intros b Hb Cb. apply andb_true_iff in Cb. destruct Cb as [_ Cb]. apply Z.eqb_eq in Cb.
      rewrite (NoDup_map_inj a_id assets_db b a Hids Hb Ha Cb). reflexivity.
    - exists a. split; [exact Ha|]. apply andb_true_iff. split; [apply smem_In; exact Hnew|].
      apply Z.eqb_refl. }
  exists (n :: ns). split.
  - destruct (reconcile_events assets_db current m) as [evu [_ E]]. rewrite E.
    apply in_app_iff; right. apply in_app_iff; left. fold new. rewrite En. cbn. left; reflexivity.
  - split; [exact Hnew|].
    destruct (send_subscription_routes true true true (fst (reconcile assets_db current m))
                "subscribe" (n :: ns)) as [_ [_ [Hst [Hcr _]]]].
    destruct (String.eqb (a_class a) "crypto").
    + exact (Hcr eq_refl eq_refl (a_symbol a) Hnew Hroute).
    + exact (Hst eq_refl eq_refl (a_symbol a) Hnew Hroute).
Qed.

(** Witness: a crypto asset newly on a watchlist beside an equity, nothing
    subscribed yet. *)
Lemma reconcile_routes_new_witness :
  exists syms,
    In (Send "subscribe"%string syms)
       (snd (reconcile [mkAsset "AAPL"%string 1 "us_equity"%string; mkAsset "BTC/USD"%string 7 "crypto"%string]
               ["AAPL"%string; "BTC/USD"%string] (mkSubs [] [] []))) /\ In "BTC/USD"%string syms /\
    exists l,
      In (if String.eqb "crypto"%string "crypto"%string then CryptoSend "subscribe"%string l l
          else StocksSend "subscribe"%string l)
         (_send_subscription true true true
            (fst (reconcile [mkAsset "AAPL"%string 1 "us_equity"%string; mkAsset "BTC/USD"%string 7 "crypto"%string]
                    ["AAPL"%string; "BTC/USD"%string] (mkSubs [] [] []))) "subscribe"%string syms) /\
      In "BTC/USD"%string l.
Proof.
  apply (reconcile_routes_new [mkAsset "AAPL"%string 1 "us_equity"%string; mkAsset "BTC/USD"%string 7 "crypto"%string]
           ["AAPL"%string; "BTC/USD"%string] (mkSubs [] [] []) (mkAsset "BTC/USD"%string 7 "crypto"%string)).
  - cbn. repeat constructor; cbn; intuition discriminate.
  - cbn. right; left; reflexivity.
  - cbn. right; left; reflexivity.
  - cbn. intros [].
  - vm_compute. reflexivity.
  - discriminate.
Defined.

(* ------------------------------------------------------------------------- *)
(** ** The bar loop of [_process_batch] *)

Lemma collect_bars_step (is_rth : datetime -> bool) (sym_to_id : list (string * Z))
    (id_to_class : list (Z * string)) (b : BarMsg) (r : list BarMsg)
    (acc : list (key * CandleData)) :
  collect_bars is_rth sym_to_id id_to_class (b :: r) acc =
  collect_bars is_rth sym_to_id id_to_class r
    (match accepted_bar is_rth sym_to_id id_to_class b with
     | Some (k, d) => dset key_eqb acc k d
     | None => acc
     end).
Proof.
  cbn [collect_bars]. unfold accepted_bar.
  destruct (match b_S b with Some sym => dget String.eqb sym_to_id sym | None => None end)
    as [aid|]; [|reflexivity].
  destruct (b_t b) as [ts|]; [|reflexivity].
  destruct (rth_class (dget Z.eqb id_to_class aid) && negb (is_rth (parse_tick_timestamp ts)));
    reflexivity.
Qed.

Lemma last_for_app {V : Type} (k : key) (l1 l2 : list (key * V)) :
  last_for k (l1 ++ l2) = match last_for k l2 with Some x => Some x | None => last_for k l1 end.
Proof.
  unfold last_for. rewrite fold_left_app.
  apply (fold_opt_start (fun kv : key * V => key_eqb (fst kv) k) snd).
Qed.

Lemma collect_bars_get (is_rth : datetime -> bool) (sym_to_id : list (string * Z))
    (id_to_class : list (Z * string)) (bars : list BarMsg) :
  forall acc k,
  dget key_eqb (collect_bars is_rth sym_to_id id_to_class bars acc) k =
  match last_for k (flat_map (fun b => match accepted_bar is_rth sym_to_id id_to_class b with
                                       | Some kd => [kd] | None => [] end) bars) with
  | Some d => Some d
  | None => dget key_eqb acc k
  end.
Proof.
  induction bars as [|b r IH]; intros acc k; [reflexivity|].
  rewrite collect_bars_step, IH. cbn [flat_map]. rewrite last_for_app.
  destruct (accepted_bar is_rth sym_to_id id_to_class b) as [[k0 d]|];
    [|destruct (last_for k _); reflexivity].
  rewrite (dget_dset_cases key_eqb key_eqb_spec).
  destruct (last_for k _); [reflexivity|]. cbn. destruct (key_eqb k0 k); reflexivity.
Qed.

(** The bar loop of [_process_batch] keeps, for each minute key, the row of
    the last accepted bar with that key: an earlier bar of the same minute
    is replaced, not merged, and a key no accepted bar has gets no row. *)
Theorem collect_bars_last (is_rth : datetime -> bool) (sym_to_id : list (string * Z))
    (id_to_class : list (Z * string)) (bars : list BarMsg) (k : key) :
  dget key_eqb (collect_bars is_rth sym_to_id id_to_class bars []) k =
  last_for k (flat_map (fun b => match accepted_bar is_rth sym_to_id id_to_class b with
                                 | Some kd => [kd] | None => [] end) bars).
Proof.
  rewrite collect_bars_get. destruct (last_for _ _); reflexivity.
Qed.

(* ------------------------------------------------------------------------- *)
(** ** Attaching minute ids *)

Lemma NoDup_snoc (l : list Z) (x : Z) : NoDup l -> ~ In x l -> NoDup (l ++ [x]).
Proof.
  intros Hnd Hx. apply (Permutation_NoDup (Permutation_cons_append l x)).
  constructor; assumption.
Qed.

Lemma attach_result (acc : list (key * CandleData)) (k : key) (X : CandleData) (l : list Z)
    (i_opt : option Z) (old : option CandleData) :
  dget key_eqb acc k = old ->
  acc_mids_ok acc -> d_minute_candle_ids X = Some (Some l) -> NoDup l ->
  (forall i, i_opt = Some i -> In i l) ->
  (forall e, old = Some e -> same_ohlcv e X /\ mids_grow e X) ->
  acc_mids_ok (dset key_eqb acc k X) /\
  (forall k', k' <> k -> dget key_eqb (dset key_eqb acc k X) k' = dget key_eqb acc k') /\
  exists e' l', dget key_eqb (dset key_eqb acc k X) k = Some e' /\
    d_minute_candle_ids e' = Some (Some l') /\ (forall i, i_opt = Some i -> In i l') /\
    (forall e, old = Some e -> same_ohlcv e e' /\ mids_grow e e').
Proof.
  intros Hold Hok HX Hnd Hi Ho. split; [|split].
  - intros k' e. rewrite (dget_dset_cases key_eqb key_eqb_spec).
    destruct (key_eqb k k'); [|apply Hok].
    intros H; inversion H; subst. unfold mids_ok. rewrite HX. exact Hnd.
  - intros k' Hne. apply (dget_dset_neq key_eqb key_eqb_spec). congruence.
  - exists X, l. split; [apply (dget_dset_eq key_eqb key_eqb_spec)|].
    split; [exact HX|]. split; assumption.
Qed.

Lemma same_ohlcv_refl (e : CandleData) : same_ohlcv e e.
Proof. unfold same_ohlcv; repeat split; reflexivity. Qed.

Lemma same_ohlcv_trans (e1 e2 e3 : CandleData) :
  same_ohlcv e1 e2 -> same_ohlcv e2 e3 -> same_ohlcv e1 e3.
Proof. unfold same_ohlcv. intuition congruence. Qed.

Lemma mids_grow_trans (e1 e2 e3 : CandleData) :
  mids_grow e1 e2 -> mids_grow e2 e3 -> mids_grow e1 e3.
Proof.
  intros H12 H23 l0 H1. destruct (H12 l0 H1) as [l [H2 I1]].
  destruct (H23 l H2) as [l' [H3 I2]]. exists l'. split; [exact H3|].
  intros x Hx; apply I2, I1, Hx.
Qed.

Lemma mids_grow_refl (e : CandleData) : mids_grow e e.
Proof. intros l0 H. exists l0. split; [exact H | intros x Hx; exact Hx]. Qed.

Lemma attach_minute_id_spec (ids : list (key * Z)) (delta : timedelta)
    (acc : list (key * CandleData)) (mk : key) :
  acc_mids_ok acc ->
  exists acc', attach_minute_id ids delta acc mk = Some acc' /\ acc_mids_ok acc' /\
    (forall k, k <> bucket_key delta mk -> dget key_eqb acc' k = dget key_eqb acc k) /\
    exists e' l, dget key_eqb acc' (bucket_key delta mk) = Some e' /\
      d_minute_candle_ids e' = Some (Some l) /\
      (forall i, dget key_eqb ids mk = Some i -> In i l) /\
      (forall e, dget key_eqb acc (bucket_key delta mk) = Some e -> same_ohlcv e e' /\ mids_grow e e').
Proof.
  intros Hok. destruct mk as [aid m1]. unfold bucket_key. cbn [fst snd].
  unfold attach_minute_id. cbv zeta.
  set (k := (aid, floor_to_bucket m1 delta)).
  destruct (dget key_eqb acc k) as [e|] eqn:He.
  - pose proof (Hok k e He) as Hme. unfold mids_ok in Hme.
    destruct (d_minute_candle_ids e) as [[l|]|] eqn:Hm; [|contradiction|].
    + destruct (dget key_eqb ids (aid, m1)) as [i|] eqn:Hi; [destruct (in_Z i l) eqn:Hin|].
      * eexists; split; [reflexivity|].
        apply (attach_result acc k e l (Some i) _ He Hok Hm Hme).
        -- intros i' H; inversion H; subst. apply in_Z_In; exact Hin.
        -- intros e0 H0. inversion H0; subst.
           split; [apply same_ohlcv_refl | apply mids_grow_refl].
      * eexists; split; [reflexivity|].
        refine (attach_result acc k _ (l ++ [i]) (Some i) _ He Hok _ _ _ _); [reflexivity|..].
        -- apply NoDup_snoc; [exact Hme|]. intros H. apply in_Z_In in H. congruence.
        -- intros i' H; inversion H; subst. apply in_or_app; right; left; reflexivity.
        -- intros e0 H0. inversion H0; subst.
           split; [unfold same_ohlcv; cbn; repeat split|]. intros l0 Hl0. rewrite Hm in Hl0. inversion Hl0; subst.
           exists (l0 ++ [i]). split; [reflexivity|]. apply incl_appl, incl_refl.
      * eexists; split; [reflexivity|].
        apply (attach_result acc k e l None _ He Hok Hm Hme); [discriminate|].
        intros e0 H0. inversion H0; subst.
        split; [apply same_ohlcv_refl | apply mids_grow_refl].
    + destruct (dget key_eqb ids (aid, m1)) as [i|] eqn:Hi.
      * eexists; split; [reflexivity|].
        refine (attach_result acc k _ [i] (Some i) _ He Hok _ _ _ _); [reflexivity|..].
        -- constructor; [intros []|constructor].
        -- intros i' H; inversion H; subst. left; reflexivity.
        -- intros e0 H0. inversion H0; subst.
           split; [unfold same_ohlcv; cbn; repeat split|]. intros l0 Hl0. rewrite Hm in Hl0. discriminate.
      * eexists; split; [reflexivity|].
        refine (attach_result acc k _ [] None _ He Hok _ _ _ _); [reflexivity|..]; [constructor|discriminate|].
        intros e0 H0. inversion H0; subst.
        split; [unfold same_ohlcv; cbn; repeat split|]. intros l0 Hl0. rewrite Hm in Hl0. discriminate.
  - cbn [empty_entry d_minute_candle_ids].
    destruct (dget key_eqb ids (aid, m1)) as [i|] eqn:Hi.
    + eexists; split; [reflexivity|].
      refine (attach_result acc k _ [i] (Some i) _ He Hok _ _ _ _); [reflexivity|..].
      * constructor; [intros []|constructor].
      * intros i' H; inversion H; subst. left; reflexivity.
      * intros e0 H0. discriminate.
    + eexists; split; [reflexivity|].
      refine (attach_result acc k _ [] None _ He Hok _ _ _ _); [reflexivity|..]; [constructor|discriminate|].
      intros e0 H0. discriminate.
Qed.

Lemma attach_keys_spec (ids : list (key * Z)) (delta : timedelta) (mks : list key) :
  forall acc, acc_mids_ok acc ->
  exists acc', attach_keys ids delta acc mks = Some acc' /\ acc_mids_ok acc' /\
    (forall k e, dget key_eqb acc k = Some e ->
       exists e', dget key_eqb acc' k = Some e' /\ same_ohlcv e e' /\ mids_grow e e') /\
    (forall mk i, In mk mks -> dget key_eqb ids mk = Some i ->
       exists e l, dget key_eqb acc' (bucket_key delta mk) = Some e /\
                   d_minute_candle_ids e = Some (Some l) /\ In i l).
Proof.
  induction mks as [|mk r IH]; intros acc Hok.
  - exists acc. split; [reflexivity|]. split; [exact Hok|]. split.
    + intros k e H. exists e. split; [exact H|]. split; [apply same_ohlcv_refl | apply mids_grow_refl].
    + intros mk i [].
  - destruct (attach_minute_id_spec ids delta acc mk Hok)
      as [acc1 [E1 [Hok1 [Hfr [e1 [l1 [He1 [Hm1 [Hi1 Ho1]]]]]]]]].
    destruct (IH acc1 Hok1) as [acc' [E' [Hok' [Hpres Hin]]]].
    exists acc'. cbn [attach_keys]. rewrite E1. split; [exact E'|]. split; [exact Hok'|]. split.
    + intros k e He.
      destruct (key_eqb k (bucket_key delta mk)) eqn:Ek.
      * apply key_eqb_spec in Ek. subst k.
        destruct (Ho1 e He) as [S1 G1].
        destruct (Hpres _ e1 He1) as [e' [He' [S2 G2]]].
        exists e'. split; [exact He'|]. split.
        -- exact (same_ohlcv_trans _ _ _ S1 S2).
        -- exact (mids_grow_trans _ _ _ G1 G2).
      * assert (Hne : k <> bucket_key delta mk)
          by (intros H; rewrite H, (eqk_refl key_eqb key_eqb_spec) in Ek; discriminate).
        rewrite <- (Hfr k Hne) in He. exact (Hpres k e He).
    + intros mk' i [<-|Hmk] Hi.
      * destruct (Hpres _ e1 He1) as [e' [He' [_ G2]]].
        destruct (G2 l1 Hm1) as [l [Hl Hincl]].
        exists e', l. split; [exact He'|]. split; [exact Hl|]. apply Hincl, Hi1, Hi.
      * exact (Hin mk' i Hmk Hi).
Qed.

Lemma attach_minute_ids_other (cfg : list (Timeframe * timedelta)) (ids : list (key * Z))
    (mks : list key) :
  forall accs accs' tf, ~ In tf (map fst cfg) ->
  attach_minute_ids cfg ids mks accs = Some accs' -> dget tf_eqb accs' tf = dget tf_eqb accs tf.
Proof.
  induction cfg as [|[tf0 d0] r IH]; intros accs accs' tf Hn E; cbn [attach_minute_ids] in E.
  - inversion E; reflexivity.
  - cbn [map fst In] in Hn.
    assert (Hr : ~ In tf (map fst r)) by tauto.
    destruct (tf_eqb tf0 TF_1T); [exact (IH _ _ _ Hr E)|].
    destruct (dget tf_eqb accs tf0) as [acc|]; [|discriminate].
    destruct (attach_keys ids d0 acc mks) as [acc1|]; [|discriminate].
    rewrite (IH _ _ _ Hr E). apply (dget_dset_neq tf_eqb tf_eqb_spec). tauto.
Qed.

Lemma attach_minute_ids_spec (cfg : list (Timeframe * timedelta)) (ids : list (key * Z))
    (mks : list key) :
  forall accs, NoDup (map fst cfg) -> accs_mids_ok accs ->
  (forall tf, In tf (map fst cfg) -> tf <> TF_1T -> dget tf_eqb accs tf <> None) ->
  exists accs', attach_minute_ids cfg ids mks accs = Some accs' /\ accs_mids_ok accs' /\
    (forall tf acc k e, dget tf_eqb accs tf = Some acc -> dget key_eqb acc k = Some e ->
       exists acc' e', dget tf_eqb accs' tf = Some acc' /\ dget key_eqb acc' k = Some e' /\
                       same_ohlcv e e') /\
    (forall tf delta mk i, In (tf, delta) cfg -> tf <> TF_1T -> In mk mks ->
       dget key_eqb ids mk = Some i ->
       exists acc e l, dget tf_eqb accs' tf = Some acc /\
         dget key_eqb acc (bucket_key delta mk) = Some e /\
         d_minute_candle_ids e = Some (Some l) /\ In i l).
Proof.
  induction cfg as [|[tf0 d0] r IH]; intros accs Hnd Hok Hpres.
  - exists accs. split; [reflexivity|]. split; [exact Hok|]. split.
    + intros tf acc k e Ha He. exists acc, e. split; [exact Ha|]. split; [exact He|].
      apply same_ohlcv_refl.
    + intros tf delta mk i [].
  - cbn [map fst] in Hnd. inversion Hnd as [|? ? Hn0 Hndr]; subst.
    assert (Hpres_r : forall tf, In tf (map fst r) -> tf <> TF_1T -> dget tf_eqb accs tf <> None)
      by (intros tf Hin; apply Hpres; right; exact Hin).
    cbn [attach_minute_ids].
    destruct (tf_eqb tf0 TF_1T) eqn:E1.
    + apply tf_eqb_spec in E1. subst tf0.
      destruct (IH accs Hndr Hok Hpres_r) as [accs' [E [Hok' [Hs Hi]]]].
      exists accs'. split; [exact E|]. split; [exact Hok'|]. split; [exact Hs|].
      intros tf delta mk i [H|H] Hne; [inversion H; subst; contradiction|]. exact (Hi tf delta mk i H Hne).
    + assert (Hne0 : tf0 <> TF_1T) by (intros ->; discriminate).
      destruct (dget tf_eqb accs tf0) as [acc0|] eqn:Ha0;
        [|exfalso; exact (Hpres tf0 (or_introl eq_refl) Hne0 Ha0)].
      destruct (attach_keys_spec ids d0 mks acc0 (Hok tf0 acc0 Ha0))
        as [acc1 [Ek [Hok1 [Hs1 Hi1]]]].
      rewrite Ek.
      set (accs1 := dset tf_eqb accs tf0 acc1).
      assert (Hget1 : forall tf, tf <> tf0 -> dget tf_eqb accs1 tf = dget tf_eqb accs tf)
        by (intros tf H; apply (dget_dset_neq tf_eqb tf_eqb_spec); congruence).
      assert (Hok_1 : accs_mids_ok accs1).
      { intros tf acc H. unfold accs1 in H. rewrite (dget_dset_cases tf_eqb tf_eqb_spec) in H.
        destruct (tf_eqb tf0 tf); [inversion H; subst; exact Hok1 | exact (Hok tf acc H)]. }
      assert (Hpres1 : forall tf, In tf (map fst r) -> tf <> TF_1T -> dget tf_eqb accs1 tf <> None).
      { intros tf Hin Hne. rewrite Hget1 by (intros ->; contradiction). exact (Hpres_r tf Hin Hne). }
      destruct (IH accs1 Hndr Hok_1 Hpres1) as [accs' [E [Hok' [Hs Hi]]]].
      assert (Hkeep : dget tf_eqb accs' tf0 = Some acc1).
      { rewrite (attach_minute_ids_other r ids mks accs1 accs' tf0 Hn0 E).
        apply (dget_dset_eq tf_eqb tf_eqb_spec). }
      exists accs'. split; [exact E|]. split; [exact Hok'|]. split.
      * intros tf acc k e Ha He.
        destruct (tf_eqb tf tf0) eqn:Et.
        -- apply tf_eqb_spec in Et. subst tf. rewrite Ha0 in Ha. inversion Ha; subst acc.
           destruct (Hs1 k e He) as [e' [He' [S _]]].
           exists acc1, e'. split; [exact Hkeep|]. split; assumption.
        -- assert (Hne : tf <> tf0)
             by (intros ->; rewrite (eqk_refl tf_eqb tf_eqb_spec) in Et; discriminate).
           rewrite <- (Hget1 tf Hne) in Ha. exact (Hs tf acc k e Ha He).
      * intros tf delta mk i [H|H] Hne Hmk Hid.
        -- inversion H; subst tf delta.
           destruct (Hi1 mk i Hmk Hid) as [e [l [He [Hm Hil]]]].
           exists acc1, e, l. split; [exact Hkeep|]. split; [exact He|]. split; assumption.
        -- exact (Hi tf delta mk i H Hne Hmk Hid).
Qed.

(** The loop of [_process_batch] that attaches minute ids to the
    accumulators of [_const.TF_CFG] never raises when every higher timeframe
    has an accumulator whose ["minute_candle_ids"] lists are unset or free
    of repetitions, and keeps the lists free of repetitions (the keys of
    [bar_candles], already merged into [m1_map], are visited twice).  It
    changes no open, high, low, close or volume of an existing entry, and
    afterwards the entry of each bucket lists the id of every minute key of
    the batch that [minute_ids_by_key] knows. *)
Theorem attach_minute_ids_ok (accs : list (Timeframe * list (key * CandleData)))
    (minute_ids_by_key : list (key * Z)) (mks : list key) :
  accs_mids_ok accs ->
  (forall tf, In tf (map fst TF_CFG) -> tf <> TF_1T -> dget tf_eqb accs tf <> None) ->
  exists accs', attach_minute_ids TF_CFG minute_ids_by_key mks accs = Some accs' /\
    accs_mids_ok accs' /\
    (forall tf acc k e, dget tf_eqb accs tf = Some acc -> dget key_eqb acc k = Some e ->
       exists acc' e', dget tf_eqb accs' tf = Some acc' /\ dget key_eqb acc' k = Some e' /\
                       same_ohlcv e e') /\
    (forall tf delta mk i, In (tf, delta) TF_CFG -> tf <> TF_1T -> In mk mks ->
       dget key_eqb minute_ids_by_key mk = Some i ->
       exists acc e l, dget tf_eqb accs' tf = Some acc /\
         dget key_eqb acc (bucket_key delta mk) = Some e /\
         d_minute_candle_ids e = Some (Some l) /\ In i l).
Proof.
  apply attach_minute_ids_spec. cbn. repeat constructor; cbn; intuition discriminate.
Qed.

(** Witness: the fresh accumulators, one minute visited twice (from trades
    and from a bar) with a known id. *)
Lemma attach_minute_ids_ok_witness :
  exists accs', attach_minute_ids TF_CFG [((1, utc 2024 1 2 15 1 0), 42)]
                  [(1, utc 2024 1 2 15 1 0); (1, utc 2024 1 2 15 1 0)]
                  (_tf_acc default_aggregator) = Some accs' /\
    accs_mids_ok accs' /\
    (forall tf acc k e, dget tf_eqb (_tf_acc default_aggregator) tf = Some acc ->
       dget key_eqb acc k = Some e ->
       exists acc' e', dget tf_eqb accs' tf = Some acc' /\ dget key_eqb acc' k = Some e' /\
                       same_ohlcv e e') /\
    (forall tf delta mk i, In (tf, delta) TF_CFG -> tf <> TF_1T ->
       In mk [(1, utc 2024 1 2 15 1 0); (1, utc 2024 1 2 15 1 0)] ->
       dget key_eqb [((1, utc 2024 1 2 15 1 0), 42)] mk = Some i ->
       exists acc e l, dget tf_eqb accs' tf = Some acc /\
         dget key_eqb acc (bucket_key delta mk) = Some e /\
         d_minute_candle_ids e = Some (Some l) /\ In i l).
Proof.
  apply attach_minute_ids_ok.
  - intros tf acc H k e H'. destruct tf; cbn in H; try discriminate;
      inversion H; subst; discriminate.
  - intros tf Hin Htf. cbn in Hin.
    destruct Hin as [<-|[<-|[<-|[<-|[<-|[<-|[<-|[]]]]]]]]; [contradiction| | | | | |];
      cbn; discriminate.
Defined.

(* ------------------------------------------------------------------------- *)
(** ** [persist_open]: the throttle across calls *)

Lemma persist_open_tfs_frame (hc : Z -> Timeframe -> datetime -> bool) (touched : list (Timeframe * list key))
    (latest now : datetime) :
  forall agg agg1 calls, persist_open_tfs hc agg touched latest now = Some (agg1, calls) ->
  _tf_acc agg1 = _tf_acc agg /\ tf_cfg agg1 = tf_cfg agg /\
  _open_flush_secs agg1 = _open_flush_secs agg /\
  (forall tf, In tf (map s_tf calls) -> dget tf_eqb (_last_open_flush agg1) tf = Some now) /\
  (forall tf, dget tf_eqb (_last_open_flush agg1) tf = dget tf_eqb (_last_open_flush agg) tf \/
              dget tf_eqb (_last_open_flush agg1) tf = Some now).
Proof.
  induction touched as [|[tf0 keys] r IH]; intros agg agg1 calls E; cbn [persist_open_tfs] in E.
  - inversion E; subst. split; [reflexivity|]. split; [reflexivity|]. split; [reflexivity|].
    split; [intros tf []|]. intros tf; left; reflexivity.
  - destruct (tf_eqb tf0 TF_1T || match keys with [] => true | _ => false end);
      [exact (IH _ _ _ E)|].
    destruct (now - match dget tf_eqb (_last_open_flush agg) tf0 with Some l => l | None => 0 end
              <? _open_flush_secs agg); [exact (IH _ _ _ E)|].
    destruct (dget tf_eqb (tf_cfg agg) tf0) as [delta|]; [|discriminate].
    destruct (collect_open hc tf0 delta latest
                (match dget tf_eqb (_tf_acc agg) tf0 with Some a => a | None => [] end) keys [])
      as [|p ps]; [exact (IH _ _ _ E)|].
    destruct (persist_open_tfs hc _ r latest now) as [[agg'' calls'']|] eqn:E'; [|discriminate].
    inversion E; subst agg1 calls.
    destruct (IH _ _ _ E') as [H1 [H2 [H3 [H4 H5]]]]. cbn [with_last_open_flush _tf_acc tf_cfg
      _open_flush_secs _last_open_flush] in H1, H2, H3, H5.
    split; [exact H1|]. split; [exact H2|]. split; [exact H3|]. split.
    + intros tf [Htf|Htf]; [|exact (H4 tf Htf)]. cbn [s_tf] in Htf. subst tf.
      destruct (H5 tf0) as [H|H]; [|exact H].
      rewrite H. apply (dget_dset_eq tf_eqb tf_eqb_spec).
    + intros tf. destruct (H5 tf) as [H|H]; [|right; exact H].
      rewrite H, (dget_dset_cases tf_eqb tf_eqb_spec).
      destruct (tf_eqb tf0 tf); [right|left]; reflexivity.
Qed.

Lemma persist_open_tfs_throttled (hc : Z -> Timeframe -> datetime -> bool)
    (touched : list (Timeframe * list key)) (latest now : datetime) (tf : Timeframe) (t : Z) :
  forall agg agg2 calls,
  dget tf_eqb (_last_open_flush agg) tf = Some t -> now - t < _open_flush_secs agg ->
  persist_open_tfs hc agg touched latest now = Some (agg2, calls) -> ~ In tf (map s_tf calls).
Proof.
  induction touched as [|[tf0 keys] r IH]; intros agg agg2 calls Ht Hlt E;
    cbn [persist_open_tfs] in E.
  - inversion E; subst. intros [].
  - destruct (tf_eqb tf0 TF_1T || match keys with [] => true | _ => false end);
      [exact (IH _ _ _ Ht Hlt E)|].
    destruct (now - match dget tf_eqb (_last_open_flush agg) tf0 with Some l => l | None => 0 end
              <? _open_flush_secs agg) eqn:Thr; [exact (IH _ _ _ Ht Hlt E)|].
    destruct (dget tf_eqb (tf_cfg agg) tf0) as [delta|]; [|discriminate].
    destruct (collect_open hc tf0 delta latest
                (match dget tf_eqb (_tf_acc agg) tf0 with Some a => a | None => [] end) keys [])
      as [|p ps]; [exact (IH _ _ _ Ht Hlt E)|].
    destruct (persist_open_tfs hc _ r latest now) as [[agg'' calls'']|] eqn:E'; [|discriminate].
    inversion E; subst agg2 calls.
    assert (Hne : tf0 <> tf).
    { intros ->. rewrite Ht in Thr. apply Z.ltb_ge in Thr. lia. }
    intros [H|H]; [cbn in H; contradiction|].
    refine (IH _ _ _ _ _ E' H); [|exact Hlt]. cbn [with_last_open_flush _last_open_flush].
    rewrite (dget_dset_neq tf_eqb tf_eqb_spec) by exact Hne. exact Ht.
Qed.

(** [persist_open] never touches the accumulators; once it has written a
    timeframe, a later [persist_open] less than [open_flush_secs] after it
    (whatever it is given) does not write that timeframe again. *)
Theorem persist_open_throttle (hc hc' : Z -> Timeframe -> datetime -> bool) (agg agg1 agg2 : Aggregator)
    (touched touched' : list (Timeframe * list key)) (latest latest' now now' : datetime)
    (calls1 calls2 : list SaveCall) (tf : Timeframe) :
  persist_open hc agg touched latest now = Some (agg1, calls1) ->
  In tf (map s_tf calls1) ->
  now' - now < _open_flush_secs agg ->
  persist_open hc' agg1 touched' latest' now' = Some (agg2, calls2) ->
  _tf_acc agg1 = _tf_acc agg /\ ~ In tf (map s_tf calls2).
Proof.
  unfold persist_open. intros E1 Hin Hlt E2.
  destruct (persist_open_tfs_frame hc touched latest now agg agg1 calls1 E1)
    as [Hacc [_ [Hsecs [Hlast _]]]].
  split; [exact Hacc|].
  apply (persist_open_tfs_throttled hc' touched' latest' now' tf now agg1 agg2 calls2);
    [exact (Hlast tf Hin) | rewrite Hsecs; exact Hlt | exact E2].
Qed.

(** Witness: an open 5-minute bucket written at clock 1000 s, and a second
    call 0.1 s later. *)
Lemma persist_open_throttle_witness :
  let agg := with_tf_acc default_aggregator
               [(TF_5T, [((1, utc 2024 1 2 15 5 0),
                          new_acc_entry (mkM1 (Some 1) (Some 2) (Some 1) (Some 2) (Some 3)))]);
                (TF_15T, []); (TF_30T, []); (TF_1H, []); (TF_4H, []); (TF_1D, [])] in
  let agg1 := with_last_open_flush agg (dset tf_eqb (_last_open_flush agg) TF_5T 1000000000) in
  let touched := [(TF_5T, [(1, utc 2024 1 2 15 5 0)])] in
  let calls1 := [mkSave TF_5T [((1, utc 2024 1 2 15 5 0),
                   new_acc_entry (mkM1 (Some 1) (Some 2) (Some 1) (Some 2) (Some 3)))] true] in
  persist_open (fun _ _ _ => true) agg touched (utc 2024 1 2 15 6 0) 1000000000 = Some (agg1, calls1) /\
  In TF_5T (map s_tf calls1) /\
  1000100000 - 1000000000 < _open_flush_secs agg /\
  persist_open (fun _ _ _ => true) agg1 touched (utc 2024 1 2 15 6 0) 1000100000 = Some (agg1, []) /\
  _tf_acc agg1 = _tf_acc agg /\ ~ In TF_5T (map s_tf []).
Proof.
  intros agg agg1 touched calls1.
  assert (E1 : persist_open (fun _ _ _ => true) agg touched (utc 2024 1 2 15 6 0) 1000000000 =
               Some (agg1, calls1)) by (vm_compute; reflexivity).
  assert (Hin : In TF_5T (map s_tf calls1)) by (left; reflexivity).
  assert (Hlt : 1000100000 - 1000000000 < _open_flush_secs agg) by (vm_compute; reflexivity).
  assert (E2 : persist_open (fun _ _ _ => true) agg1 touched (utc 2024 1 2 15 6 0) 1000100000 =
               Some (agg1, [])) by (vm_compute; reflexivity).
  split; [exact E1|]. split; [exact Hin|]. split; [exact Hlt|]. split; [exact E2|].
  exact (persist_open_throttle (fun _ _ _ => true) (fun _ _ _ => true) agg agg1 agg1 touched touched
           (utc 2024 1 2 15 6 0) (utc 2024 1 2 15 6 0) 1000000000 1000100000 calls1 [] TF_5T
           E1 Hin Hlt E2).
Defined.

(** ** The message handlers *)

Lemma on_message_item_None (lower : string -> string) (b : option string -> bool) (m : WsItem) :
  on_message_item lower b m = None <-> item_raises m = true.
Proof.
  destruct m as [typ text|]; [|simpl; split; reflexivity].
  unfold on_message_item, item_raises.
  destruct (T_is "error" (WsObj typ text)), (T_is "success" (WsObj typ text));
    destruct text; simpl; try destruct (T_is "subscription" _); try destruct (b typ);
    split; intro H; try discriminate; try reflexivity.
Qed.

Definition item_events (lower : string -> string) (b : option string -> bool) (m : WsItem)
  : list WsEvent :=
  match on_message_item lower b m with Some ev => ev | None => [] end.

Lemma on_message_loop_prefix (lower : string -> string) (b : option string -> bool)
    (l : list WsItem) :
  on_message_loop lower b l = flat_map (item_events lower b) (handled_prefix l).
Proof.
  induction l as [|m r IH]; [reflexivity|].
  simpl. destruct (on_message_item lower b m) eqn:E.
  - assert (item_raises m = false) as ->.
    { destruct (item_raises m) eqn:R; [|reflexivity].
      apply (on_message_item_None lower b) in R. congruence. }
    simpl. unfold item_events at 1. rewrite E, IH. reflexivity.
  - apply on_message_item_None in E. rewrite E. reflexivity.
Qed.

Lemma on_message_prefix (lower : string -> string) (b : option string -> bool) (p : Payload) :
  on_message lower b p = flat_map (item_events lower b) (handled_prefix (payload_items p)).
Proof.
  destruct p; unfold on_message, payload_items; try rewrite on_message_loop_prefix; reflexivity.
Qed.

Lemma puts_app (e1 e2 : list WsEvent) : puts (e1 ++ e2) = puts e1 ++ puts e2.
Proof. unfold puts. apply flat_map_app. Qed.

Lemma puts_flat_map (f : WsItem -> list WsEvent) (l : list WsItem) :
  puts (flat_map f l) = flat_map (fun m => puts (f m)) l.
Proof.
  induction l as [|m r IH]; [reflexivity|]. simpl. rewrite puts_app, IH. reflexivity.
Qed.

Lemma puts_item_events (lower : string -> string) (b : option string -> bool) (m : WsItem) :
  item_raises m = false ->
  puts (item_events lower b m) =
  if negb (T_is "error" m || T_is "success" m || T_is "subscription" m) && b (get_T m)
  then [m] else [].
Proof.
  intros R. unfold item_events, on_message_item.
  destruct m as [typ text|]; [|discriminate].
  destruct (T_is "error" (WsObj typ text)); simpl.
  - destruct (lowered lower text); [|reflexivity].
    destruct (str_contains _ _); reflexivity.
  - destruct (T_is "success" (WsObj typ text)); simpl.
    + destruct (lowered lower text); [|reflexivity].
      destruct (str_contains _ _); reflexivity.
    + destruct (T_is "subscription" (WsObj typ text)); simpl; [reflexivity|].
      destruct (b typ); reflexivity.
Qed.

Lemma stocks_buffered_T (m : WsItem) :
  negb (T_is "error" m || T_is "success" m || T_is "subscription" m) && stocks_buffered (get_T m)
  = T_is "t" m.
Proof.
  unfold T_is, stocks_buffered. destruct (get_T m) as [s|]; [|reflexivity].
  destruct (String.eqb_spec s "t"); [subst; reflexivity|].
  rewrite andb_false_r. reflexivity.
Qed.

Lemma crypto_buffered_T (m : WsItem) :
  negb (T_is "error" m || T_is "success" m || T_is "subscription" m) && crypto_buffered (get_T m)
  = T_is "t" m || T_is "b" m.
Proof.
  unfold T_is, crypto_buffered. destruct (get_T m) as [s|]; [|reflexivity].
  destruct (String.eqb_spec s "t"); [subst; reflexivity|].
  destruct (String.eqb_spec s "b"); [subst; reflexivity|].
  rewrite andb_false_r. reflexivity.
Qed.

Lemma puts_on_message (lower : string -> string) (b : option string -> bool)
    (f : WsItem -> bool) (p : Payload) :
  (forall m, negb (T_is "error" m || T_is "success" m || T_is "subscription" m) && b (get_T m)
             = f m) ->
  puts (on_message lower b p) = filter f (handled_prefix (payload_items p)).
Proof.
  intros Hf. rewrite on_message_prefix, puts_flat_map.
  induction (payload_items p) as [|m r IH]; [reflexivity|].
  simpl. destruct (item_raises m) eqn:R; [reflexivity|].
  simpl. rewrite (puts_item_events lower b m R), Hf, IH. destruct (f m); reflexivity.
Qed.

Lemma In_flat_map_item_events (lower : string -> string) (b : option string -> bool)
    (e : WsEvent) (l : list WsItem) :
  In e (flat_map (item_events lower b) l) <-> exists m, In m l /\ In e (item_events lower b m).
Proof. apply in_flat_map. Qed.

Lemma item_events_stop (lower : string -> string) (b : option string -> bool) (m : WsItem) :
  item_raises m = false ->
  In WsStop (item_events lower b m) <->
  T_is "error" m = true /\ str_contains "authentication" (lower (text_of m)) = true.
Proof.
  intros R. unfold item_events, on_message_item.
  destruct m as [typ text|]; [|discriminate].
  destruct (T_is "error" (WsObj typ text)) eqn:Ee.
  - destruct text as [|s|]; simpl in R |- *; [| |rewrite Ee in R; discriminate];
      (destruct (str_contains _ _); simpl; intuition congruence).
  - destruct (T_is "success" (WsObj typ text)).
    + destruct (lowered lower text); [|simpl; intuition congruence].
      destruct (str_contains _ _); simpl; intuition congruence.
    + destruct (T_is "subscription" (WsObj typ text)); [simpl; intuition congruence|].
      destruct (b typ); simpl; intuition congruence.
Qed.

Lemma T_is_excl (t1 t2 : string) (m : WsItem) :
  t1 <> t2 -> T_is t1 m = true -> T_is t2 m = false.
Proof.
  unfold T_is. destruct (get_T m) as [s|]; [|discriminate].
  intros Hne H1. apply String.eqb_eq in H1. subst. apply String.eqb_neq. congruence.
Qed.

Lemma item_events_auth (lower : string -> string) (b : option string -> bool) (m : WsItem) :
  item_raises m = false ->
  In WsAuthenticated (item_events lower b m) <->
  T_is "success" m = true /\ str_contains "authenticated" (lower (text_of m)) = true.
Proof.
  intros R. unfold item_events, on_message_item.
  destruct m as [typ text|]; [|discriminate].
  destruct (T_is "error" (WsObj typ text)) eqn:Ee.
  - assert (T_is "success" (WsObj typ text) = false) as ->
      by (apply (T_is_excl "error"); [discriminate|exact Ee]).
    destruct (lowered lower text); [|simpl; intuition congruence].
    destruct (str_contains _ _); simpl; intuition congruence.
  - destruct (T_is "success" (WsObj typ text)) eqn:Es.
    + destruct text as [|s|]; simpl in R |- *;
        [| |rewrite Ee, Es in R; discriminate];
        (destruct (str_contains _ _); simpl; intuition congruence).
    + destruct (T_is "subscription" (WsObj typ text)); [simpl; intuition congruence|].
      destruct (b typ); simpl; intuition congruence.
Qed.

Lemma handled_prefix_ok (l : list WsItem) (m : WsItem) :
  In m (handled_prefix l) -> item_raises m = false.
Proof.
  induction l as [|x r IH]; simpl; [tauto|].
  destruct (item_raises x) eqn:R; simpl; [tauto|].
  intros [<-|H]; auto.
Qed.

Lemma on_message_event (lower : string -> string) (b : option string -> bool) (p : Payload)
    (e : WsEvent) (P : WsItem -> Prop) :
  (forall m, item_raises m = false -> In e (item_events lower b m) <-> P m) ->
  In e (on_message lower b p) <-> exists m, In m (handled_prefix (payload_items p)) /\ P m.
Proof.
  intros HP. rewrite on_message_prefix, in_flat_map. split.
  - intros (m & Hm & He). exists m. split; [exact Hm|].
    apply (proj1 (HP m (handled_prefix_ok _ _ Hm))). exact He.
  - intros (m & Hm & He). exists m. split; [exact Hm|].
    apply (proj2 (HP m (handled_prefix_ok _ _ Hm))). exact He.
Qed.

Lemma batch_split_perm (l : list WsItem) :
  (forall m, In m l -> T_is "t" m || T_is "b" m = true) ->
  Permutation (filter (T_is "t") l ++ filter (T_is "b") l) l.
Proof.
  induction l as [|m r IH]; intros H; [constructor|].
  assert (IH' := IH (fun x Hx => H x (or_intror Hx))).
  simpl. destruct (T_is "t" m) eqn:Et.
  - rewrite (T_is_excl "t" "b" m) by (discriminate || exact Et). simpl.
    constructor. exact IH'.
  - assert (T_is "b" m = true) as Eb by (specialize (H m (or_introl eq_refl)); rewrite Et in H; exact H).
    rewrite Eb. simpl. apply Permutation_sym.
    eapply Permutation_trans; [apply Permutation_cons; [reflexivity|apply Permutation_sym; exact IH']|].
    apply Permutation_middle.
Qed.

(** Buffering of the message handlers: of the elements of a payload before
    the first one that raises, [on_message_stocks] puts exactly those with
    [T == "t"] into the buffer and [on_message_crypto] exactly those with
    [T] in [("t", "b")], in payload order. *)
Theorem on_message_buffered (lower : string -> string) (p : Payload) :
  puts (on_message_stocks lower p) = filter (T_is "t") (handled_prefix (payload_items p)) /\
  puts (on_message_crypto lower p) =
    filter (fun m => T_is "t" m || T_is "b" m) (handled_prefix (payload_items p)).
Proof.
  split; apply puts_on_message; [apply stocks_buffered_T|apply crypto_buffered_T].
Qed.

(** A handler calls [self.stop()] exactly when an ["error"] message before
    the first element that raises has ["authentication"] in its lowercased
    ["msg"] text; this holds for both sockets. *)
Theorem on_message_stop (lower : string -> string) (p : Payload) :
  (In WsStop (on_message_stocks lower p) <->
   exists m, In m (handled_prefix (payload_items p)) /\
             T_is "error" m = true /\ str_contains "authentication" (lower (text_of m)) = true) /\
  (In WsStop (on_message_crypto lower p) <->
   exists m, In m (handled_prefix (payload_items p)) /\
             T_is "error" m = true /\ str_contains "authentication" (lower (text_of m)) = true).
Proof.
  split; apply on_message_event; intros m R; apply item_events_stop; exact R.
Qed.

(** A handler sets [authenticated] and refreshes the subscriptions exactly
    when a ["success"] message before the first element that raises has
    ["authenticated"] in its lowercased ["msg"] text; this holds for both
    sockets. *)
Theorem on_message_authenticated (lower : string -> string) (p : Payload) :
  (In WsAuthenticated (on_message_stocks lower p) <->
   exists m, In m (handled_prefix (payload_items p)) /\
             T_is "success" m = true /\ str_contains "authenticated" (lower (text_of m)) = true) /\
  (In WsAuthenticated (on_message_crypto lower p) <->
   exists m, In m (handled_prefix (payload_items p)) /\
             T_is "success" m = true /\ str_contains "authenticated" (lower (text_of m)) = true).
Proof.
  split; apply on_message_event; intros m R; apply item_events_auth; exact R.
Qed.

(** [_process_batch] loses no buffered message: for any interleaving of
    payloads from the two sockets ([true] for crypto), the [trades] and
    [bars] it splits the buffered messages into are a rearrangement of them;
    and what the stocks socket buffers never lands in [bars]. *)
Theorem batch_split_buffer (lower : string -> string) (ps : list (bool * Payload)) (p : Payload) :
  let buf := flat_map (fun (cp : bool * Payload) => puts (if fst cp then on_message_crypto lower (snd cp)
                                       else on_message_stocks lower (snd cp))) ps in
  Permutation (fst (batch_split buf) ++ snd (batch_split buf)) buf /\
  snd (batch_split (puts (on_message_stocks lower p))) = [].
Proof.
  split.
  - apply batch_split_perm. intros m Hm.
    apply in_flat_map in Hm as ([c q] & _ & Hm). simpl in Hm.
    destruct c.
    + unfold on_message_crypto in Hm.
      rewrite (puts_on_message lower crypto_buffered _ q crypto_buffered_T) in Hm.
      apply filter_In in Hm. exact (proj2 Hm).
    + unfold on_message_stocks in Hm.
      rewrite (puts_on_message lower stocks_buffered _ q stocks_buffered_T) in Hm.
      apply filter_In in Hm. rewrite (proj2 Hm). reflexivity.
  - unfold batch_split, on_message_stocks. simpl.
    rewrite (puts_on_message lower stocks_buffered _ p stocks_buffered_T).
    induction (handled_prefix (payload_items p)) as [|m r IH]; [reflexivity|].
    simpl. destruct (T_is "t" m) eqn:Et; simpl; [|exact IH].
    rewrite (T_is_excl "t" "b" m) by (discriminate || exact Et). exact IH.
Qed.
